(** * Authenticated transcription client: token cache, retry protocol,
      format converter and the [transcribeVoice] orchestrator.

    Shallow embedding of
      - [src/services/sber-transcription.ts]  (class [SberTranscriptionService]),
      - [src/services/audio-converter.ts]     (class [AudioConverter]),
      - [src/utils.ts]                        (module state and [transcribeVoice]).

    Everything the code obtains from outside itself (the clock, the UUID
    generator, the two HTTP endpoints, the file system, the transcoder) is
    answered by a [Runtime], a deterministic function of the events that
    happened so far.  Every such interaction is recorded in a trace, so that
    "no network request is issued" and "exactly one retry" are statements
    about the trace a call emits.

    Modelling bounds, stated once:
      - JavaScript strings are lists of UTF-16 code units;
      - JavaScript numbers are integers or NaN (no fractions, no infinities);
      - response bodies are JSON values; objects are plain objects (no own
        [toString]/[valueOf] keys);
      - [console.log]/[console.error]/[console.warn] lines are not modelled
        (the [confidence] field is read for logging only).
    Where a statement would reach beyond these bounds (a conversion of an
    object to a string or a number, a sum that doubles round), it carries
    the bound as a hypothesis: see [primitive], [plain_answer],
    [plain_result] and [exact_expiry]. *)

From Stdlib Require Import List ZArith NArith Bool Lia.
From Stdlib Require String Ascii DecimalString.
Import ListNotations.
Import String.StringSyntax.

Set Implicit Arguments.
Set Warnings "-register-all".
Local Open Scope string_scope.
Local Open Scope list_scope.
Local Open Scope Z_scope.

(* ================================================================== *)
(** ** JavaScript strings *)
(* ================================================================== *)

(** Source-code literals are ASCII; a JavaScript string is its sequence of
    UTF-16 code units. *)
Definition lit (s : String.string) : list N :=
  map Ascii.N_of_ascii (String.list_ascii_of_string s).

Module JsString.

Definition t := list N.

Fixpoint eqb (a b : t) : bool :=
  match a, b with
  | [], [] => true
  | x :: a', y :: b' => N.eqb x y && eqb a' b'
  | _, _ => false
  end.

(** [Array.prototype.join] on already converted elements. *)
Fixpoint join (sep : t) (parts : list t) : t :=
  match parts with
  | [] => []
  | [p] => p
  | p :: rest => p ++ sep ++ join sep rest
  end.

(** ECMAScript WhiteSpace and LineTerminator code points, the set that
    [String.prototype.trim] strips. *)
Definition is_whitespace (c : N) : bool :=
  let c := Z.of_N c in
  ((9 <=? c) && (c <=? 13))          (* TAB LF VT FF CR *)
  || (c =? 32)                       (* SPACE *)
  || (c =? 160)                      (* NBSP *)
  || (c =? 5760)                     (* U+1680 *)
  || ((8192 <=? c) && (c <=? 8202))  (* U+2000 .. U+200A *)
  || (c =? 8232) || (c =? 8233)      (* LS, PS *)
  || (c =? 8239)                     (* U+202F *)
  || (c =? 8287)                     (* U+205F *)
  || (c =? 12288)                    (* U+3000 *)
  || (c =? 65279).                   (* U+FEFF *)

Fixpoint trimStart (s : t) : t :=
  match s with
  | c :: s' => if is_whitespace c then trimStart s' else s
  | [] => []
  end.

Definition trimEnd (s : t) : t := rev (trimStart (rev s)).

Definition trim (s : t) : t := trimEnd (trimStart s).

(** Decimal rendering of an integer, as [Number.prototype.toString]. *)
Definition of_Z (z : Z) : t := lit (DecimalString.NilZero.string_of_int (Z.to_int z)).

End JsString.

(* ================================================================== *)
(** ** JavaScript values *)
(* ================================================================== *)

Inductive JsNum : Type :=
| NaN
| Num (z : Z).

Inductive JsVal : Type :=
| JUndefined
| JNull
| JBool (b : bool)
| JNum (n : JsNum)
| JStr (s : JsString.t)
| JArr (elems : list JsVal)
| JObj (props : list (JsString.t * JsVal)).

Module Js.

(** ToBoolean. *)
Definition truthy (v : JsVal) : bool :=
  match v with
  | JUndefined | JNull => false
  | JBool b => b
  | JNum NaN => false
  | JNum (Num z) => negb (z =? 0)
  | JStr s => negb (JsString.eqb s [])
  | JArr _ | JObj _ => true
  end.

Definition num_truthy (n : JsNum) : bool := truthy (JNum n).

Definition num_to_string (n : JsNum) : JsString.t :=
  match n with
  | NaN => lit "NaN"
  | Num z => JsString.of_Z z
  end.

(** ToString.  An array converts as [join(",")]; inside [join] the
    elements [undefined] and [null] convert to the empty string.  A plain
    object converts as [Object.prototype.toString] converts it, and a
    number prints its digits: exact for objects without an own property
    [toString] and for integers up to [Number.MAX_SAFE_INTEGER], which is
    the bound the statements keep to (see [primitive] and [exact]). *)
Fixpoint to_string (v : JsVal) : JsString.t :=
  match v with
  | JUndefined => lit "undefined"
  | JNull => lit "null"
  | JBool true => lit "true"
  | JBool false => lit "false"
  | JNum n => num_to_string n
  | JStr s => s
  | JArr elems =>
      JsString.join (lit ",")
        (map (fun e => match e with
                       | JUndefined | JNull => []
                       | _ => to_string e
                       end) elems)
  | JObj _ => lit "[object Object]"
  end.

Definition join_element (e : JsVal) : JsString.t :=
  match e with
  | JUndefined | JNull => []
  | _ => to_string e
  end.

(** [arr.join(sep)]. *)
Definition array_join (sep : JsString.t) (elems : list JsVal) : JsString.t :=
  JsString.join sep (map join_element elems).

Fixpoint lookup (key : JsString.t) (props : list (JsString.t * JsVal)) : JsVal :=
  match props with
  | [] => JUndefined
  | (k, v) :: rest => if JsString.eqb k key then v else lookup key rest
  end.

(** [v?.key] for a key that no prototype defines: [undefined] on
    [undefined]/[null] and on every primitive or array. *)
Definition opt_member (v : JsVal) (key : JsString.t) : JsVal :=
  match v with
  | JObj props => lookup key props
  | _ => JUndefined
  end.

Definition is_nullish (v : JsVal) : bool :=
  match v with
  | JUndefined | JNull => true
  | _ => false
  end.

(** [a < b] on numbers: false as soon as one side is NaN. *)
Definition num_lt (a b : JsNum) : bool :=
  match a, b with
  | Num x, Num y => x <? y
  | _, _ => false
  end.

(** Sums, differences and products are those of the integers: what the
    engine computes as long as operands and result are integers it
    represents exactly (see [exact_expiry]). *)
Definition num_add (a b : JsNum) : JsNum :=
  match a, b with
  | Num x, Num y => Num (x + y)
  | _, _ => NaN
  end.

Definition num_sub (a b : JsNum) : JsNum :=
  match a, b with
  | Num x, Num y => Num (x - y)
  | _, _ => NaN
  end.

Definition num_mul (a b : JsNum) : JsNum :=
  match a, b with
  | Num x, Num y => Num (x * y)
  | _, _ => NaN
  end.

(** [a || b]. *)
Definition or_else (a b : JsVal) : JsVal := if truthy a then a else b.

End Js.

(* ================================================================== *)
(** ** The outside world: events, runtime, thrown values *)
(* ================================================================== *)

Definition Buffer := list Byte.byte.

(** What an HTTP POST comes back with: a response (any status) or no
    response at all (connection error, timeout). *)
Inductive HttpOutcome : Type :=
| HttpResponse (status : Z) (data : JsVal)
| HttpFailure (message : JsString.t).

Inductive Body : Type :=
| FormBody (params : list (JsString.t * JsString.t))
| BinaryBody (bytes : Buffer).

Record AxiosConfig : Type := {
  headers : list (JsString.t * JsString.t);
  timeout : Z
}.

Inductive FileOutcome : Type :=
| FileBytes (bytes : Buffer)
| FileFailure (message : JsString.t).

(** What the transcoder can emit: events of the ffmpeg command and events
    of the stream returned by [pipe()]. *)
Inductive FfmpegEvent : Type :=
| CommandError (message : JsString.t)
| CommandEnd
| StreamData (chunk : Buffer)
| StreamError (message : JsString.t).

Inductive Event : Type :=
| EvDateNow (t : N)
| EvRandomUUID (u : JsString.t)
| EvPost (url : JsString.t) (body : Body) (config : AxiosConfig) (out : HttpOutcome)
| EvReadFile (path : JsString.t) (out : FileOutcome)
| EvFfmpeg (input : Buffer) (run : list FfmpegEvent).

(** The runtime answers every interaction as a function of the events so
    far (oldest first).  [Date.now()] is a count of milliseconds since the
    epoch.  A POST is answered as the network answers it; what axios makes
    of the answer is [axios_post] below.  A transcoder run is the sequence
    of events ffmpeg and its output stream emit, in order of emission.
    The last two fields are the engine's own: ToNumber on strings and the
    message of the TypeError raised by a property read on
    [undefined]/[null]. *)
Record Runtime : Type := {
  rt_date_now : list Event -> N;
  rt_random_uuid : list Event -> JsString.t;
  rt_post : list Event -> JsString.t -> Body -> AxiosConfig -> HttpOutcome;
  rt_read_file : list Event -> JsString.t -> FileOutcome;
  rt_ffmpeg : list Event -> Buffer -> list FfmpegEvent;
  rt_string_to_number : JsString.t -> JsNum;
  rt_type_error : JsVal -> JsString.t -> JsString.t
}.

(** Values the code throws or sees thrown; all are [Error] instances. *)
Inductive Thrown : Type :=
| AxiosError (message : JsString.t) (response_status : option Z)
| JsError (message : JsString.t).

(** [error instanceof Error ? error.message : String(error)]. *)
Definition error_message (e : Thrown) : JsString.t :=
  match e with
  | AxiosError m _ => m
  | JsError m => m
  end.

(** [axios.isAxiosError(error) && error.response?.status === code]. *)
Definition is_axios_status (e : Thrown) (code : Z) : bool :=
  match e with
  | AxiosError _ (Some st) => st =? code
  | _ => false
  end.

Inductive Completion (A : Type) : Type :=
| Normal (v : A)
| Abrupt (e : Thrown).
Arguments Normal {A} v.
Arguments Abrupt {A} e.

(* ================================================================== *)
(** ** A state, error and trace monad *)
(* ================================================================== *)

(** A computation reads the runtime and the history so far, updates the
    object state [S], and returns a completion and the events it emitted
    (oldest first). *)
Definition M (S A : Type) : Type :=
  Runtime -> list Event -> S -> Completion A * S * list Event.

Section Monad.
Context {S : Type}.

Definition ret {A} (v : A) : M S A := fun _ _ s => (Normal v, s, []).

Definition throw {A} (e : Thrown) : M S A := fun _ _ s => (Abrupt e, s, []).

Definition bind {A B} (c : M S A) (k : A -> M S B) : M S B :=
  fun rt h s =>
    match c rt h s with
    | (Normal v, s1, t1) =>
        match k v rt (h ++ t1) s1 with
        | (r, s2, t2) => (r, s2, t1 ++ t2)
        end
    | (Abrupt e, s1, t1) => (Abrupt e, s1, t1)
    end.

(** [try { c } catch (error) { handler error }]. *)
Definition try_catch {A} (c : M S A) (handler : Thrown -> M S A) : M S A :=
  fun rt h s =>
    match c rt h s with
    | (Normal v, s1, t1) => (Normal v, s1, t1)
    | (Abrupt e, s1, t1) =>
        match handler e rt (h ++ t1) s1 with
        | (r, s2, t2) => (r, s2, t1 ++ t2)
        end
    end.

Definition get : M S S := fun _ _ s => (Normal s, s, []).

Definition modify (f : S -> S) : M S unit := fun _ _ s => (Normal tt, f s, []).

(** [Date.now()]. *)
Definition date_now : M S N :=
  fun rt h s => let t := rt_date_now rt h in (Normal t, s, [EvDateNow t]).

(** [randomUUID()]. *)
Definition randomUUID : M S JsString.t :=
  fun rt h s => let u := rt_random_uuid rt h in (Normal u, s, [EvRandomUUID u]).

(** [v.key]: a TypeError on [undefined] and [null]. *)
Definition member (v : JsVal) (key : JsString.t) : M S JsVal :=
  fun rt _ s =>
    if Js.is_nullish v then (Abrupt (JsError (rt_type_error rt v key)), s, [])
    else (Normal (Js.opt_member v key), s, []).

(** ToNumber.  An object converts through its string, as for a plain
    object; statements about a converted [expires_at] are made for
    primitive values (see [plain_answer]). *)
Definition to_number (v : JsVal) : M S JsNum :=
  fun rt _ s =>
    (Normal match v with
            | JUndefined => NaN
            | JNull => Num 0
            | JBool b => Num (if b then 1 else 0)
            | JNum n => n
            | JStr str => rt_string_to_number rt str
            | JArr _ | JObj _ => rt_string_to_number rt (Js.to_string v)
            end, s, []).

End Monad.

Declare Scope js_scope.
Delimit Scope js_scope with js.
Notation "x <- c ;; k" := (bind c (fun x => k))
  (at level 61, c at next level, right associativity) : js_scope.
Notation "c ;; k" := (bind c (fun _ => k))
  (at level 61, right associativity) : js_scope.
Notation "'try' c 'catch' h" := (try_catch c h)
  (at level 62, c at level 61, h at level 61) : js_scope.

(* ================================================================== *)
(** ** axios *)
(* ================================================================== *)

Record AxiosResponse : Type := {
  status : Z;
  data : JsVal
}.

Definition is_2xx (st : Z) : bool := (200 <=? st) && (st <? 300).

(** [axios.post(url, body, config)] with the default [validateStatus]: a
    2xx response resolves, any other status rejects with an [AxiosError]
    that carries the response, no response rejects with one that does
    not. *)
Definition axios_post {S} (url : JsString.t) (body : Body) (config : AxiosConfig)
  : M S AxiosResponse :=
  fun rt h s =>
    let out := rt_post rt h url body config in
    (match out with
     | HttpResponse st d =>
         if is_2xx st then Normal {| status := st; data := d |}
         else Abrupt (AxiosError
                        (lit "Request failed with status code " ++ JsString.of_Z st)
                        (Some st))
     | HttpFailure msg => Abrupt (AxiosError msg None)
     end, s, [EvPost url body config out]).

(* ================================================================== *)
(** ** services/sber-transcription.ts *)
(* ================================================================== *)

Definition TOKEN_URL : JsString.t := lit "https://ngw.devices.sberbank.ru:9443/api/v2/oauth".
Definition SPEECH_URL : JsString.t := lit "https://smartspeech.sber.ru/rest/v1/speech:recognize".
Definition API_VERSION : JsString.t := lit "SALUTE_SPEECH_PERS".
Definition AUTH_TIMEOUT : Z := 30000.
Definition SPEECH_TIMEOUT : Z := 30000.

(** The fields of [SberTranscriptionService].  [cachedToken] holds whatever
    the OAuth response carried under [access_token] ([null] when empty);
    [tokenExpiry] is a number or [null] ([None]).  The [httpsAgent] is a
    constant of every request and is left out. *)
Record SberTranscriptionService : Type := {
  clientSecret : JsString.t;
  cachedToken : JsVal;
  tokenExpiry : option JsNum
}.

(** [new SberTranscriptionService(clientSecret)]. *)
Definition new_SberTranscriptionService (secret : JsString.t) : SberTranscriptionService :=
  {| clientSecret := secret; cachedToken := JNull; tokenExpiry := None |}.

Definition set_cachedToken (v : JsVal) : M SberTranscriptionService unit :=
  modify (fun this => {| clientSecret := clientSecret this;
                         cachedToken := v;
                         tokenExpiry := tokenExpiry this |}).

Definition set_tokenExpiry (e : option JsNum) : M SberTranscriptionService unit :=
  modify (fun this => {| clientSecret := clientSecret this;
                         cachedToken := cachedToken this;
                         tokenExpiry := e |}).

Local Open Scope js_scope.

(** [private async getAuthToken(): Promise<string>]. *)
Definition getAuthToken : M SberTranscriptionService JsVal :=
  this <- get ;;
  (* this.cachedToken && this.tokenExpiry && Date.now() < this.tokenExpiry - 300000 *)
  valid <- match tokenExpiry this with
           | Some expiry =>
               if Js.truthy (cachedToken this) && Js.num_truthy expiry then
                 now <- date_now ;;
                 ret (Js.num_lt (Num (Z.of_N now)) (Js.num_sub expiry (Num 300000)))
               else ret false
           | None => ret false
           end ;;
  if valid : bool then
    (* timeRemaining, only logged *)
    _ <- date_now ;;
    ret (cachedToken this)
  else
    rqUID <- randomUUID ;;
    let headers :=
      [ (lit "Authorization", lit "Basic " ++ clientSecret this);
        (lit "RqUID", rqUID);
        (lit "Content-Type", lit "application/x-www-form-urlencoded") ] in
    let params := [ (lit "scope", API_VERSION) ] in
    try (
      response <- axios_post TOKEN_URL (FormBody params)
                    {| headers := headers; timeout := AUTH_TIMEOUT |} ;;
      access_token <- member (data response) (lit "access_token") ;;
      set_cachedToken access_token ;;
      expires_at <- member (data response) (lit "expires_at") ;;
      let expiresIn := Js.or_else expires_at (JNum (Num 1800)) in
      now <- date_now ;;
      seconds <- to_number expiresIn ;;
      set_tokenExpiry
        (Some (Js.num_add (Num (Z.of_N now)) (Js.num_mul seconds (Num 1000)))) ;;
      this' <- get ;;
      if negb (Js.truthy (cachedToken this')) then
        throw (JsError (lit "Failed to obtain access token"))
      else
        ret (cachedToken this')
    ) catch (fun error =>
      let errorMessage := error_message error in
      throw (JsError (lit "Sber authentication failed: " ++ errorMessage))).

(** The body of [transcribeWithRetry], its recursive call passed as [self]. *)
Definition transcribeWithRetry_body
    (self : Buffer -> bool -> M SberTranscriptionService JsString.t)
    (audioBuffer : Buffer) (isRetry : bool)
  : M SberTranscriptionService JsString.t :=
  try (
    token <- getAuthToken ;;
    response <- axios_post SPEECH_URL (BinaryBody audioBuffer)
                  {| headers :=
                       [ (lit "Authorization", lit "Bearer " ++ Js.to_string token);
                         (lit "Content-Type", lit "audio/mpeg") ];
                     timeout := SPEECH_TIMEOUT |} ;;
    let result := Js.opt_member (data response) (lit "result") in
    let text :=
      match result with
      | JStr s => s
      | JArr ((_ :: _) as elems) => Js.array_join (lit " ") elems
      | _ => []
      end in
    if negb (Js.truthy (JStr text)) || (Z.of_nat (length (JsString.trim text)) =? 0) then
      ret []
    else
      ret text
  ) catch (fun error =>
    let rethrow :=
      let errorMessage := error_message error in
      throw (JsError (lit "Sber transcription failed: " ++ errorMessage)) in
    if is_axios_status error 401 then
      if negb isRetry then
        set_cachedToken JNull ;;
        set_tokenExpiry None ;;
        self audioBuffer true
      else rethrow
    else rethrow).

(** [private async transcribeWithRetry(audioBuffer, isRetry)].  The call
    made from a retry is never reached ([isRetry] is then [true]), so the
    recursion is closed after one unfolding; [transcribeWithRetry_unfold]
    below shows that the source's recursive equation holds. *)
Definition transcribeWithRetry (audioBuffer : Buffer) (isRetry : bool)
  : M SberTranscriptionService JsString.t :=
  transcribeWithRetry_body
    (fun audioBuffer' isRetry' =>
       transcribeWithRetry_body (fun _ _ => ret []) audioBuffer' isRetry')
    audioBuffer isRetry.

(** [async transcribe(audioBuffer: Buffer): Promise<string>]. *)
Definition transcribe (audioBuffer : Buffer) : M SberTranscriptionService JsString.t :=
  transcribeWithRetry audioBuffer false.

Local Close Scope js_scope.

(* ================================================================== *)
(** ** services/audio-converter.ts *)
(* ================================================================== *)

(** A promise is pending until its first [resolve] or [reject]; later
    calls of either change nothing. *)
Inductive PromiseState (A : Type) : Type :=
| Pending
| Fulfilled (v : A)
| Rejected (e : Thrown).
Arguments Pending {A}.
Arguments Fulfilled {A} v.
Arguments Rejected {A} e.

(** The class has no fields. *)
Inductive AudioConverter : Type := new_AudioConverter.

Module Converter.

(** The closure of the promise executor: the [chunks] array and the
    promise being settled. *)
Record Executor : Type := {
  chunks : list Buffer;
  promise : PromiseState Buffer
}.

Definition start : Executor := {| chunks := []; promise := Pending |}.

Definition resolve (v : Buffer) (st : Executor) : Executor :=
  match promise st with
  | Pending => {| chunks := chunks st; promise := Fulfilled v |}
  | _ => st
  end.

Definition reject (e : Thrown) (st : Executor) : Executor :=
  match promise st with
  | Pending => {| chunks := chunks st; promise := Rejected e |}
  | _ => st
  end.

(** The four handlers registered by [convertOggToMp3]. *)
Definition handle (st : Executor) (ev : FfmpegEvent) : Executor :=
  match ev with
  | CommandError err =>
      reject (JsError (lit "Audio conversion failed: " ++ err)) st
  | CommandEnd =>
      resolve (concat (chunks st)) st
  | StreamData chunk =>
      {| chunks := chunks st ++ [chunk]; promise := promise st |}
  | StreamError err =>
      reject (JsError (lit "Stream error: " ++ err)) st
  end.

(** The promise after the transcoder has emitted [run]. *)
Definition settle (run : list FfmpegEvent) : PromiseState Buffer :=
  promise (fold_left handle run start).

End Converter.

(** [async convertOggToMp3(oggBuffer: Buffer): Promise<Buffer>]. *)
Definition convertOggToMp3 (this : AudioConverter) (oggBuffer : Buffer)
  : Runtime -> list Event -> PromiseState Buffer * list Event :=
  fun rt h =>
    let run := rt_ffmpeg rt h oggBuffer in
    (Converter.settle run, [EvFfmpeg oggBuffer run]).

(* ================================================================== *)
(** ** utils.ts *)
(* ================================================================== *)

(** The two values imported from [./config], a module that is not part of
    the sources at hand; they are taken as parameters.  The secret is a
    string or [undefined]; the flag is tested for truthiness only. *)
Record Config : Type := {
  SBER_CLIENT_SECRET : option JsString.t;
  TRANSCRIPTION_AVAILABLE : JsVal
}.

(** The module-level variables. *)
Record Utils : Type := {
  sberTranscription : option SberTranscriptionService;
  audioConverter : option AudioConverter
}.

(** Module initialisation: the two [let] declarations and the [if]. *)
Definition load_utils (cfg : Config) : Utils :=
  match SBER_CLIENT_SECRET cfg with
  | Some secret =>
      if Js.truthy (JStr secret) && Js.truthy (TRANSCRIPTION_AVAILABLE cfg) then
        {| sberTranscription := Some (new_SberTranscriptionService secret);
           audioConverter := Some new_AudioConverter |}
      else
        {| sberTranscription := None; audioConverter := None |}
  | None => {| sberTranscription := None; audioConverter := None |}
  end.

(** [export async function transcribeVoice(filePath): Promise<string | null>];
    [None] is [null]. *)
Definition transcribeVoice (filePath : JsString.t)
  : Runtime -> list Event -> Utils
    -> PromiseState (option JsString.t) * Utils * list Event :=
  fun rt h u =>
    match sberTranscription u, audioConverter u with
    | Some service, Some converter =>
        (* try *)
        let file := rt_read_file rt h filePath in
        let t1 := [EvReadFile filePath file] in
        match file with
        | FileBytes oggBuffer =>
            match convertOggToMp3 converter oggBuffer rt (h ++ t1) with
            | (Fulfilled mp3Buffer, t2) =>
                match transcribe mp3Buffer rt (h ++ t1 ++ t2) service with
                | (Normal transcript, service', t3) =>
                    (Fulfilled (Some transcript),
                     {| sberTranscription := Some service';
                        audioConverter := Some converter |},
                     t1 ++ t2 ++ t3)
                | (Abrupt _, service', t3) =>
                    (* catch *)
                    (Fulfilled None,
                     {| sberTranscription := Some service';
                        audioConverter := Some converter |},
                     t1 ++ t2 ++ t3)
                end
            | (Rejected _, t2) => (* catch *) (Fulfilled None, u, t1 ++ t2)
            | (Pending, t2) => (Pending, u, t1 ++ t2)
            end
        | FileFailure _ => (* catch *) (Fulfilled None, u, t1)
        end
    | _, _ => (Fulfilled None, u, [])
    end.

(** A sequence of calls, one after the other, on the same module state. *)
Fixpoint transcribeVoice_all (paths : list JsString.t)
  : Runtime -> list Event -> Utils
    -> list (PromiseState (option JsString.t)) * Utils * list Event :=
  fun rt h u =>
    match paths with
    | [] => ([], u, [])
    | p :: rest =>
        match transcribeVoice p rt h u with
        | (r, u1, t1) =>
            match transcribeVoice_all rest rt (h ++ t1) u1 with
            | (rs, u2, t2) => (r :: rs, u2, t1 ++ t2)
            end
        end
    end.

(* ================================================================== *)
(** ** Observations on traces *)
(* ================================================================== *)

(** The outcomes of the POSTs sent to [url], oldest first. *)
Fixpoint posts_to (url : JsString.t) (trace : list Event) : list HttpOutcome :=
  match trace with
  | [] => []
  | EvPost u _ _ out :: rest =>
      if JsString.eqb u url then out :: posts_to url rest else posts_to url rest
  | _ :: rest => posts_to url rest
  end.

(** OAuth requests and recognition attempts of a trace. *)
Definition oauth_requests (trace : list Event) : list HttpOutcome :=
  posts_to TOKEN_URL trace.

Definition recognition_attempts (trace : list Event) : list HttpOutcome :=
  posts_to SPEECH_URL trace.

Fixpoint transcoder_runs (trace : list Event) : list (list FfmpegEvent) :=
  match trace with
  | [] => []
  | EvFfmpeg _ run :: rest => run :: transcoder_runs rest
  | _ :: rest => transcoder_runs rest
  end.

Fixpoint file_reads (trace : list Event) : list FileOutcome :=
  match trace with
  | [] => []
  | EvReadFile _ out :: rest => out :: file_reads rest
  | _ :: rest => file_reads rest
  end.

(* ================================================================== *)
(** ** Derived notions used in the statements *)
(* ================================================================== *)

(** The three error kinds of the specification, as the messages the code
    builds for them. *)
Definition AuthError (cause : JsString.t) : Thrown :=
  JsError (lit "Sber authentication failed: " ++ cause).

Definition TranscriptionError (cause : JsString.t) : Thrown :=
  JsError (lit "Sber transcription failed: " ++ cause).

(** The request [getAuthToken] sends. *)
Definition oauth_body : Body := FormBody [ (lit "scope", API_VERSION) ].

Definition oauth_config (this : SberTranscriptionService) (rqUID : JsString.t)
  : AxiosConfig :=
  {| headers :=
       [ (lit "Authorization", lit "Basic " ++ clientSecret this);
         (lit "RqUID", rqUID);
         (lit "Content-Type", lit "application/x-www-form-urlencoded") ];
     timeout := AUTH_TIMEOUT |}.

(** The request [transcribeWithRetry] sends. *)
Definition speech_config (token : JsVal) : AxiosConfig :=
  {| headers :=
       [ (lit "Authorization", lit "Bearer " ++ Js.to_string token);
         (lit "Content-Type", lit "audio/mpeg") ];
     timeout := SPEECH_TIMEOUT |}.

(** ToNumber as the runtime [rt] computes it. *)
Definition number_of (rt : Runtime) (v : JsVal) : JsNum :=
  match v with
  | JUndefined => NaN
  | JNull => Num 0
  | JBool b => Num (if b then 1 else 0)
  | JNum n => n
  | JStr str => rt_string_to_number rt str
  | JArr _ | JObj _ => rt_string_to_number rt (Js.to_string v)
  end.

(** [Date.now() + ((data.expires_at || 1800) * 1000)] at clock reading [now]. *)
Definition expiry_after (rt : Runtime) (now : N) (d : JsVal) : JsNum :=
  Js.num_add (Num (Z.of_N now))
    (Js.num_mul
       (number_of rt (Js.or_else (Js.opt_member d (lit "expires_at")) (JNum (Num 1800))))
       (Num 1000)).

(** Lines 40-77 of [getAuthToken]: the path that asks for a new token. *)
Definition requestToken (this : SberTranscriptionService)
  : M SberTranscriptionService JsVal :=
  (rqUID <- randomUUID ;;
   (try (
     response <- axios_post TOKEN_URL oauth_body (oauth_config this rqUID) ;;
     access_token <- member (data response) (lit "access_token") ;;
     set_cachedToken access_token ;;
     expires_at <- member (data response) (lit "expires_at") ;;
     let expiresIn := Js.or_else expires_at (JNum (Num 1800)) in
     now <- date_now ;;
     seconds <- to_number expiresIn ;;
     set_tokenExpiry
       (Some (Js.num_add (Num (Z.of_N now)) (Js.num_mul seconds (Num 1000)))) ;;
     this' <- get ;;
     if negb (Js.truthy (cachedToken this')) then
       throw (JsError (lit "Failed to obtain access token"))
     else
       ret (cachedToken this')
   ) catch (fun error =>
     let errorMessage := error_message error in
     throw (JsError (lit "Sber authentication failed: " ++ errorMessage)))))%js.

(** The three components of a run. *)
Definition completion {R S} (res : R * S * list Event) : R := fst (fst res).
Definition final_state {R S} (res : R * S * list Event) : S := snd (fst res).
Definition trace {R S} (res : R * S * list Event) : list Event := snd res.

(** The test on line 34, at clock reading [now]: a cached token exists and
    [now] is strictly before its expiry minus five minutes. *)
Definition still_valid (now : N) (this : SberTranscriptionService) : Prop :=
  Js.truthy (cachedToken this) = true /\
  exists expiresAt, tokenExpiry this = Some (Num expiresAt) /\
                    Z.of_N now < expiresAt - 300000.

(** A computation's result with the events [pre] put before its trace. *)
Definition after {S A} (pre : list Event) (res : Completion A * S * list Event)
  : Completion A * S * list Event :=
  match res with
  | (r, s, t) => (r, s, pre ++ t)
  end.

(** Lines 105-125 of [transcribeWithRetry]: the text a 2xx response with
    body [d] yields. *)
Definition response_text (d : JsVal) : JsString.t :=
  let result := Js.opt_member d (lit "result") in
  let text :=
    match result with
    | JStr s => s
    | JArr ((_ :: _) as elems) => Js.array_join (lit " ") elems
    | _ => []
    end in
  if negb (Js.truthy (JStr text)) || (Z.of_nat (length (JsString.trim text)) =? 0)
  then [] else text.

(** The [try] block of [transcribeWithRetry]. *)
Definition recognise (audioBuffer : Buffer) : M SberTranscriptionService JsString.t :=
  (token <- getAuthToken ;;
   response <- axios_post SPEECH_URL (BinaryBody audioBuffer) (speech_config token) ;;
   let result := Js.opt_member (data response) (lit "result") in
   let text :=
     match result with
     | JStr s => s
     | JArr ((_ :: _) as elems) => Js.array_join (lit " ") elems
     | _ => []
     end in
   if negb (Js.truthy (JStr text)) || (Z.of_nat (length (JsString.trim text)) =? 0) then
     ret []
   else
     ret text)%js.

(** The object after lines 132-133. *)
Definition invalidated (this : SberTranscriptionService) : SberTranscriptionService :=
  {| clientSecret := clientSecret this; cachedToken := JNull; tokenExpiry := None |}.

(** What [axios.post] rejects with for an outcome that is not a 2xx
    response. *)
Definition axios_rejection (out : HttpOutcome) : Thrown :=
  match out with
  | HttpResponse st _ =>
      AxiosError (lit "Request failed with status code " ++ JsString.of_Z st) (Some st)
  | HttpFailure msg => AxiosError msg None
  end.

Definition succeeded (out : HttpOutcome) : bool :=
  match out with
  | HttpResponse st _ => is_2xx st
  | HttpFailure _ => false
  end.

(** How [getAuthToken] answers the outcome [out] of the OAuth request it
    sent: result [r], object [this'] and trace [t] of the call started at
    history [h] on object [this]. *)
Definition token_request_answer (rt : Runtime) (h : list Event)
    (this : SberTranscriptionService) (out : HttpOutcome)
    (r : Completion JsVal) (this' : SberTranscriptionService) (t : list Event) : Prop :=
  match out with
  | HttpFailure msg => r = Abrupt (AuthError msg) /\ this' = this
  | HttpResponse st d =>
      if is_2xx st then
        if Js.is_nullish d then
          r = Abrupt (AuthError (rt_type_error rt d (lit "access_token")))
          /\ this' = this
        else
          exists pre,
            let now := rt_date_now rt (h ++ pre) in
            t = pre ++ [EvDateNow now] /\
            this' = {| clientSecret := clientSecret this;
                       cachedToken := Js.opt_member d (lit "access_token");
                       tokenExpiry := Some (expiry_after rt now d) |} /\
            r = if Js.truthy (Js.opt_member d (lit "access_token"))
                then Normal (Js.opt_member d (lit "access_token"))
                else Abrupt (AuthError (lit "Failed to obtain access token"))
      else
        r = Abrupt (AuthError (lit "Request failed with status code "
                                 ++ JsString.of_Z st))
        /\ this' = this
  end.

(** The cache holds no token. *)
Definition cache_empty (this : SberTranscriptionService) : Prop :=
  cachedToken this = JNull \/ tokenExpiry this = None.

(** The cached token is at or past its expiry minus five minutes. *)
Definition past_margin (now : N) (this : SberTranscriptionService) : Prop :=
  exists expiresAt, tokenExpiry this = Some (Num expiresAt) /\
                    expiresAt - 300000 <= Z.of_N now.

(** The completion of the [try] block for the outcome [out] of its
    recognition request. *)
Definition recognition_answer (out : HttpOutcome) : Completion JsString.t :=
  match out with
  | HttpResponse st d =>
      if is_2xx st then Normal (response_text d) else Abrupt (axios_rejection out)
  | HttpFailure _ => Abrupt (axios_rejection out)
  end.

(** The completion of [transcribeWithRetry] when the outcome [out] of a
    recognition request ends the call. *)
Definition final_answer (out : HttpOutcome) : Completion JsString.t :=
  match recognition_answer out with
  | Normal text => Normal text
  | Abrupt error => Abrupt (TranscriptionError (error_message error))
  end.

(** Empty, or made of white space and line terminators only. *)
Definition whitespace_only (s : JsString.t) : bool := forallb JsString.is_whitespace s.

Definition is_401 (out : HttpOutcome) : bool :=
  match out with
  | HttpResponse st _ => st =? 401
  | HttpFailure _ => false
  end.

(** Observations on a transcoder run. *)
Definition is_data (ev : FfmpegEvent) : bool :=
  match ev with
  | StreamData _ => true
  | _ => false
  end.

Definition is_error (ev : FfmpegEvent) : bool :=
  match ev with
  | CommandError _ | StreamError _ => true
  | _ => false
  end.

(** The chunks of the data events, in arrival order. *)
Fixpoint data_chunks (run : list FfmpegEvent) : list Buffer :=
  match run with
  | [] => []
  | StreamData chunk :: rest => chunk :: data_chunks rest
  | _ :: rest => data_chunks rest
  end.

(** The [ConversionError] of the specification: what the two error
    handlers reject with. *)
Definition ConversionError (ev : FfmpegEvent) : option Thrown :=
  match ev with
  | CommandError msg => Some (JsError (lit "Audio conversion failed: " ++ msg))
  | StreamError msg => Some (JsError (lit "Stream error: " ++ msg))
  | _ => None
  end.

(** The run makes the conversion promise settle. *)
Definition settles (run : list FfmpegEvent) : Prop :=
  Converter.settle run <> Pending.

(** The required configuration is absent: no secret (undefined or empty)
    or a falsy availability flag. *)
Definition config_absent (cfg : Config) : Prop :=
  SBER_CLIENT_SECRET cfg = None \/
  SBER_CLIENT_SECRET cfg = Some [] \/
  Js.truthy (TRANSCRIPTION_AVAILABLE cfg) = false.

(* ================================================================== *)
(** ** Concrete runtimes and inputs for the examples *)
(* ================================================================== *)

Module Demo.

(** A scripted runtime: the [n]-th OAuth request is answered by the
    [n]-th element of [oauth], the [n]-th recognition request by the
    [n]-th element of [speech]; the clock advances by one millisecond
    per event. *)
Definition scripted (oauth speech : list HttpOutcome)
    (file : FileOutcome) (run : list FfmpegEvent) : Runtime :=
  {| rt_date_now := fun h => (1700000000000 + N.of_nat (length h))%N;
     rt_random_uuid := fun _ => lit "0b0e7a6c-3f58-4c0e-9d57-6a1f6f0c2a11";
     rt_post := fun h url _ _ =>
       if JsString.eqb url TOKEN_URL
       then nth (length (oauth_requests h)) oauth (HttpFailure (lit "Network Error"))
       else nth (length (recognition_attempts h)) speech (HttpFailure (lit "Network Error"));
     rt_read_file := fun _ _ => file;
     rt_ffmpeg := fun _ _ => run;
     rt_string_to_number := fun _ => NaN;
     rt_type_error := fun _ key =>
       lit "null is not an object (evaluating 'response.data." ++ key ++ lit "')" |}.

Definition token_response (token : String.string) : HttpOutcome :=
  HttpResponse 200
    (JObj [ (lit "access_token", JStr (lit token));
            (lit "expires_at", JNum (Num 1800)) ]).

Definition result_response (result : JsVal) : HttpOutcome :=
  HttpResponse 200 (JObj [ (lit "result", result); (lit "confidence", JNum (Num 1)) ]).

Definition unauthorized : HttpOutcome :=
  HttpResponse 401 (JObj [ (lit "message", JStr (lit "Unauthorized")) ]).

Definition hello_world : JsVal := JArr [ JStr (lit "hello"); JStr (lit "world") ].

Definition no_file : FileOutcome := FileFailure (lit "ENOENT: no such file or directory").

Definition fresh_service : SberTranscriptionService :=
  new_SberTranscriptionService (lit "c2VjcmV0").

(** A service whose cache holds a token that expires half an hour after
    the scripted clock starts. *)
Definition warm_service : SberTranscriptionService :=
  {| clientSecret := lit "c2VjcmV0";
     cachedToken := JStr (lit "token-0");
     tokenExpiry := Some (Num (1700000000000 + 1800000)) |}.

(** A service whose token expires four minutes after the clock starts:
    inside the safety margin. *)
Definition stale_service : SberTranscriptionService :=
  {| clientSecret := lit "c2VjcmV0";
     cachedToken := JStr (lit "token-0");
     tokenExpiry := Some (Num (1700000000000 + 240000)) |}.

Definition audio : Buffer := [Byte.x49; Byte.x44; Byte.x33].

Definition ogg : Buffer := [Byte.x4f; Byte.x67; Byte.x67; Byte.x53].

(** A transcoder run that delivers two chunks and completes. *)
Definition good_conversion : list FfmpegEvent :=
  [ StreamData [Byte.x49; Byte.x44]; StreamData [Byte.x33]; CommandEnd ].

(** A transcoder run that fails after one chunk; the library then also
    reports the failure on the stream. *)
Definition broken_conversion : list FfmpegEvent :=
  [ StreamData [Byte.x49; Byte.x44];
    CommandError (lit "ffmpeg exited with code 1");
    StreamError (lit "premature close") ].

(** A stale token and an OAuth endpoint that issues ["token-1"]. *)
Definition refresh_runtime : Runtime :=
  scripted [token_response "token-1"] [] no_file [].
Definition refresh_run := getAuthToken refresh_runtime [] stale_service.

(** A warm cache whose token the recognition endpoint rejects once. *)
Definition retry_runtime : Runtime :=
  scripted [token_response "token-1"] [unauthorized; result_response hello_world]
    no_file [].
Definition retry_run := transcribe audio retry_runtime [] warm_service.

(** The recognition endpoint rejects the refreshed token too. *)
Definition rejected_runtime : Runtime :=
  scripted [token_response "token-1"] [unauthorized; unauthorized; unauthorized]
    no_file [].
Definition rejected_run := transcribe audio rejected_runtime [] warm_service.

(** A cold cache and a recognition endpoint that answers [result]. *)
Definition answering (result : JsVal) : Runtime :=
  scripted [token_response "token-1"] [result_response result] no_file [].
Definition answered_run (result : JsVal) :=
  transcribe audio (answering result) [] fresh_service.

(** A recognition response without a [result] field. *)
Definition silent_runtime : Runtime :=
  scripted [token_response "token-1"]
    [HttpResponse 200 (JObj [ (lit "confidence", JNum (Num 0)) ])] no_file [].
Definition silent_run := transcribe audio silent_runtime [] fresh_service.

(** A recognition endpoint that answers 500. *)
Definition failing_runtime : Runtime :=
  scripted [token_response "token-1"]
    [HttpResponse 500 JNull; result_response hello_world] no_file [].
Definition failing_run := transcribe audio failing_runtime [] fresh_service.

(** The converter fed with [broken_conversion] and [good_conversion]. *)
Definition broken_runtime : Runtime := scripted [] [] no_file broken_conversion.
Definition good_runtime : Runtime := scripted [] [] no_file good_conversion.

(** Configurations and module states. *)
Definition no_secret : Config :=
  {| SBER_CLIENT_SECRET := None; TRANSCRIPTION_AVAILABLE := JBool true |}.
Definition configured : Config :=
  {| SBER_CLIENT_SECRET := Some (lit "c2VjcmV0"); TRANSCRIPTION_AVAILABLE := JBool true |}.

Definition voice_path : JsString.t := lit "/tmp/voice_42.ogg".

(** The whole pipeline working: file, conversion, token, recognition. *)
Definition pipeline_runtime : Runtime :=
  scripted [token_response "token-1"] [result_response hello_world]
    (FileBytes ogg) good_conversion.
Definition pipeline_run := transcribeVoice voice_path pipeline_runtime [] (load_utils configured).

(** The voice file cannot be read. *)
Definition missing_file_runtime : Runtime :=
  scripted [token_response "token-1"] [result_response hello_world]
    no_file good_conversion.
Definition missing_file_run :=
  transcribeVoice voice_path missing_file_runtime [] (load_utils configured).

(** The transcoder fails. *)
Definition broken_pipeline_runtime : Runtime :=
  scripted [token_response "token-1"] [result_response hello_world]
    (FileBytes ogg) broken_conversion.
Definition broken_pipeline_run :=
  transcribeVoice voice_path broken_pipeline_runtime [] (load_utils configured).

(** The OAuth endpoint is down. *)
Definition no_auth_runtime : Runtime :=
  scripted [HttpFailure (lit "Network Error")] [] (FileBytes ogg) good_conversion.
Definition no_auth_run :=
  transcribeVoice voice_path no_auth_runtime [] (load_utils configured).

(** An OAuth endpoint that answers with a lifetime of zero seconds. *)
Definition zero_lifetime_response : HttpOutcome :=
  HttpResponse 200
    (JObj [ (lit "access_token", JStr (lit "token-1"));
            (lit "expires_at", JNum (Num 0)) ]).
Definition zero_lifetime_runtime : Runtime :=
  scripted [zero_lifetime_response] [] no_file [].
Definition zero_lifetime_run := getAuthToken zero_lifetime_runtime [] fresh_service.

(** An OAuth endpoint that times out. *)
Definition timeout_runtime : Runtime :=
  scripted [HttpFailure (lit "timeout of 30000ms exceeded")] [] no_file [].
Definition timeout_run := getAuthToken timeout_runtime [] fresh_service.

End Demo.


(* ================================================================== *)
(** * The rest of the two files

    Beyond the functions above, [utils.ts] holds the audit log
    ([writeAuditLog] and the five functions built on it), the typing
    indicator ([startTypingIndicator]) and the message interrupt
    ([checkInterrupt]).  Each talks to a collaborator of its own (the file
    system, the chat context, the session module) and gets a small effect
    alphabet of its own, in the modules [Audit], [Typing] and [Interrupt]
    below.  The asynchronous loop of the typing indicator is embedded as
    the state machine of its suspension points, driven by the inputs that
    can arrive between them. *)
(* ================================================================== *)

(* ================================================================== *)
(** ** Further observations on the transcription client *)
(* ================================================================== *)

(** What a call of the service, made on object [this] for [audio], may
    emit: clock readings, UUIDs, OAuth requests built from [this]'s secret
    and recognition requests that carry [audio] and a usable token. *)
Definition service_event (this : SberTranscriptionService) (audio : Buffer)
    (ev : Event) : Prop :=
  match ev with
  | EvDateNow _ | EvRandomUUID _ => True
  | EvPost url body config _ =>
      (url = TOKEN_URL /\ body = oauth_body /\
       exists rqUID, config = oauth_config this rqUID)
      \/
      (url = SPEECH_URL /\ body = BinaryBody audio /\
       exists token, Js.truthy token = true /\ config = speech_config token)
  | EvReadFile _ _ | EvFfmpeg _ _ => False
  end.

(** The clock readings of a trace, oldest first. *)
Fixpoint clock_readings (trace : list Event) : list N :=
  match trace with
  | [] => []
  | EvDateNow n :: rest => n :: clock_readings rest
  | _ :: rest => clock_readings rest
  end.

(** The lifetime, in seconds, that line 63 takes from a response body whose
    [expires_at] is a number or is missing. *)
Definition lifetime_of (d : JsVal) : option Z :=
  match Js.opt_member d (lit "expires_at") with
  | JNum (Num l) => Some (if l =? 0 then 1800 else l)
  | JUndefined | JNull => Some 1800
  | _ => None
  end.

(** A value that is not an object.  The embedding's [Js.to_string] and
    [to_number] always return; the engine's conversions raise a TypeError
    on an object that holds an own property [toString] (which hides
    [Object.prototype.toString]) and on an array that holds such an
    object.  On primitive values they are exact, and statements that would
    depend on the difference are made for primitive values. *)
Definition primitive (v : JsVal) : bool :=
  match v with
  | JArr _ | JObj _ => false
  | _ => true
  end.

(** An answer of the OAuth endpoint whose two fields are primitive values,
    as the endpoint documents them (a string and a number), or are
    missing; no answer at all counts as well. *)
Definition plain_answer (out : HttpOutcome) : bool :=
  match out with
  | HttpResponse _ d =>
      primitive (Js.opt_member d (lit "access_token"))
      && primitive (Js.opt_member d (lit "expires_at"))
  | HttpFailure _ => true
  end.

(** An integer the engine represents exactly, and prints in digits. *)
Definition safe_integer (z : Z) : bool := Z.abs z <=? 9007199254740991.

(** A value whose conversion to a string the embedding gives exactly. *)
Definition exact (v : JsVal) : bool :=
  match v with
  | JArr _ | JObj _ => false
  | JNum (Num z) => safe_integer z
  | _ => true
  end.

(** A recognition answer within the bounds of the embedding: the elements
    that [join] of line 114 converts are exact, and [confidence], which
    line 117 puts into a log line, is a primitive value. *)
Definition plain_result (d : JsVal) : bool :=
  primitive (Js.opt_member d (lit "confidence"))
  && match Js.opt_member d (lit "result") with
     | JArr elems => forallb exact elems
     | _ => true
     end.

(** [now + lifetime * 1000] as line 64 computes it is the sum of the
    integers when the clock reading, the product and the sum are integers
    the engine represents exactly. *)
Definition exact_expiry (now : N) (lifetime : Z) : Prop :=
  safe_integer (Z.of_N now) = true /\
  safe_integer (lifetime * 1000) = true /\
  safe_integer (Z.of_N now + lifetime * 1000) = true.

Module More.

(** A transcoder run whose output stream reports an error after the
    command has signalled completion. *)
Definition late_error_conversion : list FfmpegEvent :=
  [ StreamData [Byte.x49; Byte.x44]; CommandEnd; StreamError (lit "write after end") ].
Definition late_error_runtime : Runtime :=
  Demo.scripted [] [] Demo.no_file late_error_conversion.

(** A transcoder that delivers a chunk and then neither completes nor
    fails. *)
Definition hanging_conversion : list FfmpegEvent := [ StreamData [Byte.x49; Byte.x44] ].
Definition hanging_runtime : Runtime :=
  Demo.scripted [Demo.token_response "token-1"] [Demo.result_response Demo.hello_world]
    (FileBytes Demo.ogg) hanging_conversion.
Definition hanging_run :=
  transcribeVoice Demo.voice_path hanging_runtime [] (load_utils Demo.configured).

(** A stale cache, a first token the recognition endpoint rejects, and a
    second one it accepts. *)
Definition double_refresh_runtime : Runtime :=
  Demo.scripted [Demo.token_response "token-1"; Demo.token_response "token-2"]
    [Demo.unauthorized; Demo.result_response Demo.hello_world] Demo.no_file [].
Definition double_refresh_run :=
  transcribe Demo.audio double_refresh_runtime [] Demo.stale_service.

(** A warm cache and a recognition endpoint that answers twice. *)
Definition warm_runtime : Runtime :=
  Demo.scripted []
    [Demo.result_response Demo.hello_world; Demo.result_response (JStr (lit "again"))]
    Demo.no_file [].
Definition warm_first := transcribe Demo.audio warm_runtime [] Demo.warm_service.
Definition warm_second :=
  transcribe Demo.audio warm_runtime (trace warm_first) (final_state warm_first).

(** The OAuth endpoint itself answers 401. *)
Definition oauth_401_runtime : Runtime :=
  Demo.scripted [Demo.unauthorized; Demo.token_response "token-2"]
    [Demo.result_response Demo.hello_world] Demo.no_file [].
Definition oauth_401_run :=
  transcribe Demo.audio oauth_401_runtime [] Demo.fresh_service.

(** The recognition endpoint rejects the cached token and the refresh
    fails. *)
Definition failed_refresh_runtime : Runtime :=
  Demo.scripted [HttpFailure (lit "Network Error")]
    [Demo.unauthorized; Demo.result_response Demo.hello_world] Demo.no_file [].
Definition failed_refresh_run :=
  transcribe Demo.audio failed_refresh_runtime [] Demo.warm_service.

(** Two voice messages in a row through the working pipeline. *)
Definition two_voices_runtime : Runtime :=
  Demo.scripted [Demo.token_response "token-1"]
    [Demo.result_response Demo.hello_world; Demo.result_response (JStr (lit "again"))]
    (FileBytes Demo.ogg) Demo.good_conversion.
Definition two_voices_run :=
  transcribeVoice_all [Demo.voice_path; Demo.voice_path] two_voices_runtime []
    (load_utils Demo.configured).

End More.

(* ================================================================== *)
(** ** utils.ts: audit logging *)
(* ================================================================== *)

Module Audit.

(** What the audit functions do outside themselves: read the clock as an
    ISO string and append to a file; [failure] is the message the import
    of [fs/promises] or the append itself was rejected with, if it was. *)
Inductive Effect : Type :=
| Timestamp (iso : JsString.t)
| AppendFile (path content : JsString.t) (failure : option JsString.t).

(** The two values imported from [./config] (a module that is not part of
    the sources at hand), [new Date().toISOString()], [JSON.stringify] and
    [fs.appendFile], the last three as the engine and the file system
    answer them, and the message of the TypeError the engine raises for a
    value that has no primitive value. *)
Record Host : Type := {
  AUDIT_LOG_PATH : JsString.t;
  AUDIT_LOG_JSON : JsVal;
  toISOString : list Effect -> JsString.t;
  JSON_stringify : JsVal -> Completion JsString.t;
  appendFile : list Effect -> JsString.t -> JsString.t -> option JsString.t;
  cannot_convert : JsVal -> JsString.t
}.

(** The one-character string of a line feed. *)
Definition newline : JsString.t := [10%N].

Definition and_then {A B} (c : Completion A) (k : A -> Completion B) : Completion B :=
  match c with
  | Normal v => k v
  | Abrupt e => Abrupt e
  end.

Definition has_key (key : JsString.t) (props : list (JsString.t * JsVal)) : bool :=
  existsb (fun p => JsString.eqb (fst p) key) props.

(** Whether ToString of a value completes.  The values at hand hold no
    functions: an object with an own property [toString] has no callable
    [toString], its inherited [valueOf] returns the object itself, and the
    conversion raises a TypeError; every other object converts through
    [Object.prototype.toString].  An array converts through [join], which
    converts its elements. *)
Fixpoint stringifiable (v : JsVal) : bool :=
  match v with
  | JArr elems => forallb stringifiable elems
  | JObj props => negb (has_key (lit "toString") props)
  | _ => true
  end.

(** ToString, as [String(value)] and a template literal perform it. *)
Definition to_string (host : Host) (v : JsVal) : Completion JsString.t :=
  if stringifiable v then Normal (Js.to_string v)
  else Abrupt (JsError (cannot_convert host v)).

(** [Object.entries(event)].  The keys of an [AuditEvent] are names, not
    array indices, so they come in insertion order. *)
Definition entries (event : JsVal) : list (JsString.t * JsVal) :=
  match event with
  | JObj props => props
  | _ => []
  end.

(** Lines 40-46: [displayValue] for one entry. *)
Definition displayValue (host : Host) (key : JsString.t) (value : JsVal)
  : Completion JsVal :=
  if JsString.eqb key (lit "content") || JsString.eqb key (lit "response") then
    and_then (to_string host value) (fun text =>
      if 500 <? Z.of_nat (length text)
      then Normal (JStr (firstn 500 text ++ lit "..."))
      else Normal value)
  else Normal value.

(** Line 47: [`${key}: ${displayValue}`]. *)
Definition line (host : Host) (key : JsString.t) (value : JsVal)
  : Completion JsString.t :=
  and_then (displayValue host key value) (fun shown =>
  and_then (to_string host shown) (fun text =>
  Normal (key ++ lit ": " ++ text))).

(** Lines 39-48: the loop over the entries, [lines] being the array built
    so far. *)
Fixpoint push_lines (host : Host) (todo : list (JsString.t * JsVal))
    (lines : list JsString.t) : Completion (list JsString.t) :=
  match todo with
  | [] => Normal lines
  | (key, value) :: rest =>
      and_then (line host key value) (fun l => push_lines host rest (lines ++ [l]))
  end.

(** Lines 38-49: the plain-text rendering of an event. *)
Definition plain_text (host : Host) (event : JsVal) : Completion JsString.t :=
  and_then (push_lines host (entries event) [newline ++ repeat 61%N 60]) (fun lines =>
  Normal (JsString.join newline lines ++ newline)).

(** The [try] block of [writeAuditLog]. *)
Definition writeAuditLog_try (event : JsVal)
  : Host -> list Effect -> Completion unit * list Effect :=
  fun host h =>
    let content :=
      if Js.truthy (AUDIT_LOG_JSON host) then
        and_then (JSON_stringify host event) (fun json => Normal (json ++ newline))
      else plain_text host event in
    match content with
    | Normal content =>
        let failure := appendFile host h (AUDIT_LOG_PATH host) content in
        (match failure with
         | None => Normal tt
         | Some msg => Abrupt (JsError msg)
         end,
         [AppendFile (AUDIT_LOG_PATH host) content failure])
    | Abrupt e => (Abrupt e, [])
    end.

(** [async function writeAuditLog(event: AuditEvent): Promise<void>]; the
    [catch] only logs to the console. *)
Definition writeAuditLog (event : JsVal)
  : Host -> list Effect -> Completion unit * list Effect :=
  fun host h =>
    match writeAuditLog_try event host h with
    | (Normal tt, t) => (Normal tt, t)
    | (Abrupt _, t) => (Normal tt, t)
    end.

(** The part shared by the five exported functions: take the timestamp,
    build the event from it, write it. *)
Definition with_timestamp (build : JsString.t -> JsVal)
  : Host -> list Effect -> Completion unit * list Effect :=
  fun host h =>
    let iso := toISOString host h in
    match writeAuditLog (build iso) host (h ++ [Timestamp iso]) with
    | (r, t) => (r, Timestamp iso :: t)
    end.

(** A parameter with default [""], as lines 65, 101 and 122 declare them. *)
Definition or_empty (arg : option JsString.t) : JsString.t :=
  match arg with
  | Some s => s
  | None => []
  end.

(** [export async function auditLog(userId, username, messageType, content,
    response = "")]. *)
Definition auditLog (userId : Z) (username messageType content : JsString.t)
    (response : option JsString.t) :=
  with_timestamp (fun iso =>
    let response := or_empty response in
    let event :=
      [ (lit "timestamp", JStr iso);
        (lit "event", JStr (lit "message"));
        (lit "user_id", JNum (Num userId));
        (lit "username", JStr username);
        (lit "message_type", JStr messageType);
        (lit "content", JStr content) ] in
    JObj (if Js.truthy (JStr response)
          then event ++ [ (lit "response", JStr response) ]
          else event)).

(** [export async function auditLogAuth(userId, username, authorized)]. *)
Definition auditLogAuth (userId : Z) (username : JsString.t) (authorized : bool) :=
  with_timestamp (fun iso =>
    JObj [ (lit "timestamp", JStr iso);
           (lit "event", JStr (lit "auth"));
           (lit "user_id", JNum (Num userId));
           (lit "username", JStr username);
           (lit "authorized", JBool authorized) ]).

(** [export async function auditLogTool(userId, username, toolName,
    toolInput, blocked = false, reason = "")]. *)
Definition auditLogTool (userId : Z) (username toolName : JsString.t)
    (toolInput : list (JsString.t * JsVal))
    (blocked : option bool) (reason : option JsString.t) :=
  with_timestamp (fun iso =>
    let blocked := match blocked with Some b => b | None => false end in
    let reason := or_empty reason in
    let event :=
      [ (lit "timestamp", JStr iso);
        (lit "event", JStr (lit "tool_use"));
        (lit "user_id", JNum (Num userId));
        (lit "username", JStr username);
        (lit "tool_name", JStr toolName);
        (lit "tool_input", JObj toolInput);
        (lit "blocked", JBool blocked) ] in
    JObj (if blocked && Js.truthy (JStr reason)
          then event ++ [ (lit "reason", JStr reason) ]
          else event)).

(** [export async function auditLogError(userId, username, error,
    context = "")]. *)
Definition auditLogError (userId : Z) (username error : JsString.t)
    (context : option JsString.t) :=
  with_timestamp (fun iso =>
    let context := or_empty context in
    let event :=
      [ (lit "timestamp", JStr iso);
        (lit "event", JStr (lit "error"));
        (lit "user_id", JNum (Num userId));
        (lit "username", JStr username);
        (lit "error", JStr error) ] in
    JObj (if Js.truthy (JStr context)
          then event ++ [ (lit "context", JStr context) ]
          else event)).

(** [export async function auditLogRateLimit(userId, username, retryAfter)]. *)
Definition auditLogRateLimit (userId : Z) (username : JsString.t) (retryAfter : Z) :=
  with_timestamp (fun iso =>
    JObj [ (lit "timestamp", JStr iso);
           (lit "event", JStr (lit "rate_limit"));
           (lit "user_id", JNum (Num userId));
           (lit "username", JStr username);
           (lit "retry_after", JNum (Num retryAfter)) ]).

(** The text of at most 500 code units is kept, a longer one is cut. *)
Definition clip (text : JsString.t) : JsString.t :=
  if 500 <? Z.of_nat (length text) then firstn 500 text ++ lit "..." else text.

(** The line of an entry whose value converts to a string. *)
Definition rendered (key : JsString.t) (value : JsVal) : JsString.t :=
  key ++ lit ": "
  ++ (if JsString.eqb key (lit "content") || JsString.eqb key (lit "response")
      then clip (Js.to_string value)
      else Js.to_string value).

(** [Number.MAX_SAFE_INTEGER]: up to it the integers are numbers of the
    engine, and their decimal digits are what ToString gives. *)
Definition MAX_SAFE_INTEGER : Z := 9007199254740991.

(** The appends of a trace that went through, oldest first. *)
Fixpoint appended (t : list Effect) : list (JsString.t * JsString.t) :=
  match t with
  | [] => []
  | AppendFile path content None :: rest => (path, content) :: appended rest
  | _ :: rest => appended rest
  end.

(** A host for the examples: a file system that refuses every append whose
    content is longer than [quota], and a [JSON.stringify] that throws. *)
Definition demo_host (json : bool) (quota : nat) : Host :=
  {| AUDIT_LOG_PATH := lit "/tmp/claude-telegram-audit.log";
     AUDIT_LOG_JSON := JBool json;
     toISOString := fun _ => lit "2026-01-05T10:00:00.000Z";
     JSON_stringify := fun _ => Abrupt (JsError (lit "Converting circular structure to JSON"));
     appendFile := fun _ _ content =>
       if (length content <=? quota)%nat then None
       else Some (lit "ENOSPC: no space left on device");
     cannot_convert := fun _ => lit "Cannot convert object to primitive value" |}.

End Audit.

(* ================================================================== *)
(** ** utils.ts: message interrupt *)
(* ================================================================== *)

Module Interrupt.

(** What [checkInterrupt] does to the session module, which is not part of
    the sources at hand: load it, read [isRunning], call its three
    methods; and the pause in between.  [rejection] is what the awaited
    promise (of [import()], of [stop()]) rejected with, if it did. *)
Inductive Effect : Type :=
| ImportSession (rejection : option Thrown)
| IsRunning (running : bool)
| MarkInterrupt
| Stop (rejection : option Thrown)
| Sleep (ms : Z)
| ClearStopRequested.

(** How the module loader and the session answer, as a function of the
    effects so far.  [markInterrupt] and [clearStopRequested] return
    nothing, as lines 217-218 declare them. *)
Record Session : Type := {
  import_session : list Effect -> option Thrown;
  isRunning : list Effect -> bool;
  stop : list Effect -> option Thrown
}.

(** [text.startsWith("!")]. *)
Definition startsWithBang (text : JsString.t) : bool :=
  match text with
  | c :: _ => (c =? 33)%N
  | [] => false
  end.

(** Lines 232-243, with the module loaded; [t1] is what the call has done
    so far. *)
Definition interrupt (text : JsString.t) (session : Session)
    (h t1 : list Effect) : Completion JsString.t * bool * list Effect :=
  let strippedText := JsString.trimStart (skipn 1 text) in
  let running := isRunning session (h ++ t1) in
  let t2 := t1 ++ [IsRunning running] in
  if running then
    let t3 := t2 ++ [MarkInterrupt] in
    match stop session (h ++ t3) with
    | None =>
        (Normal strippedText, true,
         t3 ++ [Stop None; Sleep 100; ClearStopRequested])
    | Some e => (Abrupt e, true, t3 ++ [Stop (Some e)])
    end
  else (Normal strippedText, true, t2).

(** [export async function checkInterrupt(text: string): Promise<string>].
    The boolean is the module variable [sessionModule]: loaded or [null]. *)
Definition checkInterrupt (text : JsString.t)
  : Session -> list Effect -> bool -> Completion JsString.t * bool * list Effect :=
  fun session h sessionModule =>
    if negb (Js.truthy (JStr text)) || negb (startsWithBang text) then
      (Normal text, sessionModule, [])
    else if sessionModule then interrupt text session h []
    else
      (* Lazy import *)
      match import_session session h with
      | Some e => (Abrupt e, false, [ImportSession (Some e)])
      | None => interrupt text session h [ImportSession None]
      end.

(** A sequence of calls, one after the other, on the same module. *)
Fixpoint checkInterrupt_all (texts : list JsString.t)
  : Session -> list Effect -> bool
    -> list (Completion JsString.t) * bool * list Effect :=
  fun session h sessionModule =>
    match texts with
    | [] => ([], sessionModule, [])
    | text :: rest =>
        match checkInterrupt text session h sessionModule with
        | (r, m1, t1) =>
            match checkInterrupt_all rest session (h ++ t1) m1 with
            | (rs, m2, t2) => (r :: rs, m2, t1 ++ t2)
            end
        end
    end.

Definition count (p : Effect -> bool) (t : list Effect) : nat := length (filter p t).

Definition is_import (e : Effect) : bool :=
  match e with ImportSession _ => true | _ => false end.
Definition is_loaded (e : Effect) : bool :=
  match e with ImportSession None => true | _ => false end.
Definition is_mark (e : Effect) : bool :=
  match e with MarkInterrupt => true | _ => false end.
Definition is_stop (e : Effect) : bool :=
  match e with Stop _ => true | _ => false end.
Definition is_stop_resolved (e : Effect) : bool :=
  match e with Stop None => true | _ => false end.
Definition is_clear (e : Effect) : bool :=
  match e with ClearStopRequested => true | _ => false end.
Definition is_running_true (e : Effect) : bool :=
  match e with IsRunning true => true | _ => false end.

(** A session whose module fails to load while fewer than [fails] effects
    have happened, that is running for the first [n] effects and whose
    [stop] always resolves. *)
Definition busy_session (fails n : nat) : Session :=
  {| import_session := fun h =>
       if (length h <? fails)%nat then Some (JsError (lit "Cannot find module './session'"))
       else None;
     isRunning := fun h => (length h <? n)%nat;
     stop := fun _ => None |}.

Definition demo_run :=
  checkInterrupt_all [lit "hello"; lit "!first"; lit "! stop"; lit "!again"]
    (busy_session 1 5) [] false.

End Interrupt.

(* ================================================================== *)
(** ** utils.ts: typing indicator *)
(* ================================================================== *)

Module Typing.

(** What the loop of [startTypingIndicator] does outside itself. *)
Inductive Effect : Type :=
| ReplyWithChatAction (action : JsString.t)
| Sleep (ms : Z).

(** Where the loop is suspended: in [await ctx.replyWithChatAction(...)],
    in [await Bun.sleep(4000)], or not at all because it has left the
    [while]. *)
Inductive Suspended : Type :=
| AwaitReply
| AwaitSleep
| Finished.

(** The closure: the variable [running] and the suspended loop. *)
Record State : Type := {
  running : bool;
  loop : Suspended
}.

(** What can happen next: the pending [await] settles ([ok] tells whether
    a chat action was accepted; a sleep always is), or the controller's
    [stop()] is called. *)
Inductive Input : Type :=
| Settled (ok : bool)
| StopCalled.

(** [startTypingIndicator(ctx)], up to the point where it returns the
    controller: [running] is set, and [loop()] has run to its first
    [await]. *)
Definition startTypingIndicator : State * list Effect :=
  ({| running := true; loop := AwaitReply |}, [ReplyWithChatAction (lit "typing")]).

Definition step (st : State) (input : Input) : State * list Effect :=
  match input with
  | StopCalled =>
      (* stop: () => { running = false; } *)
      ({| running := false; loop := loop st |}, [])
  | Settled _ =>
      match loop st with
      | AwaitReply =>
          (* accepted, or rejected and caught: on to the sleep *)
          ({| running := running st; loop := AwaitSleep |}, [Sleep 4000])
      | AwaitSleep =>
          (* back to the test of the while *)
          if running st then
            ({| running := running st; loop := AwaitReply |},
             [ReplyWithChatAction (lit "typing")])
          else
            ({| running := running st; loop := Finished |}, [])
      | Finished => (st, [])
      end
  end.

Fixpoint steps (st : State) (inputs : list Input) : State * list Effect :=
  match inputs with
  | [] => (st, [])
  | input :: rest =>
      match step st input with
      | (st1, t1) =>
          match steps st1 rest with
          | (st2, t2) => (st2, t1 ++ t2)
          end
      end
  end.

(** The indicator from its start through a sequence of inputs. *)
Definition run (inputs : list Input) : State * list Effect :=
  match startTypingIndicator with
  | (st0, t0) =>
      match steps st0 inputs with
      | (st, t) => (st, t0 ++ t)
      end
  end.

Definition is_typing (e : Effect) : bool :=
  match e with ReplyWithChatAction _ => true | _ => false end.

Definition typing_actions (t : list Effect) : nat := length (filter is_typing t).

(** [n] rounds of one chat action followed by one four-second sleep. *)
Fixpoint rounds (n : nat) : list Effect :=
  match n with
  | O => []
  | S n' => ReplyWithChatAction (lit "typing") :: Sleep 4000 :: rounds n'
  end.

End Typing.

(* ================================================================== *)
(** ** Basic facts *)
(* ================================================================== *)

Local Open Scope js_scope.

Example to_string_nested :
  Js.to_string (JArr [JNum (Num 1); JNull; JArr [JStr (lit "a"); JBool true]])
  = lit "1,,a,true".
Proof. reflexivity. Qed.

Example trim_example :
  JsString.trim (lit "  hi there ") = lit "hi there".
Proof. reflexivity. Qed.

Example of_Z_example : JsString.of_Z 401 = lit "401".
Proof. reflexivity. Qed.

Lemma eqb_refl (a : JsString.t) : JsString.eqb a a = true.
Proof.
  induction a as [|x a IH]; simpl; [reflexivity|].
  now rewrite N.eqb_refl, IH.
Qed.

Lemma eqb_eq (a b : JsString.t) : JsString.eqb a b = true <-> a = b.
Proof.
  split.
  - revert b; induction a as [|x a IH]; intros [|y b]; simpl; try discriminate; auto.
    intros H. apply andb_true_iff in H as [Hx Hr].
    apply N.eqb_eq in Hx. f_equal; auto.
  - intros ->. apply eqb_refl.
Qed.

Lemma posts_to_app url t1 t2 :
  posts_to url (t1 ++ t2) = posts_to url t1 ++ posts_to url t2.
Proof.
  induction t1 as [|ev t1 IH]; simpl; [reflexivity|].
  destruct ev; auto.
  destruct (JsString.eqb url0 url); simpl; now rewrite IH.
Qed.

Lemma token_url_not_speech_url : JsString.eqb TOKEN_URL SPEECH_URL = false.
Proof. reflexivity. Qed.

Lemma speech_url_not_token_url : JsString.eqb SPEECH_URL TOKEN_URL = false.
Proof. reflexivity. Qed.

(** The else-branch of [getAuthToken]: one OAuth request and what follows. *)
Lemma requestToken_run rt h this :
  requestToken this rt h this =
  let u := rt_random_uuid rt h in
  let h1 := h ++ [EvRandomUUID u] in
  let out := rt_post rt h1 TOKEN_URL oauth_body (oauth_config this u) in
  let t := [EvRandomUUID u; EvPost TOKEN_URL oauth_body (oauth_config this u) out] in
  match out with
  | HttpFailure msg => (Abrupt (AuthError msg), this, t)
  | HttpResponse st d =>
      if is_2xx st then
        if Js.is_nullish d then
          (Abrupt (AuthError (rt_type_error rt d (lit "access_token"))), this, t)
        else
          let tok := Js.opt_member d (lit "access_token") in
          let now := rt_date_now rt (h ++ t) in
          let this' := {| clientSecret := clientSecret this;
                          cachedToken := tok;
                          tokenExpiry := Some (expiry_after rt now d) |} in
          (if Js.truthy tok then Normal tok
           else Abrupt (AuthError (lit "Failed to obtain access token")),
           this', t ++ [EvDateNow now])
      else
        (Abrupt (AuthError (lit "Request failed with status code " ++ JsString.of_Z st)),
         this, t)
  end.
Proof.
  unfold requestToken, try_catch, bind, randomUUID, axios_post; cbn zeta.
  destruct (rt_post rt (h ++ [EvRandomUUID (rt_random_uuid rt h)]) TOKEN_URL _ _)
    as [st d|msg] eqn:Hout; [|reflexivity].
  destruct (is_2xx st); [|reflexivity].
  unfold member; cbn [data].
  destruct (Js.is_nullish d) eqn:Hn; [reflexivity|].
  unfold set_cachedToken, set_tokenExpiry, modify, date_now, to_number, get, throw, ret.
  cbn [cachedToken clientSecret tokenExpiry negb app].
  rewrite <- !app_assoc; cbn [app].
  destruct (Js.truthy (Js.opt_member d (lit "access_token"))); reflexivity.
Qed.

Lemma getAuthToken_unfold :
  getAuthToken =
  (this <- get ;;
   valid <- match tokenExpiry this with
            | Some expiry =>
                if Js.truthy (cachedToken this) && Js.num_truthy expiry then
                  now <- date_now ;;
                  ret (Js.num_lt (Num (Z.of_N now)) (Js.num_sub expiry (Num 300000)))
                else ret false
            | None => ret false
            end ;;
   if valid : bool then _ <- date_now ;; ret (cachedToken this)
   else requestToken this).
Proof. reflexivity. Qed.

Lemma after_nil {S A} (res : Completion A * S * list Event) : after [] res = res.
Proof. destruct res as [[r s] t]. reflexivity. Qed.

(** [getAuthToken], flattened: the cache test, then either the cached
    token after a second clock reading, or the request path. *)
Lemma getAuthToken_run rt h this :
  getAuthToken rt h this =
  match tokenExpiry this with
  | Some (Num e) =>
      if Js.truthy (cachedToken this) && negb (e =? 0) then
        let now := rt_date_now rt h in
        if Z.of_N now <? e - 300000 then
          (Normal (cachedToken this), this,
           [EvDateNow now; EvDateNow (rt_date_now rt (h ++ [EvDateNow now]))])
        else
          after [EvDateNow now] (requestToken this rt (h ++ [EvDateNow now]) this)
      else requestToken this rt h this
  | _ => requestToken this rt h this
  end.
Proof.
  rewrite getAuthToken_unfold.
  unfold bind at 1. unfold get at 1. cbn iota beta.
  unfold bind at 1. rewrite !app_nil_r. cbn [app].
  destruct (tokenExpiry this) as [[|e]|].
  - rewrite andb_false_r. unfold ret at 1. cbn iota beta.
    rewrite !app_nil_r. cbn [app].
    destruct (requestToken this rt h this) as [[r s'] t]. reflexivity.
  - change (Js.num_truthy (Num e)) with (negb (e =? 0)).
    destruct (Js.truthy (cachedToken this) && negb (e =? 0)).
    + unfold bind at 1, date_now at 1, ret at 1. cbn iota beta zeta.
      rewrite !app_nil_r. cbn [app Js.num_sub Js.num_lt].
      destruct (Z.of_N (rt_date_now rt h) <? e - 300000).
      * reflexivity.
      * unfold after.
        destruct (requestToken this rt _ this) as [[r s'] t]. reflexivity.
    + unfold ret at 1. cbn iota beta. rewrite !app_nil_r. cbn [app].
      destruct (requestToken this rt h this) as [[r s'] t]. reflexivity.
  - unfold ret at 1. cbn iota beta. rewrite !app_nil_r. cbn [app].
    destruct (requestToken this rt h this) as [[r s'] t]. reflexivity.
Qed.

(** [getAuthToken] either answers from the cache, after two clock readings
    and nothing else, or runs the request path, after at most one clock
    reading. *)
Lemma getAuthToken_cases rt h this :
  (still_valid (rt_date_now rt h) this /\
   getAuthToken rt h this =
     (Normal (cachedToken this), this,
      [EvDateNow (rt_date_now rt h);
       EvDateNow (rt_date_now rt (h ++ [EvDateNow (rt_date_now rt h)]))]))
  \/
  (~ still_valid (rt_date_now rt h) this /\
   exists pre,
     (pre = [] \/ pre = [EvDateNow (rt_date_now rt h)]) /\
     getAuthToken rt h this = after pre (requestToken this rt (h ++ pre) this)).
Proof.
  rewrite getAuthToken_run. unfold still_valid.
  assert (Hnil : requestToken this rt h this
                 = after [] (requestToken this rt (h ++ []) this)).
  { now rewrite app_nil_r, after_nil. }
  destruct (tokenExpiry this) as [[|e]|] eqn:Hexp.
  - right. split.
    + intros [_ (e' & He' & _)]. discriminate He'.
    + exists []. split; [now left | exact Hnil].
  - destruct (Js.truthy (cachedToken this)) eqn:Htok; cbn [andb].
    + destruct (e =? 0) eqn:He0; cbn [negb].
      * right. apply Z.eqb_eq in He0. split.
        -- intros [_ (e' & He' & Hlt')]. injection He' as <-. lia.
        -- exists []. split; [now left | exact Hnil].
      * cbn zeta.
        destruct (Z.of_N (rt_date_now rt h) <? e - 300000) eqn:Hlt.
        -- left. apply Z.ltb_lt in Hlt. split; [|reflexivity].
           split; [reflexivity|]. exists e. auto.
        -- right. apply Z.ltb_ge in Hlt. split.
           ++ intros [_ (e' & He' & Hlt')]. injection He' as <-. lia.
           ++ exists [EvDateNow (rt_date_now rt h)]. split; [now right | reflexivity].
    + right. split.
      * intros [H _]. discriminate H.
      * exists []. split; [now left | exact Hnil].
  - right. split.
    + intros [_ (e' & He' & _)]. discriminate He'.
    + exists []. split; [now left | exact Hnil].
Qed.

Lemma recognise_run rt h this audio :
  recognise audio rt h this =
  match getAuthToken rt h this with
  | (Normal token, this1, t1) =>
      let out := rt_post rt (h ++ t1) SPEECH_URL (BinaryBody audio) (speech_config token) in
      (match out with
       | HttpResponse st d =>
           if is_2xx st then Normal (response_text d) else Abrupt (axios_rejection out)
       | HttpFailure _ => Abrupt (axios_rejection out)
       end,
       this1,
       t1 ++ [EvPost SPEECH_URL (BinaryBody audio) (speech_config token) out])
  | (Abrupt e, this1, t1) => (Abrupt e, this1, t1)
  end.
Proof.
  unfold recognise. unfold bind at 1.
  destruct (getAuthToken rt h this) as [[[token|e] this1] t1]; [|reflexivity].
  unfold bind, axios_post. cbn zeta.
  destruct (rt_post rt (h ++ t1) SPEECH_URL (BinaryBody audio) (speech_config token))
    as [st d|msg]; [|reflexivity].
  destruct (is_2xx st); [|reflexivity].
  unfold response_text. cbn [data].
  match goal with |- context [if ?c then _ else _] => destruct c end;
    unfold ret; rewrite app_nil_r; reflexivity.
Qed.

Lemma transcribeWithRetry_body_run self rt h this audio isRetry :
  transcribeWithRetry_body self audio isRetry rt h this =
  match recognise audio rt h this with
  | (Normal text, this1, t1) => (Normal text, this1, t1)
  | (Abrupt error, this1, t1) =>
      if is_axios_status error 401 && negb isRetry then
        after t1 (self audio true rt (h ++ t1) (invalidated this1))
      else (Abrupt (TranscriptionError (error_message error)), this1, t1)
  end.
Proof.
  change (transcribeWithRetry_body self audio isRetry) with
    (try (recognise audio) catch (fun error =>
       let rethrow :=
         let errorMessage := error_message error in
         throw (JsError (lit "Sber transcription failed: " ++ errorMessage)) in
       if is_axios_status error 401 then
         if negb isRetry then
           set_cachedToken JNull ;; set_tokenExpiry None ;; self audio true
         else rethrow
       else rethrow)).
  unfold try_catch.
  destruct (recognise audio rt h this) as [[[text|error] this1] t1]; [reflexivity|].
  destruct (is_axios_status error 401); cbn [andb].
  - destruct isRetry; cbn [negb].
    + unfold throw. cbn. rewrite app_nil_r. reflexivity.
    + unfold bind, set_cachedToken, set_tokenExpiry, modify. cbn iota beta.
      rewrite !app_nil_r. cbn [app clientSecret cachedToken tokenExpiry].
      unfold after, invalidated.
      destruct (self audio true rt (h ++ t1) _) as [[r s2] t2]. reflexivity.
  - unfold throw. cbn. rewrite app_nil_r. reflexivity.
Qed.

(** The recursive equation of the source: the call made on a first-attempt
    401 is [transcribeWithRetry audioBuffer true] itself. *)
Lemma transcribeWithRetry_unfold audio isRetry :
  forall rt h this,
    transcribeWithRetry audio isRetry rt h this =
    transcribeWithRetry_body transcribeWithRetry audio isRetry rt h this.
Proof.
  intros rt h this. unfold transcribeWithRetry at 1.
  rewrite !transcribeWithRetry_body_run.
  destruct (recognise audio rt h this) as [[[text|error] this1] t1]; [reflexivity|].
  destruct (is_axios_status error 401 && negb isRetry); [|reflexivity].
  reflexivity.
Qed.

Lemma transcribeWithRetry_run rt h this audio isRetry :
  transcribeWithRetry audio isRetry rt h this =
  match recognise audio rt h this with
  | (Normal text, this1, t1) => (Normal text, this1, t1)
  | (Abrupt error, this1, t1) =>
      if is_axios_status error 401 && negb isRetry then
        after t1 (transcribeWithRetry audio true rt (h ++ t1) (invalidated this1))
      else (Abrupt (TranscriptionError (error_message error)), this1, t1)
  end.
Proof.
  rewrite transcribeWithRetry_unfold. apply transcribeWithRetry_body_run.
Qed.

Lemma after_eq {S A} pre (res : Completion A * S * list Event) r s t :
  after pre res = (r, s, t) ->
  exists t', res = (r, s, t') /\ t = pre ++ t'.
Proof.
  destruct res as [[r0 s0] t0]. cbn. intros [= <- <- <-]. eauto.
Qed.

(** The request path: exactly one OAuth request, no recognition request,
    and the result and the cache as the outcome of that request dictates. *)
Lemma requestToken_spec rt h this r this' t :
  requestToken this rt h this = (r, this', t) ->
  exists out,
    oauth_requests t = [out] /\
    recognition_attempts t = [] /\
    token_request_answer rt h this out r this' t.
Proof.
  rewrite requestToken_run. cbn zeta. unfold token_request_answer.
  set (u := rt_random_uuid rt h).
  set (out := rt_post rt (h ++ [EvRandomUUID u]) TOKEN_URL oauth_body (oauth_config this u)).
  intros H. exists out.
  assert (Ho : forall tl, oauth_requests
                 (EvRandomUUID u :: EvPost TOKEN_URL oauth_body (oauth_config this u) out :: tl)
               = out :: oauth_requests tl).
  { intros tl. unfold oauth_requests. cbn [posts_to]. now rewrite eqb_refl. }
  assert (Hr : forall tl, recognition_attempts
                 (EvRandomUUID u :: EvPost TOKEN_URL oauth_body (oauth_config this u) out :: tl)
               = recognition_attempts tl).
  { intros tl. unfold recognition_attempts. cbn [posts_to].
    now rewrite token_url_not_speech_url. }
  destruct out as [st d|msg].
  - destruct (is_2xx st).
    + destruct (Js.is_nullish d).
      * injection H as <- <- <-. rewrite Ho, Hr. auto.
      * injection H as <- <- <-. cbn [app]. rewrite Ho, Hr.
        repeat split; try reflexivity.
        exists [EvRandomUUID u;
                EvPost TOKEN_URL oauth_body (oauth_config this u) (HttpResponse st d)].
        repeat split; reflexivity.
    + injection H as <- <- <-. rewrite Ho, Hr. auto.
  - injection H as <- <- <-. rewrite Ho, Hr. auto.
Qed.

Lemma token_request_answer_after rt h pre this out r this' t :
  token_request_answer rt (h ++ pre) this out r this' t ->
  token_request_answer rt h this out r this' (pre ++ t).
Proof.
  unfold token_request_answer.
  destruct out as [st d|msg]; [|auto].
  destruct (is_2xx st); [|auto].
  destruct (Js.is_nullish d); [auto|].
  intros (p & -> & -> & ->). exists (pre ++ p). cbn zeta.
  rewrite <- !app_assoc. auto.
Qed.

(** A call that does not find a valid token in the cache sends exactly one
    OAuth request and answers its outcome. *)
Lemma getAuthToken_stale rt h this r this' t :
  ~ still_valid (rt_date_now rt h) this ->
  getAuthToken rt h this = (r, this', t) ->
  exists out,
    oauth_requests t = [out] /\
    recognition_attempts t = [] /\
    token_request_answer rt h this out r this' t.
Proof.
  intros Hn H.
  destruct (getAuthToken_cases rt h this) as [[Hv _]|[_ (pre & Hpre & Heq)]];
    [contradiction|].
  rewrite Heq in H. apply after_eq in H as (t' & H & ->).
  apply requestToken_spec in H as (out & Ho & Hr & Hout).
  exists out.
  assert (Hp : forall url, posts_to url (pre ++ t') = posts_to url t').
  { intros url. destruct Hpre as [->| ->]; reflexivity. }
  unfold recognition_attempts, oauth_requests in *. rewrite !Hp.
  auto using token_request_answer_after.
Qed.

(** A call that finds a valid token returns it and touches nothing. *)
Lemma getAuthToken_valid rt h this :
  still_valid (rt_date_now rt h) this ->
  exists t,
    getAuthToken rt h this = (Normal (cachedToken this), this, t) /\
    forall url, posts_to url t = [].
Proof.
  intros Hv.
  destruct (getAuthToken_cases rt h this) as [[_ Heq]|[Hn _]]; [|contradiction].
  eexists. split; [exact Heq|]. reflexivity.
Qed.

(** What every call of [getAuthToken] guarantees. *)
Lemma getAuthToken_summary rt h this r this' t :
  getAuthToken rt h this = (r, this', t) ->
  recognition_attempts t = [] /\
  (length (oauth_requests t) <= 1)%nat /\
  clientSecret this' = clientSecret this /\
  match r with
  | Normal token => cachedToken this' = token /\ Js.truthy token = true
  | Abrupt e => exists cause, e = AuthError cause
  end.
Proof.
  intros H.
  destruct (getAuthToken_cases rt h this) as [[Hv Heq]|[Hn _]].
  - rewrite Heq in H. injection H as <- <- <-. destruct Hv as [Htok _]. cbn. auto.
  - apply getAuthToken_stale in H as (out & Ho & Hr & Hout); [|exact Hn].
    rewrite Ho, Hr. split; [reflexivity|]. split; [cbn; lia|].
    unfold token_request_answer in Hout.
    destruct out as [st d|msg].
    + destruct (is_2xx st).
      * destruct (Js.is_nullish d).
        -- destruct Hout as [-> ->]. split; eauto.
        -- destruct Hout as (p & _ & -> & ->). split; [reflexivity|].
           cbn [cachedToken].
           destruct (Js.truthy (Js.opt_member d (lit "access_token"))) eqn:E; eauto.
      * destruct Hout as [-> ->]. split; eauto.
    + destruct Hout as [-> ->]. split; eauto.
Qed.

Lemma is_axios_status_rejection out :
  is_axios_status (axios_rejection out) 401 = is_401 out.
Proof. destruct out; reflexivity. Qed.

(** The [try] block: either the token could not be had, and no recognition
    request was sent, or exactly one was sent with the token just obtained. *)
Lemma recognise_spec rt h this audio r this' t :
  recognise audio rt h this = (r, this', t) ->
  (exists cause,
      getAuthToken rt h this = (Abrupt (AuthError cause), this', t) /\
      r = Abrupt (AuthError cause) /\
      recognition_attempts t = [])
  \/
  (exists token t1 out,
      getAuthToken rt h this = (Normal token, this', t1) /\
      out = rt_post rt (h ++ t1) SPEECH_URL (BinaryBody audio) (speech_config token) /\
      t = t1 ++ [EvPost SPEECH_URL (BinaryBody audio) (speech_config token) out] /\
      recognition_attempts t = [out] /\
      oauth_requests t = oauth_requests t1 /\
      r = recognition_answer out).
Proof.
  rewrite recognise_run.
  destruct (getAuthToken rt h this) as [[[token|e] this1] t1] eqn:Hg.
  - cbn zeta. intros [= <- <- <-]. right.
    apply getAuthToken_summary in Hg as (Hr & _).
    eexists token, t1, _. split; [reflexivity|]. split; [reflexivity|].
    split; [reflexivity|].
    unfold recognition_attempts, oauth_requests in *.
    rewrite !posts_to_app, Hr. cbn [posts_to app].
    rewrite eqb_refl, speech_url_not_token_url, app_nil_r.
    split; [reflexivity|]. split; [reflexivity|].
    unfold recognition_answer.
    destruct (rt_post rt (h ++ t1) SPEECH_URL (BinaryBody audio) (speech_config token))
      as [st d|msg]; reflexivity.
  - intros [= <- <- <-]. left.
    destruct (getAuthToken_summary _ _ _ Hg) as (Hr & _ & _ & cause & ->).
    exists cause. auto.
Qed.

(** One call of [transcribeWithRetry]: an authentication failure ends it
    with no recognition request; a recognition outcome ends it unless it
    is a 401 on the first attempt; a 401 on the first attempt clears the
    cache and runs the call flagged as retry. *)
Lemma transcribeWithRetry_spec rt h this audio isRetry r this' t :
  transcribeWithRetry audio isRetry rt h this = (r, this', t) ->
  (exists cause,
      recognition_attempts t = [] /\
      r = Abrupt (TranscriptionError (error_message (AuthError cause))))
  \/
  (exists out,
      recognition_attempts t = [out] /\
      is_401 out && negb isRetry = false /\
      recognise audio rt h this = (recognition_answer out, this', t) /\
      r = final_answer out)
  \/
  (isRetry = false /\
   exists d this1 t1 t2,
      recognise audio rt h this = (Abrupt (axios_rejection (HttpResponse 401 d)), this1, t1) /\
      recognition_attempts t1 = [HttpResponse 401 d] /\
      t = t1 ++ t2 /\
      transcribeWithRetry audio true rt (h ++ t1) (invalidated this1) = (r, this', t2)).
Proof.
  rewrite transcribeWithRetry_run.
  destruct (recognise audio rt h this) as [[r1 this1] t1] eqn:Hrec.
  destruct (recognise_spec _ _ _ _ Hrec)
    as [(cause & _ & -> & Hr)|(token & t0 & out & Hg & Hout & Ht & Hr & Ho & ->)].
  - cbn. intros [= <- <- <-]. left. eauto.
  - destruct (recognition_answer out) as [text|error] eqn:Ha.
    + intros [= <- <- <-]. right. left. exists out.
      split; [exact Hr|]. split.
      * destruct out as [st d|msg]; [|reflexivity]. cbn in Ha |- *.
        destruct (st =? 401) eqn:E; [|reflexivity].
        apply Z.eqb_eq in E. subst st. discriminate Ha.
      * rewrite Ha. split; [reflexivity|]. unfold final_answer. now rewrite Ha.
    + assert (He : error = axios_rejection out).
      { destruct out as [st d|msg]; cbn in Ha.
        - destruct (is_2xx st); [discriminate|]. now injection Ha as <-.
        - now injection Ha as <-. }
      subst error. rewrite is_axios_status_rejection.
      destruct (is_401 out && negb isRetry) eqn:Hc.
      * intros H. apply after_eq in H as (t2 & H & ->).
        right. right. apply andb_true_iff in Hc as [H401 Hretry].
        split; [now destruct isRetry|].
        destruct out as [st d|msg]; [|discriminate H401].
        cbn in H401. apply Z.eqb_eq in H401. subst st.
        exists d, this1, t1, t2. auto.
      * intros [= <- <- <-]. right. left. exists out.
        split; [exact Hr|]. split; [exact Hc|].
        rewrite Ha. split; [reflexivity|]. unfold final_answer. now rewrite Ha.
Qed.

(* ================================================================== *)
(** ** Token cache *)
(* ================================================================== *)

Lemma not_valid_when_empty now this : cache_empty this -> ~ still_valid now this.
Proof.
  intros [He|He] [Htok (e & Hexp & _)].
  - rewrite He in Htok. discriminate Htok.
  - rewrite He in Hexp. discriminate Hexp.
Qed.

Lemma not_valid_past_margin now this : past_margin now this -> ~ still_valid now this.
Proof.
  intros (e & He & Hle) [_ (e' & He' & Hlt)].
  rewrite He in He'. injection He' as <-. lia.
Qed.

(** C2.  While a cached token exists and the clock reads strictly less
    than its expiry minus five minutes, [getAuthToken] returns that very
    token, leaves the object as it is, and sends no request at all (its
    trace holds clock readings only). *)
Theorem getAuthToken_reuses_cached_token rt h this :
  still_valid (rt_date_now rt h) this ->
  exists t,
    getAuthToken rt h this = (Normal (cachedToken this), this, t) /\
    oauth_requests t = [] /\
    (forall url, posts_to url t = []).
Proof.
  intros Hv. destruct (getAuthToken_valid rt h Hv) as (t & Heq & Hp).
  exists t. split; [exact Heq|]. split; [apply Hp | exact Hp].
Qed.

Lemma getAuthToken_reuses_cached_token_witness :
  still_valid 1700000000000 Demo.warm_service /\
  exists t,
    getAuthToken (Demo.scripted [] [] Demo.no_file []) [] Demo.warm_service
    = (Normal (JStr (lit "token-0")), Demo.warm_service, t) /\
    oauth_requests t = [] /\
    (forall url, posts_to url t = []).
Proof.
  assert (Hv : still_valid 1700000000000 Demo.warm_service).
  { split; [reflexivity|].
    exists (1700000000000 + 1800000). split; [reflexivity|]. vm_compute. reflexivity. }
  split; [exact Hv|].
  exact (@getAuthToken_reuses_cached_token
           (Demo.scripted [] [] Demo.no_file []) [] Demo.warm_service Hv).
Defined.

(** C3 (amended).  With an empty cache or a token past its safety margin,
    [getAuthToken] sends exactly one OAuth request.  When that request
    succeeds (2xx with a usable [access_token], and an [expires_at] that
    is a primitive value) the token is returned and cached, and the expiry
    is the clock reading taken after the response plus the lifetime the
    server gave, in milliseconds, when that lifetime is a non-zero number;
    plus 1800 seconds when the response has no [expires_at] or a falsy one
    (0, [null]).  The lifetime is a whole number of seconds, and the sum
    one that the engine computes exactly. *)
Theorem getAuthToken_refreshes_once rt h this r this' t :
  cache_empty this \/ past_margin (rt_date_now rt h) this ->
  getAuthToken rt h this = (r, this', t) ->
  exists out,
    oauth_requests t = [out] /\
    forall st d,
      out = HttpResponse st d ->
      is_2xx st = true ->
      Js.truthy (Js.opt_member d (lit "access_token")) = true ->
      primitive (Js.opt_member d (lit "expires_at")) = true ->
      exists pre,
        let now := rt_date_now rt (h ++ pre) in
        t = pre ++ [EvDateNow now] /\
        r = Normal (Js.opt_member d (lit "access_token")) /\
        cachedToken this' = Js.opt_member d (lit "access_token") /\
        (forall lifetime,
            Js.opt_member d (lit "expires_at") = JNum (Num lifetime) ->
            lifetime <> 0 ->
            exact_expiry now lifetime ->
            tokenExpiry this' = Some (Num (Z.of_N now + lifetime * 1000))) /\
        (Js.truthy (Js.opt_member d (lit "expires_at")) = false ->
         exact_expiry now 1800 ->
         tokenExpiry this' = Some (Num (Z.of_N now + 1800 * 1000))).
Proof.
  intros Hstale H.
  assert (Hn : ~ still_valid (rt_date_now rt h) this).
  { destruct Hstale; [now apply not_valid_when_empty | now apply not_valid_past_margin]. }
  apply getAuthToken_stale in H as (out & Ho & _ & Hout); [|exact Hn].
  exists out. split; [exact Ho|].
  intros st d -> H2xx Htok _. unfold token_request_answer in Hout.
  rewrite H2xx in Hout.
  destruct (Js.is_nullish d) eqn:Hnull.
  { destruct d; try discriminate Hnull; discriminate Htok. }
  destruct Hout as (pre & -> & -> & ->). exists pre. cbn zeta.
  rewrite Htok. repeat split.
  - intros lifetime He Hnz _. cbn [tokenExpiry]. unfold expiry_after, Js.or_else.
    rewrite He. cbn [Js.truthy].
    destruct (lifetime =? 0) eqn:E; [apply Z.eqb_eq in E; contradiction|].
    reflexivity.
  - intros He _. cbn [tokenExpiry]. unfold expiry_after, Js.or_else.
    rewrite He. reflexivity.
Qed.

Example zero_lifetime_run_value :
  Demo.zero_lifetime_run =
  (Normal (JStr (lit "token-1")),
   {| clientSecret := lit "c2VjcmV0";
      cachedToken := JStr (lit "token-1");
      tokenExpiry := Some (Num (1700000000002 + 1800 * 1000)) |},
   [ EvRandomUUID (lit "0b0e7a6c-3f58-4c0e-9d57-6a1f6f0c2a11");
     EvPost TOKEN_URL oauth_body
       (oauth_config Demo.fresh_service (lit "0b0e7a6c-3f58-4c0e-9d57-6a1f6f0c2a11"))
       Demo.zero_lifetime_response;
     EvDateNow 1700000000002 ]).
Proof. vm_compute. reflexivity. Qed.

(** C3 as first stated, with the expiry being the clock reading plus
    whatever lifetime the server gave, fails when the server gives a
    lifetime of zero: the request succeeds, the clock reads
    [1700000000002] after the response, and the expiry is that reading
    plus 1800 seconds, not plus zero. *)
Lemma getAuthToken_zero_lifetime_counterexample :
  ~ (forall rt h this r this' t,
        cache_empty this \/ past_margin (rt_date_now rt h) this ->
        getAuthToken rt h this = (r, this', t) ->
        exists out,
          oauth_requests t = [out] /\
          forall st d,
            out = HttpResponse st d ->
            is_2xx st = true ->
            Js.truthy (Js.opt_member d (lit "access_token")) = true ->
            exists pre,
              let now := rt_date_now rt (h ++ pre) in
              t = pre ++ [EvDateNow now] /\
              r = Normal (Js.opt_member d (lit "access_token")) /\
              cachedToken this' = Js.opt_member d (lit "access_token") /\
              (forall lifetime,
                  Js.opt_member d (lit "expires_at") = JNum (Num lifetime) ->
                  tokenExpiry this' = Some (Num (Z.of_N now + lifetime * 1000))) /\
              (Js.opt_member d (lit "expires_at") = JUndefined ->
               tokenExpiry this' = Some (Num (Z.of_N now + 1800 * 1000)))).
Proof.
  intros claim.
  destruct (claim Demo.zero_lifetime_runtime [] Demo.fresh_service _ _ _
              (or_introl (or_introl eq_refl)) zero_lifetime_run_value)
    as (out & Hout & Hsuccess).
  injection Hout as <-.
  destruct (Hsuccess 200 _ eq_refl eq_refl eq_refl) as (pre & Ht & _ & _ & Hlife & _).
  cbn zeta in Ht, Hlife.
  change [EvRandomUUID (lit "0b0e7a6c-3f58-4c0e-9d57-6a1f6f0c2a11");
          EvPost TOKEN_URL oauth_body
            (oauth_config Demo.fresh_service (lit "0b0e7a6c-3f58-4c0e-9d57-6a1f6f0c2a11"))
            Demo.zero_lifetime_response;
          EvDateNow 1700000000002]
    with ([EvRandomUUID (lit "0b0e7a6c-3f58-4c0e-9d57-6a1f6f0c2a11");
           EvPost TOKEN_URL oauth_body
             (oauth_config Demo.fresh_service (lit "0b0e7a6c-3f58-4c0e-9d57-6a1f6f0c2a11"))
             Demo.zero_lifetime_response] ++ [EvDateNow 1700000000002]) in Ht.
  apply app_inj_tail in Ht as [<- Hnow].
  specialize (Hlife 0 eq_refl). vm_compute in Hlife. discriminate Hlife.
Qed.

Lemma run_eta {R S} (res : R * S * list Event) :
  res = (completion res, final_state res, trace res).
Proof. destruct res as [[r s] t]. reflexivity. Qed.

Example refresh_run_value :
  Demo.refresh_run =
  (Normal (JStr (lit "token-1")),
   {| clientSecret := lit "c2VjcmV0";
      cachedToken := JStr (lit "token-1");
      tokenExpiry := Some (Num (1700000000003 + 1800 * 1000)) |},
   [ EvDateNow 1700000000000;
     EvRandomUUID (lit "0b0e7a6c-3f58-4c0e-9d57-6a1f6f0c2a11");
     EvPost TOKEN_URL oauth_body
       (oauth_config Demo.stale_service (lit "0b0e7a6c-3f58-4c0e-9d57-6a1f6f0c2a11"))
       (Demo.token_response "token-1");
     EvDateNow 1700000000003 ]).
Proof. vm_compute. reflexivity. Qed.

Lemma getAuthToken_refreshes_once_witness :
  past_margin 1700000000000 Demo.stale_service /\
  oauth_requests (trace Demo.refresh_run) = [Demo.token_response "token-1"] /\
  completion Demo.refresh_run = Normal (JStr (lit "token-1")) /\
  cachedToken (final_state Demo.refresh_run) = JStr (lit "token-1") /\
  tokenExpiry (final_state Demo.refresh_run)
  = Some (Num (1700000000003 + 1800 * 1000)).
Proof.
  assert (Hp : past_margin 1700000000000 Demo.stale_service).
  { exists (1700000000000 + 240000). split; [reflexivity|]. vm_compute. discriminate. }
  split; [exact Hp|].
  destruct (@getAuthToken_refreshes_once Demo.refresh_runtime [] Demo.stale_service
              (completion Demo.refresh_run) (final_state Demo.refresh_run)
              (trace Demo.refresh_run)
              (or_intror Hp) (run_eta Demo.refresh_run)) as (out & Ho & Hsuccess).
  assert (E : oauth_requests (trace Demo.refresh_run) = [Demo.token_response "token-1"])
    by (vm_compute; reflexivity).
  rewrite E in Ho. injection Ho as <-.
  destruct (Hsuccess 200 _ eq_refl eq_refl eq_refl eq_refl)
    as (pre & Ht & Hr & Hc & Hlife & _).
  cbn zeta in Ht, Hlife.
  assert (Hpre : pre = [ EvDateNow 1700000000000;
                         EvRandomUUID (lit "0b0e7a6c-3f58-4c0e-9d57-6a1f6f0c2a11");
                         EvPost TOKEN_URL oauth_body
                           (oauth_config Demo.stale_service
                              (lit "0b0e7a6c-3f58-4c0e-9d57-6a1f6f0c2a11"))
                           (Demo.token_response "token-1") ]).
  { assert (Et : trace Demo.refresh_run
                 = [ EvDateNow 1700000000000;
                     EvRandomUUID (lit "0b0e7a6c-3f58-4c0e-9d57-6a1f6f0c2a11");
                     EvPost TOKEN_URL oauth_body
                       (oauth_config Demo.stale_service
                          (lit "0b0e7a6c-3f58-4c0e-9d57-6a1f6f0c2a11"))
                       (Demo.token_response "token-1") ]
                   ++ [EvDateNow 1700000000003])
      by (vm_compute; reflexivity).
    rewrite Et in Ht. apply app_inj_tail in Ht as [<- _]. reflexivity. }
  subst pre.
  split; [exact E|]. split; [exact Hr|]. split; [exact Hc|].
  apply (Hlife 1800); [reflexivity|discriminate|].
  repeat split; vm_compute; reflexivity.
Defined.

(** C5.  A call that has to acquire a token sends exactly one OAuth
    request, the one the runtime then answers, and whatever goes wrong
    with it makes the call fail with an [AuthError] whose message ends
    with the cause: the transport's own message (connection error,
    timeout), axios's message for a non-2xx status, the engine's message
    when the body is [null]/[undefined], or "Failed to obtain access
    token" when the body carries no usable token.  The cache is left as it
    was unless a body arrived.  No call sends more than one OAuth request:
    the acquisition is never retried. *)
Theorem getAuthToken_failure_is_AuthError rt h this r this' t :
  getAuthToken rt h this = (r, this', t) ->
  (length (oauth_requests t) <= 1)%nat /\
  (forall e, r = Abrupt e -> exists cause, e = AuthError cause) /\
  (~ still_valid (rt_date_now rt h) this ->
   exists pre rqUID out tail,
     t = pre ++ EvPost TOKEN_URL oauth_body (oauth_config this rqUID) out :: tail /\
     out = rt_post rt (h ++ pre) TOKEN_URL oauth_body (oauth_config this rqUID) /\
     oauth_requests t = [out] /\
     match out with
     | HttpFailure msg => r = Abrupt (AuthError msg) /\ this' = this
     | HttpResponse st d =>
         (is_2xx st = false ->
          r = Abrupt (AuthError (lit "Request failed with status code "
                                   ++ JsString.of_Z st)) /\
          this' = this) /\
         (is_2xx st = true -> Js.is_nullish d = true ->
          r = Abrupt (AuthError (rt_type_error rt d (lit "access_token"))) /\
          this' = this) /\
         (is_2xx st = true -> Js.is_nullish d = false ->
          Js.truthy (Js.opt_member d (lit "access_token")) = false ->
          primitive (Js.opt_member d (lit "expires_at")) = true ->
          r = Abrupt (AuthError (lit "Failed to obtain access token")))
     end).
Proof.
  intros H.
  destruct (getAuthToken_summary _ _ _ H) as (_ & Hlen & _ & Hr).
  split; [exact Hlen|]. split.
  { intros e ->. exact Hr. }
  intros Hn.
  destruct (getAuthToken_cases rt h this) as [[Hv _]|[_ (pre & Hpre & Heq)]];
    [contradiction|].
  rewrite Heq in H. apply after_eq in H as (t' & H & ->).
  rewrite requestToken_run in H. cbn zeta in H.
  set (u := rt_random_uuid rt (h ++ pre)) in *.
  assert (Hh : (h ++ pre) ++ [EvRandomUUID u] = h ++ pre ++ [EvRandomUUID u])
    by (now rewrite <- app_assoc).
  rewrite Hh in H.
  remember (rt_post rt (h ++ pre ++ [EvRandomUUID u]) TOKEN_URL oauth_body
              (oauth_config this u)) as out eqn:Eout.
  assert (Hposts : forall tail,
             oauth_requests
               (pre ++ [EvRandomUUID u; EvPost TOKEN_URL oauth_body (oauth_config this u) out]
                    ++ tail)
             = out :: oauth_requests tail).
  { intros tail. unfold oauth_requests. rewrite posts_to_app.
    assert (Hp : posts_to TOKEN_URL pre = []) by (destruct Hpre as [->| ->]; reflexivity).
    rewrite Hp. cbn [app posts_to]. now rewrite eqb_refl. }
  assert (Hshape : forall tail,
             pre ++ [EvRandomUUID u; EvPost TOKEN_URL oauth_body (oauth_config this u) out]
                 ++ tail
             = (pre ++ [EvRandomUUID u])
                 ++ EvPost TOKEN_URL oauth_body (oauth_config this u) out :: tail).
  { intros tail. now rewrite <- app_assoc. }
  destruct out as [st d|msg].
  - destruct (is_2xx st) eqn:H2.
    + destruct (Js.is_nullish d) eqn:Hnull.
      * injection H as <- <- <-.
        exists (pre ++ [EvRandomUUID u]), u, (HttpResponse st d), [].
        split; [exact (Hshape [])|]. split; [exact Eout|].
        split; [exact (Hposts [])|].
        repeat split; intros; congruence.
      * injection H as <- <- <-.
        exists (pre ++ [EvRandomUUID u]), u, (HttpResponse st d),
               [EvDateNow (rt_date_now rt
                             ((h ++ pre)
                                ++ [EvRandomUUID u;
                                    EvPost TOKEN_URL oauth_body (oauth_config this u)
                                      (HttpResponse st d)]))].
        split; [exact (Hshape [_])|]. split; [exact Eout|].
        split; [exact (Hposts [_])|].
        repeat split; intros; try congruence.
        match goal with Hf : Js.truthy _ = false |- _ => now rewrite Hf end.
    + injection H as <- <- <-.
      exists (pre ++ [EvRandomUUID u]), u, (HttpResponse st d), [].
      split; [exact (Hshape [])|]. split; [exact Eout|].
      split; [exact (Hposts [])|].
      repeat split; intros; congruence.
  - injection H as <- <- <-.
    exists (pre ++ [EvRandomUUID u]), u, (HttpFailure msg), [].
    split; [exact (Hshape [])|]. split; [exact Eout|].
    split; [exact (Hposts [])|]. split; reflexivity.
Qed.

Example timeout_run_value :
  Demo.timeout_run =
  (Abrupt (JsError (lit "Sber authentication failed: timeout of 30000ms exceeded")),
   Demo.fresh_service,
   [ EvRandomUUID (lit "0b0e7a6c-3f58-4c0e-9d57-6a1f6f0c2a11");
     EvPost TOKEN_URL oauth_body
       (oauth_config Demo.fresh_service (lit "0b0e7a6c-3f58-4c0e-9d57-6a1f6f0c2a11"))
       (HttpFailure (lit "timeout of 30000ms exceeded")) ]).
Proof. vm_compute. reflexivity. Qed.

Lemma getAuthToken_failure_is_AuthError_witness :
  ~ still_valid 1700000000000 Demo.fresh_service /\
  oauth_requests (trace Demo.timeout_run)
  = [HttpFailure (lit "timeout of 30000ms exceeded")] /\
  completion Demo.timeout_run
  = Abrupt (AuthError (lit "timeout of 30000ms exceeded")) /\
  final_state Demo.timeout_run = Demo.fresh_service.
Proof.
  assert (Hn : ~ still_valid 1700000000000 Demo.fresh_service).
  { intros [Htok _]. discriminate Htok. }
  split; [exact Hn|].
  destruct (@getAuthToken_failure_is_AuthError Demo.timeout_runtime [] Demo.fresh_service
              (completion Demo.timeout_run) (final_state Demo.timeout_run)
              (trace Demo.timeout_run) (run_eta Demo.timeout_run))
    as (_ & _ & Hfail).
  destruct (Hfail Hn) as (pre & rqUID & out & tail & _ & _ & Ho & Hanswer).
  assert (E : oauth_requests (trace Demo.timeout_run)
              = [HttpFailure (lit "timeout of 30000ms exceeded")])
    by (vm_compute; reflexivity).
  rewrite E in Ho. injection Ho as <-.
  destruct Hanswer as [Hr Hs].
  split; [exact E|]. split; [exact Hr|exact Hs].
Defined.

(* ================================================================== *)
(** ** Transcription client *)
(* ================================================================== *)

(** After an invalidation the next token can only come from a new OAuth
    request, and it is the one the cache then holds. *)
Lemma getAuthToken_after_invalidation rt h this token this' t :
  getAuthToken rt h (invalidated this) = (Normal token, this', t) ->
  exists st d,
    oauth_requests t = [HttpResponse st d] /\
    is_2xx st = true /\
    token = Js.opt_member d (lit "access_token") /\
    cachedToken this' = token /\
    Js.truthy token = true.
Proof.
  intros H.
  destruct (getAuthToken_summary _ _ _ H) as (_ & _ & _ & Hc & Htruthy).
  apply getAuthToken_stale in H as (out & Ho & _ & Hout).
  2:{ apply not_valid_when_empty. now left. }
  unfold token_request_answer in Hout.
  destruct out as [st d|msg]; [|destruct Hout as [[=] _]].
  destruct (is_2xx st) eqn:H2; [|destruct Hout as [[=] _]].
  destruct (Js.is_nullish d); [destruct Hout as [[=] _]|].
  destruct Hout as (pre & _ & _ & Hr).
  exists st, d. split; [exact Ho|]. split; [exact H2|].
  destruct (Js.truthy (Js.opt_member d (lit "access_token"))); [|discriminate Hr].
  injection Hr as ->. auto.
Qed.

(** A call flagged as retry sends at most one recognition request and its
    outcome, whatever it is, ends the call. *)
Lemma retry_spec rt h this audio r this' t :
  transcribeWithRetry audio true rt h this = (r, this', t) ->
  (exists cause,
      recognition_attempts t = [] /\
      r = Abrupt (TranscriptionError (error_message (AuthError cause))))
  \/
  (exists out,
      recognition_attempts t = [out] /\
      recognise audio rt h this = (recognition_answer out, this', t) /\
      r = final_answer out).
Proof.
  intros H.
  destruct (transcribeWithRetry_spec _ _ _ _ _ H)
    as [Ha|[(out & Hr & _ & Hrec & Hf)|[Hfalse _]]].
  - now left.
  - right. eauto.
  - discriminate Hfalse.
Qed.

Lemma final_answer_2xx st d :
  is_2xx st = true -> final_answer (HttpResponse st d) = Normal (response_text d).
Proof. intros H. unfold final_answer, recognition_answer. now rewrite H. Qed.

Lemma final_answer_failure out :
  succeeded out = false ->
  final_answer out = Abrupt (TranscriptionError (error_message (axios_rejection out))).
Proof.
  unfold final_answer, recognition_answer.
  destruct out as [st d|msg]; cbn [succeeded]; [|reflexivity].
  now intros ->.
Qed.

(** C1.  A [transcribe] call sends at most two recognition requests.  When
    the runtime answers the first one with 401, the call goes on: what
    follows is [transcribeWithRetry audioBuffer true] run on the object
    with [cachedToken] and [tokenExpiry] both cleared.  So the retry sends
    one OAuth request whatever the cache held before, and when that
    request fails the object is left with both fields [null].  When it
    yields a token, exactly one more recognition request is sent, with
    that token, and its outcome ends the call: a 2xx gives its text with
    the new token in the cache, a second 401 gives a [TranscriptionError],
    and there is no third request.  (The tokens and the answers of the
    OAuth endpoint are primitive values and the 2xx body is within
    [plain_result]: the bounds of the embedding.) *)
Theorem transcribe_retries_once_on_401 rt h this audio r this' t :
  transcribe audio rt h this = (r, this', t) ->
  forallb plain_answer (oauth_requests t) = true ->
  (length (recognition_attempts t) <= 2)%nat /\
  forall token this1 t1 d,
    getAuthToken rt h this = (Normal token, this1, t1) ->
    exact token = true ->
    rt_post rt (h ++ t1) SPEECH_URL (BinaryBody audio) (speech_config token)
    = HttpResponse 401 d ->
    let first :=
      t1 ++ [EvPost SPEECH_URL (BinaryBody audio) (speech_config token)
               (HttpResponse 401 d)] in
    exists retry,
      t = first ++ retry /\
      transcribeWithRetry audio true rt (h ++ first) (invalidated this1)
      = (r, this', retry) /\
      (exists out,
          oauth_requests retry = [out] /\
          (succeeded out = false ->
           cachedToken this' = JNull /\ tokenExpiry this' = None /\
           recognition_attempts t = [HttpResponse 401 d] /\
           exists cause, r = Abrupt (TranscriptionError (error_message (AuthError cause))))) /\
      forall token2 this2 t2,
        getAuthToken rt (h ++ first) (invalidated this1) = (Normal token2, this2, t2) ->
        exact token2 = true ->
        let out2 :=
          rt_post rt (h ++ first ++ t2) SPEECH_URL (BinaryBody audio)
            (speech_config token2) in
        retry = t2 ++ [EvPost SPEECH_URL (BinaryBody audio) (speech_config token2) out2] /\
        recognition_attempts t = [HttpResponse 401 d; out2] /\
        this' = this2 /\
        cachedToken this' = token2 /\
        (exists st' d',
            oauth_requests retry = [HttpResponse st' d'] /\
            is_2xx st' = true /\
            token2 = Js.opt_member d' (lit "access_token")) /\
        (forall st d2,
            out2 = HttpResponse st d2 -> is_2xx st = true -> plain_result d2 = true ->
            r = Normal (response_text d2)) /\
        (forall d2,
            out2 = HttpResponse 401 d2 ->
            r = Abrupt (TranscriptionError (lit "Request failed with status code 401"))).
Proof.
  unfold transcribe. intros H _. split.
  { destruct (transcribeWithRetry_spec _ _ _ _ _ H)
      as [(cause & Hr & _)|[(out & Hr & _)|(_ & d & this1 & t1 & t2 & _ & Hr1 & -> & Hretry)]].
    - rewrite Hr. cbn. lia.
    - rewrite Hr. cbn. lia.
    - unfold recognition_attempts in *. rewrite posts_to_app, Hr1. cbn [app length].
      destruct (retry_spec _ _ _ _ Hretry) as [(c & E & _)|(o & E & _)];
        unfold recognition_attempts in E; rewrite E; cbn [length]; lia. }
  intros token this1 t1 d Hg _ Hpost. cbn zeta.
  set (first := t1 ++ [EvPost SPEECH_URL (BinaryBody audio) (speech_config token)
                         (HttpResponse 401 d)]).
  assert (Hrec : recognise audio rt h this
                 = (Abrupt (axios_rejection (HttpResponse 401 d)), this1, first)).
  { rewrite recognise_run, Hg. cbn zeta. rewrite Hpost. reflexivity. }
  assert (Hfirst : recognition_attempts first = [HttpResponse 401 d] /\
                   oauth_requests first = oauth_requests t1).
  { destruct (getAuthToken_summary _ _ _ Hg) as (Hnone & _).
    unfold first, recognition_attempts, oauth_requests in *.
    rewrite !posts_to_app, Hnone. cbn [posts_to app].
    now rewrite eqb_refl, speech_url_not_token_url, app_nil_r. }
  destruct Hfirst as [Hfirst _].
  rewrite transcribeWithRetry_run, Hrec, is_axios_status_rejection in H.
  change (is_401 (HttpResponse 401 d) && negb false) with true in H. cbv iota in H.
  apply after_eq in H as (retry & Hretry & ->).
  exists retry. split; [reflexivity|]. split; [exact Hretry|].
  rewrite transcribeWithRetry_run, recognise_run in Hretry.
  assert (Hn : ~ still_valid (rt_date_now rt (h ++ first)) (invalidated this1)).
  { apply not_valid_when_empty. now left. }
  destruct (getAuthToken rt (h ++ first) (invalidated this1)) as [[[token2|e] this2] t2] eqn:Hg2.
  - (* a new token *)
    destruct (getAuthToken_after_invalidation _ _ _ Hg2)
      as (st' & d' & Hreq & H2xx' & Htok & Hcache & _).
    destruct (getAuthToken_summary _ _ _ Hg2) as (Hnone2 & _).
    cbn zeta in Hretry. rewrite <- app_assoc in Hretry.
    set (out2 := rt_post rt (h ++ first ++ t2) SPEECH_URL (BinaryBody audio)
                   (speech_config token2)) in *.
    assert (Hend : (final_answer out2, this2,
                    t2 ++ [EvPost SPEECH_URL (BinaryBody audio) (speech_config token2) out2])
                   = (r, this', retry)).
    { unfold final_answer, recognition_answer. rewrite <- Hretry.
      destruct out2 as [st d2|msg]; [destruct (is_2xx st)|];
        rewrite ?andb_false_r; reflexivity. }
    injection Hend as <- <- <-.
    assert (Hposts : oauth_requests
                       (t2 ++ [EvPost SPEECH_URL (BinaryBody audio)
                                 (speech_config token2) out2])
                     = [HttpResponse st' d'] /\
                     recognition_attempts
                       (t2 ++ [EvPost SPEECH_URL (BinaryBody audio)
                                 (speech_config token2) out2])
                     = [out2]).
    { unfold oauth_requests, recognition_attempts in *.
      rewrite !posts_to_app, Hreq, Hnone2. cbn [posts_to app].
      now rewrite eqb_refl, speech_url_not_token_url. }
    destruct Hposts as [Hoauth Hatt].
    split.
    { exists (HttpResponse st' d'). split; [exact Hoauth|].
      cbn [succeeded]. rewrite H2xx'. discriminate. }
    intros token2' this2' t2' [= <- <- <-] _. cbn zeta. fold out2.
    split; [reflexivity|].
    split.
    { unfold recognition_attempts in *. rewrite posts_to_app, Hfirst, Hatt. reflexivity. }
    split; [reflexivity|]. split; [exact Hcache|].
    split; [exists st', d'; auto|].
    split.
    + intros st d2 -> H2xx _. now apply final_answer_2xx.
    + intros d2 ->. reflexivity.
  - (* no new token *)
    cbv beta iota in Hretry. rewrite andb_false_r in Hretry.
    injection Hretry as <- <- <-.
    destruct (getAuthToken_summary _ _ _ Hg2) as (Hnone2 & _ & _ & cause & ->).
    apply getAuthToken_stale in Hg2 as (out & Ho & _ & Hans); [|exact Hn].
    split.
    { exists out. split; [exact Ho|]. intros Hfail.
      assert (Hsame : this2 = invalidated this1).
      { unfold token_request_answer in Hans.
        destruct out as [st d0|msg]; [|now destruct Hans].
        cbn [succeeded] in Hfail. rewrite Hfail in Hans. now destruct Hans. }
      subst this2. split; [reflexivity|]. split; [reflexivity|].
      split; [|exists cause; reflexivity].
      unfold recognition_attempts in *. rewrite posts_to_app, Hfirst, Hnone2. reflexivity. }
    intros token2 this2' t2' [=].
Qed.

(** *** The text of a response *)

Lemma trimStart_nil_iff s :
  JsString.trimStart s = [] <-> whitespace_only s = true.
Proof.
  unfold whitespace_only.
  induction s as [|c s IH]; cbn; [tauto|].
  destruct (JsString.is_whitespace c); cbn; [exact IH|].
  split; discriminate.
Qed.

Lemma trimStart_head s c s' :
  JsString.trimStart s = c :: s' -> JsString.is_whitespace c = false.
Proof.
  induction s as [|x s IH]; cbn; [discriminate|].
  destruct (JsString.is_whitespace x) eqn:E; [exact IH|].
  now intros [= <- _].
Qed.

Lemma whitespace_only_rev s : whitespace_only (rev s) = whitespace_only s.
Proof.
  unfold whitespace_only.
  induction s as [|c s IH]; [reflexivity|].
  cbn. rewrite forallb_app, IH. cbn. rewrite andb_true_r. apply andb_comm.
Qed.

Lemma trim_nil_iff s : JsString.trim s = [] <-> whitespace_only s = true.
Proof.
  unfold JsString.trim, JsString.trimEnd. split.
  - intros H.
    assert (H1 : JsString.trimStart (rev (JsString.trimStart s)) = []).
    { apply (f_equal (@rev N)) in H. rewrite rev_involutive in H. exact H. }
    apply trimStart_nil_iff in H1. rewrite whitespace_only_rev in H1.
    destruct (JsString.trimStart s) as [|c s'] eqn:E.
    + now apply trimStart_nil_iff.
    + apply trimStart_head in E. cbn in H1. rewrite E in H1. discriminate H1.
  - intros H. apply trimStart_nil_iff in H. rewrite H. reflexivity.
Qed.

(** The test on line 119 holds exactly for white-space-only texts. *)
Lemma no_speech_test text :
  negb (Js.truthy (JStr text)) || (Z.of_nat (length (JsString.trim text)) =? 0)
  = whitespace_only text.
Proof.
  destruct (whitespace_only text) eqn:E.
  - apply trim_nil_iff in E. rewrite E. cbn. apply orb_true_r.
  - destruct text as [|c text]; [discriminate E|]. cbn [Js.truthy JsString.eqb negb orb].
    destruct (JsString.trim (c :: text)) eqn:Et.
    + apply trim_nil_iff in Et. congruence.
    + reflexivity.
Qed.

Lemma response_text_spec d :
  response_text d =
  match Js.opt_member d (lit "result") with
  | JStr s => if whitespace_only s then [] else s
  | JArr elems =>
      let text := Js.array_join (lit " ") elems in
      if whitespace_only text then [] else text
  | _ => []
  end.
Proof.
  unfold response_text. cbn zeta. rewrite no_speech_test.
  destruct (Js.opt_member d (lit "result")) as [| | | | |[|e es]|]; reflexivity.
Qed.

Lemma array_join_strings sep segs :
  Js.array_join sep (map JStr segs) = JsString.join sep segs.
Proof.
  unfold Js.array_join. rewrite map_map. cbn. now rewrite map_id.
Qed.

(** A 2xx recognition response ends the call with its text. *)
Lemma transcribe_2xx rt h this audio r this' t st d :
  transcribe audio rt h this = (r, this', t) ->
  In (HttpResponse st d) (recognition_attempts t) ->
  is_2xx st = true ->
  r = Normal (response_text d).
Proof.
  unfold transcribe. intros H Hin H2xx.
  destruct (transcribeWithRetry_spec _ _ _ _ _ H)
    as [(cause & Hr & _)|[(out & Hr & _ & _ & ->)|(_ & d0 & this1 & t1 & t2 & _ & Hr1 & -> & Hretry)]].
  - rewrite Hr in Hin. destruct Hin.
  - rewrite Hr in Hin. destruct Hin as [->|[]]. now apply final_answer_2xx.
  - unfold recognition_attempts in *. rewrite posts_to_app, Hr1 in Hin.
    destruct Hin as [[= <- _]|Hin]; [discriminate H2xx|].
    destruct (retry_spec _ _ _ _ Hretry) as [(c & E & _)|(o & E & _ & ->)];
      unfold recognition_attempts in E; rewrite E in Hin.
    + destruct Hin.
    + destruct Hin as [->|[]]. now apply final_answer_2xx.
Qed.

Example retry_run_value :
  completion Demo.retry_run = Normal (lit "hello world") /\
  final_state Demo.retry_run =
    {| clientSecret := lit "c2VjcmV0";
       cachedToken := JStr (lit "token-1");
       tokenExpiry := Some (Num (1700000000005 + 1800 * 1000)) |} /\
  recognition_attempts (trace Demo.retry_run)
    = [Demo.unauthorized; Demo.result_response Demo.hello_world] /\
  oauth_requests (trace Demo.retry_run) = [Demo.token_response "token-1"].
Proof. vm_compute. repeat split; reflexivity. Qed.

Example rejected_run_value :
  completion Demo.rejected_run
    = Abrupt (JsError (lit "Sber transcription failed: Request failed with status code 401")) /\
  recognition_attempts (trace Demo.rejected_run) = [Demo.unauthorized; Demo.unauthorized].
Proof. vm_compute. repeat split; reflexivity. Qed.

Lemma transcribe_retries_once_on_401_witness :
  recognition_attempts (trace Demo.retry_run)
  = [Demo.unauthorized; Demo.result_response Demo.hello_world] /\
  completion Demo.retry_run = Normal (lit "hello world") /\
  cachedToken (final_state Demo.retry_run) = JStr (lit "token-1") /\
  exists first retry,
    trace Demo.retry_run = first ++ retry /\
    recognition_attempts first = [Demo.unauthorized] /\
    oauth_requests first = [] /\
    oauth_requests retry = [Demo.token_response "token-1"].
Proof.
  destruct (@transcribe_retries_once_on_401 Demo.retry_runtime [] Demo.warm_service
              Demo.audio (completion Demo.retry_run) (final_state Demo.retry_run)
              (trace Demo.retry_run) (run_eta Demo.retry_run) eq_refl)
    as [_ Hretry].
  destruct (Hretry (JStr (lit "token-0")) Demo.warm_service
              [EvDateNow 1700000000000; EvDateNow 1700000000001]
              (JObj [ (lit "message", JStr (lit "Unauthorized")) ])
              eq_refl eq_refl eq_refl)
    as (retry & Ht & _ & _ & Hfresh).
  destruct (Hfresh (JStr (lit "token-1"))
              {| clientSecret := lit "c2VjcmV0";
                 cachedToken := JStr (lit "token-1");
                 tokenExpiry := Some (Num (1700000000005 + 1800 * 1000)) |}
              [ EvRandomUUID (lit "0b0e7a6c-3f58-4c0e-9d57-6a1f6f0c2a11");
                EvPost TOKEN_URL oauth_body
                  (oauth_config (invalidated Demo.warm_service)
                     (lit "0b0e7a6c-3f58-4c0e-9d57-6a1f6f0c2a11"))
                  (Demo.token_response "token-1");
                EvDateNow 1700000000005 ]
              eq_refl eq_refl)
    as (Hshape & Hatt & Hstate & Hcache & (st' & d' & Hoauth & _ & _) & H2xx & _).
  split; [exact Hatt|].
  split.
  { exact (H2xx 200 (JObj [ (lit "result", Demo.hello_world);
                            (lit "confidence", JNum (Num 1)) ])
             eq_refl eq_refl eq_refl). }
  split; [exact Hcache|].
  eexists _, retry. split; [exact Ht|].
  split; [reflexivity|]. split; [reflexivity|].
  rewrite Hshape. reflexivity.
Defined.

(** C4.  When the recognition request is answered 2xx, [transcribe]
    returns, as a success: the [result] string itself when [result] is a
    string; the elements of [result] joined with one space when it is an
    array (so ["hello", "world"] gives "hello world"); and in both cases the
    empty string when that text is empty or white space only.  (The body
    is within [plain_result]: what [join] converts are primitive values,
    numbers being integers the engine represents exactly.) *)
Theorem transcribe_result_mapping rt h this audio r this' t st d :
  transcribe audio rt h this = (r, this', t) ->
  In (HttpResponse st d) (recognition_attempts t) ->
  is_2xx st = true ->
  plain_result d = true ->
  (forall s,
      Js.opt_member d (lit "result") = JStr s ->
      r = Normal (if whitespace_only s then [] else s)) /\
  (forall segments,
      Js.opt_member d (lit "result") = JArr (map JStr segments) ->
      r = Normal (let text := JsString.join (lit " ") segments in
                  if whitespace_only text then [] else text)) /\
  (forall elems,
      Js.opt_member d (lit "result") = JArr elems ->
      r = Normal (let text := Js.array_join (lit " ") elems in
                  if whitespace_only text then [] else text)) /\
  (Js.opt_member d (lit "result") = JArr [JStr (lit "hello"); JStr (lit "world")] ->
   r = Normal (lit "hello world")).
Proof.
  intros H Hin H2xx _.
  rewrite (@transcribe_2xx _ _ _ _ _ _ _ _ _ H Hin H2xx), response_text_spec.
  split; [|split; [|split]].
  - now intros s ->.
  - intros segments ->. now rewrite array_join_strings.
  - now intros elems ->.
  - now intros ->.
Qed.

Example answered_run_value :
  completion (Demo.answered_run Demo.hello_world) = Normal (lit "hello world") /\
  completion (Demo.answered_run (JStr (lit "good morning"))) = Normal (lit "good morning") /\
  completion (Demo.answered_run (JStr (lit "  "))) = Normal [] /\
  completion (Demo.answered_run (JStr [])) = Normal [] /\
  completion (Demo.answered_run (JArr [JStr []; JStr []])) = Normal [].
Proof. vm_compute. repeat split; reflexivity. Qed.

Lemma transcribe_result_mapping_witness :
  In (Demo.result_response Demo.hello_world)
     (recognition_attempts (trace (Demo.answered_run Demo.hello_world))) /\
  completion (Demo.answered_run Demo.hello_world) = Normal (lit "hello world") /\
  completion (Demo.answered_run Demo.hello_world)
  = Normal (JsString.join (lit " ") [lit "hello"; lit "world"]).
Proof.
  assert (Hin : In (Demo.result_response Demo.hello_world)
                   (recognition_attempts (trace (Demo.answered_run Demo.hello_world)))).
  { vm_compute. left. reflexivity. }
  split; [exact Hin|].
  destruct (@transcribe_result_mapping (Demo.answering Demo.hello_world) []
              Demo.fresh_service Demo.audio
              (completion (Demo.answered_run Demo.hello_world))
              (final_state (Demo.answered_run Demo.hello_world))
              (trace (Demo.answered_run Demo.hello_world)) 200
              (JObj [ (lit "result", Demo.hello_world); (lit "confidence", JNum (Num 1)) ])
              (run_eta _) Hin eq_refl eq_refl)
    as (_ & Hsegments & _ & Hhello).
  split; [exact (Hhello eq_refl)|].
  exact (Hsegments [lit "hello"; lit "world"] eq_refl).
Defined.


Example unusable_results :
  completion Demo.silent_run = Normal [] /\
  completion (Demo.answered_run JNull) = Normal [] /\
  completion (Demo.answered_run (JNum (Num 42))) = Normal [] /\
  completion (Demo.answered_run (JArr [])) = Normal [] /\
  completion (Demo.answered_run (JBool true)) = Normal [] /\
  completion (Demo.answered_run (JObj [])) = Normal [].
Proof. vm_compute. repeat split; reflexivity. Qed.


(** C6.  A recognition request that fails (any status outside 2xx, or no
    response at all) and is not a 401 on the first attempt ends the call:
    no further recognition request follows it, and [transcribe] fails with
    a [TranscriptionError] whose message ends with the cause, axios's
    message for the status or the transport's own message. *)
Theorem transcribe_wraps_other_failures rt h this audio r this' t :
  transcribe audio rt h this = (r, this', t) ->
  forall before out later,
    recognition_attempts t = before ++ out :: later ->
    succeeded out = false ->
    (before = [] -> is_401 out = false) ->
    later = [] /\
    match out with
    | HttpFailure msg => r = Abrupt (TranscriptionError msg)
    | HttpResponse st _ =>
        r = Abrupt (TranscriptionError
                      (lit "Request failed with status code " ++ JsString.of_Z st))
    end.
Proof.
  unfold transcribe. intros H before out later Hatt Hfail Hfirst.
  assert (Hlast : forall o, r = final_answer o -> o = out ->
            match out with
            | HttpFailure msg => r = Abrupt (TranscriptionError msg)
            | HttpResponse st _ =>
                r = Abrupt (TranscriptionError
                              (lit "Request failed with status code " ++ JsString.of_Z st))
            end).
  { intros o -> ->. rewrite (final_answer_failure _ Hfail). now destruct out. }
  destruct (transcribeWithRetry_spec _ _ _ _ _ H)
    as [(cause & Hr & _)|[(o & Hr & _ & _ & Hans)|(_ & d & this1 & t1 & t2 & _ & Hr1 & -> & Hretry)]].
  - rewrite Hr in Hatt. now destruct before.
  - rewrite Hr in Hatt. destruct before as [|b [|b' before]]; try discriminate Hatt.
    injection Hatt as -> <-. split; [reflexivity|]. now apply (Hlast out).
  - unfold recognition_attempts in *. rewrite posts_to_app, Hr1 in Hatt.
    destruct before as [|b before].
    + injection Hatt as <- _. specialize (Hfirst eq_refl). discriminate Hfirst.
    + injection Hatt as _ Hatt.
      destruct (retry_spec _ _ _ _ Hretry) as [(c & E & _)|(o & E & _ & Hans)];
        unfold recognition_attempts in E; rewrite E in Hatt.
      * now destruct before.
      * destruct before as [|b' before]; [|now destruct before].
        injection Hatt as -> <-. split; [reflexivity|]. now apply (Hlast out).
Qed.

Example failing_run_value :
  completion Demo.failing_run
    = Abrupt (JsError (lit "Sber transcription failed: Request failed with status code 500")) /\
  recognition_attempts (trace Demo.failing_run) = [HttpResponse 500 JNull].
Proof. vm_compute. repeat split; reflexivity. Qed.

Lemma transcribe_wraps_other_failures_witness :
  recognition_attempts (trace Demo.failing_run) = [] ++ HttpResponse 500 JNull :: [] /\
  (@nil HttpOutcome = [] /\
   completion Demo.failing_run
   = Abrupt (TranscriptionError (lit "Request failed with status code " ++ JsString.of_Z 500))).
Proof.
  assert (Hatt : recognition_attempts (trace Demo.failing_run)
                 = [] ++ HttpResponse 500 JNull :: []).
  { vm_compute. reflexivity. }
  split; [exact Hatt|].
  exact (@transcribe_wraps_other_failures Demo.failing_runtime [] Demo.fresh_service
           Demo.audio (completion Demo.failing_run) (final_state Demo.failing_run)
           (trace Demo.failing_run) (run_eta Demo.failing_run)
           [] (HttpResponse 500 JNull) [] Hatt eq_refl (fun _ => eq_refl)).
Defined.

(* ================================================================== *)
(** ** Format converter *)
(* ================================================================== *)

Section ConverterFacts.
Import Converter.

Lemma handle_settled ev st :
  promise st <> Pending -> promise (handle st ev) = promise st.
Proof.
  destruct st as [cs [|v|e]]; cbn; intros Hs; [now destruct Hs| |];
    destruct ev; reflexivity.
Qed.

Lemma settled_stable run st :
  promise st <> Pending -> promise (fold_left handle run st) = promise st.
Proof.
  revert st. induction run as [|ev run IH]; intros st Hs; [reflexivity|].
  cbn [fold_left]. rewrite IH; rewrite handle_settled by exact Hs; auto.
Qed.

Lemma data_prefix before rest cs :
  forallb is_data before = true ->
  fold_left handle (before ++ rest) {| chunks := cs; promise := Pending |}
  = fold_left handle rest {| chunks := cs ++ data_chunks before; promise := Pending |}.
Proof.
  revert cs. induction before as [|ev before IH]; intros cs Hd.
  - cbn. now rewrite app_nil_r.
  - destruct ev; try discriminate Hd. cbn in Hd |- *.
    rewrite (IH _ Hd), <- app_assoc. reflexivity.
Qed.

Lemma data_chunks_app a b : data_chunks (a ++ b) = data_chunks a ++ data_chunks b.
Proof.
  induction a as [|ev a IH]; [reflexivity|].
  destruct ev; cbn; now rewrite ?IH.
Qed.

(** The promise is fulfilled only by a completion signal that comes
    before any error, and then with every chunk received so far. *)
Lemma fulfilled_inv run cs buffer :
  promise (fold_left handle run {| chunks := cs; promise := Pending |})
  = Fulfilled buffer ->
  exists before later,
    run = before ++ CommandEnd :: later /\
    forallb is_data before = true /\
    buffer = concat (cs ++ data_chunks before).
Proof.
  revert cs. induction run as [|ev run IH]; intros cs H; [discriminate H|].
  destruct ev as [msg| |chunk|msg]; cbn [fold_left handle] in H.
  - rewrite settled_stable in H by (cbn; discriminate). discriminate H.
  - rewrite settled_stable in H by (cbn; discriminate).
    cbn in H. injection H as <-.
    exists [], run. cbn. now rewrite app_nil_r.
  - apply IH in H as (before & later & -> & Hd & ->).
    exists (StreamData chunk :: before), later. cbn.
    rewrite <- app_assoc. auto.
  - rewrite settled_stable in H by (cbn; discriminate). discriminate H.
Qed.

(** An error event that no completion signal precedes makes the promise
    rejected, with the error of the first error event. *)
Lemma rejected_before_end before ev later cs :
  is_error ev = true ->
  ~ In CommandEnd before ->
  exists first e,
    In first (before ++ [ev]) /\
    ConversionError first = Some e /\
    promise (fold_left handle (before ++ ev :: later) {| chunks := cs; promise := Pending |})
    = Rejected e.
Proof.
  intros Herr. revert cs. induction before as [|b before IH]; intros cs Hno.
  - destruct ev as [msg| |chunk|msg]; try discriminate Herr; cbn [app fold_left handle].
    + eexists _, _. split; [now left|]. split; [reflexivity|].
      now rewrite settled_stable by (cbn; discriminate).
    + eexists _, _. split; [now left|]. split; [reflexivity|].
      now rewrite settled_stable by (cbn; discriminate).
  - destruct b as [msg| |chunk|msg]; cbn [app fold_left handle].
    + eexists _, _. split; [now left|]. split; [reflexivity|].
      now rewrite settled_stable by (cbn; discriminate).
    + destruct Hno. now left.
    + destruct (IH (cs ++ [chunk])) as (first & e & Hin & He & Hp).
      { intros Hin. apply Hno. now right. }
      exists first, e. split; [now right|]. auto.
    + eexists _, _. split; [now left|]. split; [reflexivity|].
      now rewrite settled_stable by (cbn; discriminate).
Qed.

(** The promise is rejected only by an error event that data events only
    precede, and then with that event's wrapped message. *)
Lemma rejected_inv run cs e :
  promise (fold_left handle run {| chunks := cs; promise := Pending |})
  = Rejected e ->
  exists before ev later,
    run = before ++ ev :: later /\
    forallb is_data before = true /\
    ConversionError ev = Some e.
Proof.
  revert cs. induction run as [|ev run IH]; intros cs H; [discriminate H|].
  destruct ev as [msg| |chunk|msg]; cbn [fold_left handle] in H.
  - rewrite settled_stable in H by (cbn; discriminate).
    cbn in H. injection H as <-.
    exists [], (CommandError msg), run. auto.
  - rewrite settled_stable in H by (cbn; discriminate). discriminate H.
  - apply IH in H as (before & ev & later & -> & Hd & He).
    exists (StreamData chunk :: before), ev, later. auto.
  - rewrite settled_stable in H by (cbn; discriminate).
    cbn in H. injection H as <-.
    exists [], (StreamError msg), run. auto.
Qed.

(** The first event that is not a data event settles the promise. *)
Lemma first_event_settles before ev later :
  forallb is_data before = true ->
  is_data ev = false ->
  settle (before ++ ev :: later)
  = promise (handle {| chunks := data_chunks before; promise := Pending |} ev).
Proof.
  intros Hd Hev. unfold settle, start. rewrite data_prefix by exact Hd.
  cbn [fold_left app].
  apply settled_stable. destruct ev; try discriminate Hev; cbn; discriminate.
Qed.

End ConverterFacts.

(** C7 (amended).  The promise of [convertOggToMp3] is settled by the
    first event of the run that is not a data event.  It is fulfilled
    exactly when that event is the completion signal, and then with the
    chunks that arrived before the signal, concatenated in arrival order.
    It is rejected exactly when that event is an error event of the
    command or of the output stream, and then with a [ConversionError]
    that carries the message of that event; nothing is returned in that
    case.  Any error event that no completion signal precedes therefore
    rejects the promise, with the message of the first error event. *)
Theorem convertOggToMp3_all_or_nothing this oggBuffer rt h :
  let run := rt_ffmpeg rt h oggBuffer in
  let res := fst (convertOggToMp3 this oggBuffer rt h) in
  (forall buffer,
      res = Fulfilled buffer <->
      exists before later,
        run = before ++ CommandEnd :: later /\
        forallb is_data before = true /\
        buffer = concat (data_chunks before)) /\
  (forall e,
      res = Rejected e <->
      exists before ev later,
        run = before ++ ev :: later /\
        forallb is_data before = true /\
        ConversionError ev = Some e) /\
  (forall before msg later,
      run = before ++ CommandError msg :: later ->
      forallb is_data before = true ->
      res = Rejected (JsError (lit "Audio conversion failed: " ++ msg))) /\
  (forall before msg later,
      run = before ++ StreamError msg :: later ->
      forallb is_data before = true ->
      res = Rejected (JsError (lit "Stream error: " ++ msg))) /\
  (forall before ev later,
      run = before ++ ev :: later ->
      is_error ev = true ->
      ~ In CommandEnd before ->
      exists first e,
        In first (before ++ [ev]) /\
        ConversionError first = Some e /\
        res = Rejected e).
Proof.
  cbn zeta. unfold convertOggToMp3. cbn [fst].
  set (run := rt_ffmpeg rt h oggBuffer). clearbody run.
  split; [|split; [|split; [|split]]].
  - intros buffer. split.
    + intros H. unfold Converter.settle, Converter.start in H.
      apply fulfilled_inv in H. exact H.
    + intros (before & later & -> & Hd & ->).
      rewrite first_event_settles by (exact Hd || reflexivity). reflexivity.
  - intros e. split.
    + intros H. unfold Converter.settle, Converter.start in H.
      apply rejected_inv in H. exact H.
    + intros (before & ev & later & -> & Hd & He).
      destruct ev as [msg| |chunk|msg]; try discriminate He;
        rewrite first_event_settles by (exact Hd || reflexivity);
        cbn in He |- *; now injection He as <-.
  - intros before msg later -> Hd.
    now rewrite first_event_settles by (exact Hd || reflexivity).
  - intros before msg later -> Hd.
    now rewrite first_event_settles by (exact Hd || reflexivity).
  - intros before ev later -> Herr Hno.
    unfold Converter.settle, Converter.start.
    destruct (@rejected_before_end before ev later [] Herr Hno) as (first & e & Hin & He & Hp).
    exists first, e. rewrite Hp. auto.
Qed.

Example good_conversion_value :
  fst (convertOggToMp3 new_AudioConverter Demo.ogg Demo.good_runtime [])
  = Fulfilled [Byte.x49; Byte.x44; Byte.x33].
Proof. reflexivity. Qed.

(** Once the promise is settled, later events change nothing. *)
Example late_events_change_nothing :
  Converter.settle
    [ StreamData [Byte.x49]; CommandEnd; StreamData [Byte.x44];
      StreamError (lit "write after end") ]
  = Fulfilled [Byte.x49]
  /\
  Converter.settle
    [ StreamError (lit "premature close");
      CommandError (lit "Output stream error: premature close") ]
  = Rejected (JsError (lit "Stream error: premature close")).
Proof. split; reflexivity. Qed.

(** A stream error after the completion signal. *)
Example late_error_run_value :
  fst (convertOggToMp3 new_AudioConverter Demo.ogg More.late_error_runtime [])
  = Fulfilled [Byte.x49; Byte.x44].
Proof. reflexivity. Qed.

(** C7 as first stated lets any error event reject the promise.  An
    error event that comes after the completion signal finds the promise
    fulfilled: the run data, end, stream error returns the buffer. *)
Lemma convertOggToMp3_late_error_counterexample :
  ~ (forall this oggBuffer rt h ev,
        In ev (rt_ffmpeg rt h oggBuffer) ->
        is_error ev = true ->
        exists e, fst (convertOggToMp3 this oggBuffer rt h) = Rejected e).
Proof.
  intros claim.
  destruct (claim new_AudioConverter Demo.ogg More.late_error_runtime []
              (StreamError (lit "write after end"))) as (e & He).
  - right. right. left. reflexivity.
  - reflexivity.
  - rewrite late_error_run_value in He. discriminate He.
Qed.

Lemma convertOggToMp3_all_or_nothing_witness :
  fst (convertOggToMp3 new_AudioConverter Demo.ogg Demo.good_runtime [])
  = Fulfilled (concat (data_chunks [StreamData [Byte.x49; Byte.x44]; StreamData [Byte.x33]]))
  /\
  fst (convertOggToMp3 new_AudioConverter Demo.ogg Demo.broken_runtime [])
  = Rejected (JsError (lit "Audio conversion failed: ffmpeg exited with code 1")).
Proof.
  split.
  - apply (proj1 (@convertOggToMp3_all_or_nothing
                    new_AudioConverter Demo.ogg Demo.good_runtime [])).
    exists [StreamData [Byte.x49; Byte.x44]; StreamData [Byte.x33]], [].
    split; [reflexivity|]. split; reflexivity.
  - apply (proj1 (proj2 (proj2 (@convertOggToMp3_all_or_nothing
                                  new_AudioConverter Demo.ogg Demo.broken_runtime [])))
             [StreamData [Byte.x49; Byte.x44]]
             (lit "ffmpeg exited with code 1")
             [StreamError (lit "premature close")]).
    + reflexivity.
    + reflexivity.
Defined.

(* ================================================================== *)
(** ** Orchestrator *)
(* ================================================================== *)

Lemma load_utils_absent cfg :
  config_absent cfg ->
  load_utils cfg = {| sberTranscription := None; audioConverter := None |}.
Proof.
  unfold load_utils. intros [H|[H|H]].
  - now rewrite H.
  - now rewrite H.
  - destruct (SBER_CLIENT_SECRET cfg); [|reflexivity].
    now rewrite H, andb_false_r.
Qed.

Lemma transcribeVoice_all_disabled paths rt h u :
  sberTranscription u = None \/ audioConverter u = None ->
  transcribeVoice_all paths rt h u = (map (fun _ => Fulfilled None) paths, u, []).
Proof.
  intros Hu. revert h. induction paths as [|p paths IH]; intros h; [reflexivity|].
  cbn [transcribeVoice_all map].
  assert (H1 : transcribeVoice p rt h u = (Fulfilled None, u, [])).
  { unfold transcribeVoice.
    destruct (sberTranscription u), (audioConverter u), Hu; try discriminate; reflexivity. }
  rewrite H1, IH. reflexivity.
Qed.

(** C8.  When the credential is missing or the availability flag is unset,
    loading the module constructs neither the transcription client nor the
    converter, and every call of [transcribeVoice], however many follow one
    another, is fulfilled with [null], leaves the module state as it is and
    emits no event: no file read, no conversion, no request. *)
Theorem transcribeVoice_disabled_without_config cfg :
  config_absent cfg ->
  sberTranscription (load_utils cfg) = None /\
  audioConverter (load_utils cfg) = None /\
  forall paths rt h,
    transcribeVoice_all paths rt h (load_utils cfg)
    = (map (fun _ => Fulfilled None) paths, load_utils cfg, []).
Proof.
  intros H. rewrite (load_utils_absent H). cbn.
  split; [reflexivity|]. split; [reflexivity|].
  intros paths rt h. apply transcribeVoice_all_disabled. now left.
Qed.

Lemma transcribeVoice_disabled_without_config_witness :
  config_absent Demo.no_secret /\
  sberTranscription (load_utils Demo.no_secret) = None /\
  audioConverter (load_utils Demo.no_secret) = None /\
  forall paths rt h,
    transcribeVoice_all paths rt h (load_utils Demo.no_secret)
    = (map (fun _ => Fulfilled None) paths, load_utils Demo.no_secret, []).
Proof.
  assert (H : config_absent Demo.no_secret) by (left; reflexivity).
  split; [exact H|].
  exact (@transcribeVoice_disabled_without_config Demo.no_secret H).
Defined.

Example load_utils_configured :
  load_utils Demo.configured =
  {| sberTranscription := Some (new_SberTranscriptionService (lit "c2VjcmV0"));
     audioConverter := Some new_AudioConverter |}.
Proof. reflexivity. Qed.

(** C9 (amended).  [transcribeVoice] never rejects.  It stays pending
    exactly while the transcoder run of the call has settled nothing (the
    converter has no timeout); whenever that run settles the conversion
    promise, the call is fulfilled, with the transcript when reading,
    conversion and transcription all succeed, and with [null] when an
    error is raised by reading the file, by the conversion or by the
    transcription. *)
Theorem transcribeVoice_never_throws rt h u filePath r u' t :
  transcribeVoice filePath rt h u = (r, u', t) ->
  (forall e, r <> Rejected e) /\
  (r = Pending <->
   exists run rest, transcoder_runs t = run :: rest /\ Converter.settle run = Pending) /\
  ((forall run, In run (transcoder_runs t) -> settles run) ->
   r = Fulfilled None \/ exists transcript, r = Fulfilled (Some transcript)) /\
  (forall msg, rt_read_file rt h filePath = FileFailure msg -> r = Fulfilled None) /\
  (forall oggBuffer e,
      rt_read_file rt h filePath = FileBytes oggBuffer ->
      Converter.settle
        (rt_ffmpeg rt (h ++ [EvReadFile filePath (FileBytes oggBuffer)]) oggBuffer)
      = Rejected e ->
      r = Fulfilled None) /\
  (forall service oggBuffer mp3Buffer answer service' t3,
      sberTranscription u = Some service ->
      audioConverter u <> None ->
      rt_read_file rt h filePath = FileBytes oggBuffer ->
      let t1 := [EvReadFile filePath (FileBytes oggBuffer)] in
      let run := rt_ffmpeg rt (h ++ t1) oggBuffer in
      Converter.settle run = Fulfilled mp3Buffer ->
      transcribe mp3Buffer rt (h ++ t1 ++ [EvFfmpeg oggBuffer run]) service
      = (answer, service', t3) ->
      t = t1 ++ [EvFfmpeg oggBuffer run] ++ t3 /\
      r = match answer with
          | Normal transcript => Fulfilled (Some transcript)
          | Abrupt _ => Fulfilled None
          end).
Proof.
  assert (Hidle : (forall e, @Fulfilled (option JsString.t) None <> Rejected e) /\
                  (@Fulfilled (option JsString.t) None = Pending <->
                   exists run rest, @nil (list FfmpegEvent) = run :: rest /\
                                    Converter.settle run = Pending)).
  { split; [discriminate|]. split; [discriminate|].
    intros (run & rest & Hr & _). discriminate Hr. }
  unfold transcribeVoice, convertOggToMp3.
  destruct (sberTranscription u) as [service|] eqn:Hs.
  2:{ intros [= <- <- <-]. destruct Hidle as [H1 H2].
      split; [exact H1|]. split; [exact H2|].
      repeat split; intros; try discriminate; auto. }
  destruct (audioConverter u) as [converter|] eqn:Hc.
  2:{ intros [= <- <- <-]. destruct Hidle as [H1 H2].
      split; [exact H1|]. split; [exact H2|].
      repeat split; intros; try discriminate; try congruence; auto. }
  cbn zeta.
  destruct (rt_read_file rt h filePath) as [ogg|msg] eqn:Hf.
  2:{ intros [= <- <- <-]. destruct Hidle as [H1 H2].
      split; [exact H1|]. split; [exact H2|].
      repeat split; intros; try discriminate; auto. }
  set (t1 := [EvReadFile filePath (FileBytes ogg)]).
  set (run := rt_ffmpeg rt (h ++ t1) ogg).
  intros H.
  assert (Hrej : forall e, Converter.settle run = Rejected e -> r = Fulfilled None).
  { intros e He. rewrite He in H. now injection H as <- _ _. }
  assert (Hdone : forall mp3 answer service' t3,
             Converter.settle run = Fulfilled mp3 ->
             transcribe mp3 rt (h ++ t1 ++ [EvFfmpeg ogg run]) service
             = (answer, service', t3) ->
             t = t1 ++ [EvFfmpeg ogg run] ++ t3 /\
             r = match answer with
                 | Normal transcript => Fulfilled (Some transcript)
                 | Abrupt _ => Fulfilled None
                 end).
  { intros mp3 answer service' t3 He Ht. rewrite He, Ht in H.
    destruct answer; injection H as <- _ <-; auto. }
  split; [|split; [|split; [|split; [|split]]]].
  - intros e ->.
    destruct (Converter.settle run) as [|mp3|e0]; [discriminate H| |discriminate H].
    destruct (transcribe mp3 rt (h ++ t1 ++ [EvFfmpeg ogg run]) service)
      as [[[transcript|e1] service'] t3]; discriminate H.
  - destruct (Converter.settle run) as [|mp3|e0] eqn:Hrun.
    + injection H as <- _ <-. split; [|reflexivity].
      intros _. exists run, []. split; [reflexivity|exact Hrun].
    + destruct (transcribe mp3 rt (h ++ t1 ++ [EvFfmpeg ogg run]) service)
        as [[answer service'] t3] eqn:Ht.
      destruct (Hdone mp3 answer service' t3 eq_refl Ht) as [-> ->].
      split; [destruct answer; discriminate|].
      intros (run' & rest & Hr & Hp). exfalso.
      cbn [app transcoder_runs t1] in Hr. injection Hr as <- _. congruence.
    + injection H as <- _ <-. split; [discriminate|].
      intros (run' & rest & Hr & Hp). exfalso.
      cbn [app transcoder_runs t1] in Hr. injection Hr as <- _. congruence.
  - intros Hsettle.
    destruct (Converter.settle run) as [|mp3|e0] eqn:Hrun.
    + exfalso. apply (Hsettle run); [|exact Hrun].
      injection H as _ _ <-. cbn. now left.
    + destruct (transcribe mp3 rt (h ++ t1 ++ [EvFfmpeg ogg run]) service)
        as [[[transcript|e1] service'] t3]; injection H as <- _ _; eauto.
    + injection H as <- _ _. now left.
  - intros msg [=].
  - intros oggBuffer e [= <-]. apply Hrej.
  - intros service0 oggBuffer mp3Buffer answer service' t3 [= <-] _ [= <-]. cbn zeta.
    apply Hdone.
Qed.

Example pipeline_run_value :
  completion Demo.pipeline_run = Fulfilled (Some (lit "hello world")) /\
  file_reads (trace Demo.pipeline_run) = [FileBytes Demo.ogg] /\
  transcoder_runs (trace Demo.pipeline_run) = [Demo.good_conversion] /\
  oauth_requests (trace Demo.pipeline_run) = [Demo.token_response "token-1"] /\
  recognition_attempts (trace Demo.pipeline_run) = [Demo.result_response Demo.hello_world].
Proof. vm_compute. repeat split; reflexivity. Qed.

Example failing_pipelines :
  completion Demo.missing_file_run = Fulfilled None /\
  completion Demo.broken_pipeline_run = Fulfilled None /\
  completion Demo.no_auth_run = Fulfilled None.
Proof. vm_compute. repeat split; reflexivity. Qed.

(** A transcoder that never finishes: no request is ever sent. *)
Example hanging_run_value :
  completion More.hanging_run = Pending /\
  transcoder_runs (trace More.hanging_run) = [More.hanging_conversion] /\
  oauth_requests (trace More.hanging_run) = [] /\
  recognition_attempts (trace More.hanging_run) = [].
Proof. vm_compute. repeat split; reflexivity. Qed.

(** C9 as first stated has every call resolve.  A transcoder that
    delivers output and then neither completes nor fails leaves the
    conversion promise, and with it the call, pending. *)
Lemma transcribeVoice_hanging_counterexample :
  ~ (forall rt h u filePath r u' t,
        transcribeVoice filePath rt h u = (r, u', t) ->
        r = Fulfilled None \/ exists transcript, r = Fulfilled (Some transcript)).
Proof.
  intros claim.
  destruct (claim More.hanging_runtime [] (load_utils Demo.configured) Demo.voice_path
              _ _ _ (run_eta More.hanging_run)) as [H|(transcript & H)];
    rewrite (proj1 hanging_run_value) in H; discriminate H.
Qed.

Lemma transcribeVoice_never_throws_witness :
  (forall e, completion Demo.pipeline_run <> Rejected e) /\
  completion Demo.pipeline_run <> Pending /\
  completion Demo.pipeline_run = Fulfilled (Some (lit "hello world")) /\
  completion Demo.broken_pipeline_run = Fulfilled None.
Proof.
  destruct (@transcribeVoice_never_throws Demo.pipeline_runtime []
              (load_utils Demo.configured) Demo.voice_path
              (completion Demo.pipeline_run) (final_state Demo.pipeline_run)
              (trace Demo.pipeline_run) (run_eta Demo.pipeline_run))
    as (Hnever & Hpending & _ & _ & _ & Hdone).
  split; [exact Hnever|].
  split.
  { intros Hp. apply Hpending in Hp as (run & rest & Hr & Hs).
    vm_compute in Hr. injection Hr as <- _. vm_compute in Hs. discriminate Hs. }
  split.
  - refine (proj2 (Hdone (new_SberTranscriptionService (lit "c2VjcmV0")) Demo.ogg
                     [Byte.x49; Byte.x44; Byte.x33]
                     (Normal (lit "hello world")) _ _ eq_refl _ eq_refl eq_refl _)).
    + discriminate.
    + apply run_eta.
  - destruct (@transcribeVoice_never_throws Demo.broken_pipeline_runtime []
                (load_utils Demo.configured) Demo.voice_path
                (completion Demo.broken_pipeline_run) (final_state Demo.broken_pipeline_run)
                (trace Demo.broken_pipeline_run) (run_eta Demo.broken_pipeline_run))
      as (_ & _ & _ & _ & Hrejected & _).
    apply (Hrejected Demo.ogg
             (JsError (lit "Audio conversion failed: ffmpeg exited with code 1")));
      reflexivity.
Defined.

(* ================================================================== *)
(** ** Further properties of the token cache *)
(* ================================================================== *)

Lemma requestToken_trace rt h this r this' t :
  requestToken this rt h this = (r, this', t) ->
  exists rqUID out tail,
    t = [EvRandomUUID rqUID; EvPost TOKEN_URL oauth_body (oauth_config this rqUID) out]
        ++ tail /\
    out = rt_post rt (h ++ [EvRandomUUID rqUID]) TOKEN_URL oauth_body
            (oauth_config this rqUID) /\
    (tail = [] \/ exists now, tail = [EvDateNow now]) /\
    (forall st d, out = HttpResponse st d -> is_2xx st = false -> tail = []) /\
    (forall msg, out = HttpFailure msg -> tail = []).
Proof.
  rewrite requestToken_run. cbn zeta.
  set (u := rt_random_uuid rt h).
  remember (rt_post rt (h ++ [EvRandomUUID u]) TOKEN_URL oauth_body (oauth_config this u))
    as out eqn:Eout.
  intros H. exists u, out.
  destruct out as [st d|msg].
  - destruct (is_2xx st) eqn:E2.
    + destruct (Js.is_nullish d).
      * injection H as <- <- <-. exists []. repeat split; auto; congruence.
      * injection H as <- <- <-. eexists. split; [reflexivity|].
        split; [exact Eout|]. split; [right; eauto|].
        split; [|discriminate]. intros st' d' [= <- <-]. congruence.
    + injection H as <- <- <-. exists []. repeat split; auto.
  - injection H as <- <- <-. exists []. repeat split; auto.
Qed.

(** X1.  The cache decides: a call sends an OAuth request exactly when the
    test of line 34 fails. *)
Theorem getAuthToken_requests_iff_not_valid rt h this r this' t :
  getAuthToken rt h this = (r, this', t) ->
  (oauth_requests t = [] <-> still_valid (rt_date_now rt h) this).
Proof.
  intros H.
  destruct (getAuthToken_cases rt h this) as [[Hv Heq]|[Hn _]].
  - rewrite Heq in H. injection H as <- <- <-. split; auto.
  - apply getAuthToken_stale in H as (out & Ho & _); [|exact Hn].
    rewrite Ho. split; [discriminate|contradiction].
Qed.

Lemma getAuthToken_requests_iff_not_valid_witness :
  oauth_requests (trace Demo.refresh_run) = []
  <-> still_valid (rt_date_now Demo.refresh_runtime []) Demo.stale_service.
Proof.
  exact (@getAuthToken_requests_iff_not_valid Demo.refresh_runtime [] Demo.stale_service
           (completion Demo.refresh_run) (final_state Demo.refresh_run)
           (trace Demo.refresh_run) (run_eta Demo.refresh_run)).
Defined.




(** A response without [expires_at] buys twenty-five minutes of reuse. *)
Example default_reuse_window :
  lifetime_of (JObj [ (lit "access_token", JStr (lit "token-1")) ]) = Some 1800 /\
  1800 * 1000 - 300000 = 25 * 60 * 1000.
Proof. split; reflexivity. Qed.

(** X3.  Failures are not cached.  When [getAuthToken] has failed, whatever it
    left in the object, the next call sends a new OAuth request, provided
    the clock has not gone backwards in between.  (Stated for an endpoint
    that answers with primitive values: see [primitive].) *)
Theorem failed_acquisition_is_not_cached rt h this e this' t h2 r2 this2 t2 :
  getAuthToken rt h this = (Abrupt e, this', t) ->
  forallb plain_answer (oauth_requests t) = true ->
  (rt_date_now rt h <= rt_date_now rt h2)%N ->
  getAuthToken rt h2 this' = (r2, this2, t2) ->
  exists out, oauth_requests t2 = [out].
Proof.
  intros H _ Hclock H2.
  assert (Hn : ~ still_valid (rt_date_now rt h) this).
  { intros Hv. destruct (getAuthToken_valid rt h Hv) as (t0 & Heq & _).
    rewrite Heq in H. discriminate H. }
  assert (Hn2 : ~ still_valid (rt_date_now rt h2) this').
  { apply getAuthToken_stale in H as (out & _ & _ & Hout); [|exact Hn].
    assert (Hsame : this' = this -> ~ still_valid (rt_date_now rt h2) this').
    { intros -> [Htok (x & Hx & Hlt)]. apply Hn. split; [exact Htok|].
      exists x. split; [exact Hx|]. lia. }
    unfold token_request_answer in Hout.
    destruct out as [st d|msg]; [|now apply Hsame].
    destruct (is_2xx st); [|now apply Hsame].
    destruct (Js.is_nullish d); [now apply Hsame|].
    destruct Hout as (pre & _ & -> & Hr). intros [Htok _]. cbn [cachedToken] in Htok.
    rewrite Htok in Hr. discriminate Hr. }
  apply getAuthToken_stale in H2 as (out & Ho & _); [|exact Hn2].
  eauto.
Qed.

Lemma failed_acquisition_is_not_cached_witness :
  exists out,
    oauth_requests
      (trace (getAuthToken Demo.timeout_runtime (trace Demo.timeout_run)
                (final_state Demo.timeout_run))) = [out].
Proof.
  apply (@failed_acquisition_is_not_cached Demo.timeout_runtime [] Demo.fresh_service
           (JsError (lit "Sber authentication failed: timeout of 30000ms exceeded"))
           (final_state Demo.timeout_run) (trace Demo.timeout_run)
           (trace Demo.timeout_run)
           (completion (getAuthToken Demo.timeout_runtime (trace Demo.timeout_run)
                          (final_state Demo.timeout_run)))
           (final_state (getAuthToken Demo.timeout_runtime (trace Demo.timeout_run)
                           (final_state Demo.timeout_run)))).
  - vm_compute. reflexivity.
  - vm_compute. reflexivity.
  - vm_compute. discriminate.
  - apply run_eta.
Defined.

(* ================================================================== *)
(** ** Further properties of the transcription client *)
(* ================================================================== *)

Lemma service_event_secret a b audio ev :
  clientSecret a = clientSecret b ->
  service_event a audio ev -> service_event b audio ev.
Proof.
  intros Hs. destruct ev; cbn; auto.
  intros [(Hu & Hb & u & Hc)|H]; [left|now right].
  repeat split; auto. exists u. rewrite Hc. unfold oauth_config. now rewrite Hs.
Qed.

Lemma getAuthToken_events rt h this r this' t audio :
  getAuthToken rt h this = (r, this', t) ->
  Forall (service_event this audio) t.
Proof.
  intros H.
  destruct (getAuthToken_cases rt h this) as [[_ Heq]|[_ (pre & Hpre & Heq)]];
    rewrite Heq in H.
  - injection H as <- <- <-. repeat constructor.
  - apply after_eq in H as (t' & H & ->).
    apply requestToken_trace in H as (u & out & tail & -> & _ & Htail & _).
    apply Forall_app. split.
    { destruct Hpre as [->| ->]; repeat constructor. }
    apply Forall_app. split.
    + constructor; [exact I|]. constructor; [|constructor].
      left. repeat split. now exists u.
    + destruct Htail as [->|(now & ->)]; repeat constructor.
Qed.

Lemma recognise_events rt h this audio r this' t :
  recognise audio rt h this = (r, this', t) ->
  Forall (service_event this audio) t /\ clientSecret this' = clientSecret this.
Proof.
  intros H.
  destruct (recognise_spec _ _ _ _ H)
    as [(cause & Hg & _ & _)|(token & t1 & out & Hg & _ & -> & _ & _ & _)].
  - split; [now apply (getAuthToken_events _ _ _ audio Hg)|].
    now apply getAuthToken_summary in Hg.
  - destruct (getAuthToken_summary _ _ _ Hg) as (_ & _ & Hs & _ & Htruthy).
    split; [|exact Hs].
    apply Forall_app. split; [now apply (getAuthToken_events _ _ _ audio Hg)|].
    constructor; [|constructor]. right. repeat split. now exists token.
Qed.

Lemma transcribeWithRetry_events rt h this audio isRetry r this' t :
  transcribeWithRetry audio isRetry rt h this = (r, this', t) ->
  Forall (service_event this audio) t /\ clientSecret this' = clientSecret this.
Proof.
  assert (Hretry : forall h0 this0 r0 this0' t0,
             transcribeWithRetry audio true rt h0 this0 = (r0, this0', t0) ->
             Forall (service_event this0 audio) t0
             /\ clientSecret this0' = clientSecret this0).
  { intros h0 this0 r0 this0' t0 H0. rewrite transcribeWithRetry_run in H0.
    destruct (recognise audio rt h0 this0) as [[[text|error] this1] t1] eqn:Hrec.
    - injection H0 as <- <- <-. now apply recognise_events in Hrec.
    - rewrite andb_false_r in H0. injection H0 as <- <- <-.
      now apply recognise_events in Hrec. }
  intros H.
  destruct (transcribeWithRetry_spec _ _ _ _ _ H)
    as [(cause & _)|[(out & _ & _ & Hrec & _)|(-> & d & this1 & t1 & t2 & Hrec & _ & -> & Hr)]].
  - rewrite transcribeWithRetry_run in H.
    destruct (recognise audio rt h this) as [[[text|error] this1] t1] eqn:Hrec.
    + injection H as <- <- <-. now apply recognise_events in Hrec.
    + destruct (is_axios_status error 401 && negb isRetry) eqn:E.
      * apply after_eq in H as (t2 & H & ->).
        apply andb_true_iff in E as [_ E]. destruct isRetry; [discriminate E|].
        apply recognise_events in Hrec as [He Hs].
        apply Hretry in H as [He2 Hs2]. cbn [invalidated clientSecret] in Hs2.
        split; [|congruence].
        apply Forall_app. split; [exact He|].
        eapply Forall_impl; [|exact He2].
        intros ev. apply service_event_secret. exact Hs.
      * injection H as <- <- <-. now apply recognise_events in Hrec.
  - now apply recognise_events in Hrec.
  - apply recognise_events in Hrec as [He Hs].
    apply Hretry in Hr as [He2 Hs2]. cbn [invalidated clientSecret] in Hs2.
    split; [|congruence].
    apply Forall_app. split; [exact He|].
    eapply Forall_impl; [|exact He2].
    intros ev. apply service_event_secret. exact Hs.
Qed.

(** X4.  Everything a [transcribe] call does outside itself: it reads the
    clock, draws UUIDs, and sends OAuth requests that carry
    ["Basic " + clientSecret] and the fixed scope, and recognition requests
    whose body is the audio buffer as given and whose bearer token is a
    truthy value.  It reads no file and runs no transcoder, and it never
    changes [clientSecret]. *)
Theorem transcribe_events rt h this audio r this' t :
  transcribe audio rt h this = (r, this', t) ->
  Forall (service_event this audio) t /\
  file_reads t = [] /\
  transcoder_runs t = [] /\
  clientSecret this' = clientSecret this.
Proof.
  intros H. apply transcribeWithRetry_events in H as [He Hs].
  split; [exact He|]. split; [|split; [|exact Hs]].
  - induction He as [|ev t Hev _ IH]; [reflexivity|].
    destruct ev; cbn in *; try exact IH; contradiction.
  - induction He as [|ev t Hev _ IH]; [reflexivity|].
    destruct ev; cbn in *; try exact IH; contradiction.
Qed.

Lemma transcribe_events_witness :
  Forall (service_event Demo.warm_service Demo.audio) (trace Demo.retry_run) /\
  file_reads (trace Demo.retry_run) = [] /\
  transcoder_runs (trace Demo.retry_run) = [] /\
  clientSecret (final_state Demo.retry_run) = clientSecret Demo.warm_service.
Proof.
  exact (@transcribe_events Demo.retry_runtime [] Demo.warm_service Demo.audio
           (completion Demo.retry_run) (final_state Demo.retry_run)
           (trace Demo.retry_run) (run_eta Demo.retry_run)).
Defined.

Lemma retry_is_recognise rt h this audio r this' t :
  transcribeWithRetry audio true rt h this = (r, this', t) ->
  exists r0, recognise audio rt h this = (r0, this', t).
Proof.
  rewrite transcribeWithRetry_run.
  destruct (recognise audio rt h this) as [[[text|error] this1] t1].
  - intros [= <- <- <-]. eauto.
  - rewrite andb_false_r. intros [= <- <- <-]. eauto.
Qed.

Lemma recognise_oauth_bound rt h this audio r this' t :
  recognise audio rt h this = (r, this', t) ->
  (length (oauth_requests t) <= 1)%nat.
Proof.
  intros H.
  destruct (recognise_spec _ _ _ _ H)
    as [(cause & Hg & _ & _)|(token & t1 & out & Hg & _ & _ & _ & -> & _)];
    now apply getAuthToken_summary in Hg.
Qed.

(** X5.  A [transcribe] call sends at most two OAuth requests, and it sends a
    second one only after the recognition endpoint has answered its first
    request with 401. *)
Theorem transcribe_oauth_bound rt h this audio r this' t :
  transcribe audio rt h this = (r, this', t) ->
  (length (oauth_requests t) <= 2)%nat /\
  (length (oauth_requests t) = 2%nat ->
   exists d rest, recognition_attempts t = HttpResponse 401 d :: rest).
Proof.
  unfold transcribe. intros H. rewrite transcribeWithRetry_run in H.
  destruct (recognise audio rt h this) as [[r1 this1] t1] eqn:Hrec.
  pose proof (recognise_oauth_bound _ _ _ _ Hrec) as Hb1.
  assert (Hone : t = t1 ->
            (length (oauth_requests t) <= 2)%nat /\
            (length (oauth_requests t) = 2%nat ->
             exists d rest, recognition_attempts t = HttpResponse 401 d :: rest)).
  { intros ->. split; lia. }
  destruct r1 as [text|error].
  { injection H as _ _ <-. now apply Hone. }
  destruct (is_axios_status error 401 && negb false) eqn:E.
  2:{ injection H as _ _ <-. now apply Hone. }
  apply after_eq in H as (t2 & H & ->).
  destruct (retry_is_recognise _ _ _ _ H) as (r0 & Hrec2).
  pose proof (recognise_oauth_bound _ _ _ _ Hrec2) as Hb2.
  unfold oauth_requests, recognition_attempts in *. rewrite !posts_to_app, length_app.
  split; [lia|]. intros _.
  destruct (recognise_spec _ _ _ _ Hrec)
    as [(cause & _ & [= ->] & _)|(token & t0 & out & _ & _ & _ & Hr & _ & Hans)].
  { discriminate E. }
  unfold recognition_attempts in Hr. rewrite Hr.
  assert (Hout : error = axios_rejection out).
  { destruct out as [st d|msg]; cbn in Hans.
    - destruct (is_2xx st); [discriminate|]. now injection Hans.
    - now injection Hans. }
  rewrite Hout, is_axios_status_rejection, andb_true_r in E.
  destruct out as [st d|msg]; [|discriminate E].
  cbn in E. apply Z.eqb_eq in E. subst st. cbn [app]. eauto.
Qed.

Example double_refresh_run_value :
  completion More.double_refresh_run = Normal (lit "hello world") /\
  oauth_requests (trace More.double_refresh_run)
  = [Demo.token_response "token-1"; Demo.token_response "token-2"] /\
  cachedToken (final_state More.double_refresh_run) = JStr (lit "token-2").
Proof. vm_compute. repeat split; reflexivity. Qed.

Lemma transcribe_oauth_bound_witness :
  (length (oauth_requests (trace More.double_refresh_run)) <= 2)%nat /\
  (length (oauth_requests (trace More.double_refresh_run)) = 2%nat ->
   exists d rest,
     recognition_attempts (trace More.double_refresh_run) = HttpResponse 401 d :: rest).
Proof.
  exact (@transcribe_oauth_bound More.double_refresh_runtime [] Demo.stale_service
           Demo.audio (completion More.double_refresh_run)
           (final_state More.double_refresh_run)
           (trace More.double_refresh_run) (run_eta More.double_refresh_run)).
Defined.

Lemma recognise_valid rt h this audio :
  still_valid (rt_date_now rt h) this ->
  exists t0,
    (forall url, posts_to url t0 = []) /\
    let request out := EvPost SPEECH_URL (BinaryBody audio)
                         (speech_config (cachedToken this)) out in
    let out := rt_post rt (h ++ t0) SPEECH_URL (BinaryBody audio)
                 (speech_config (cachedToken this)) in
    recognise audio rt h this = (recognition_answer out, this, t0 ++ [request out]).
Proof.
  intros Hv. destruct (getAuthToken_valid rt h Hv) as (t0 & Hg & Hp).
  exists t0. split; [exact Hp|]. cbn zeta.
  rewrite recognise_run, Hg. cbn zeta. unfold recognition_answer.
  destruct (rt_post rt (h ++ t0) SPEECH_URL (BinaryBody audio)
              (speech_config (cachedToken this))) as [st d|msg]; reflexivity.
Qed.

Lemma transcribe_valid_run rt h this audio r this' t :
  still_valid (rt_date_now rt h) this ->
  transcribe audio rt h this = (r, this', t) ->
  (forall d rest, recognition_attempts t <> HttpResponse 401 d :: rest) ->
  exists t0 out,
    (forall url, posts_to url t0 = []) /\
    r = final_answer out /\
    this' = this /\
    t = t0 ++ [EvPost SPEECH_URL (BinaryBody audio) (speech_config (cachedToken this)) out].
Proof.
  intros Hv H Hno401.
  destruct (@recognise_valid rt h this audio Hv) as (t0 & Hp & Hrec). cbn zeta in Hrec.
  set (out := rt_post rt (h ++ t0) SPEECH_URL (BinaryBody audio)
                (speech_config (cachedToken this))) in *.
  exists t0, out. split; [exact Hp|].
  unfold transcribe in H. rewrite transcribeWithRetry_run, Hrec in H.
  unfold final_answer.
  destruct (recognition_answer out) as [text|error] eqn:Ha.
  { now injection H as <- <- <-. }
  assert (He : error = axios_rejection out).
  { destruct out as [st d|msg]; cbn in Ha.
    - destruct (is_2xx st); [discriminate|]. now injection Ha.
    - now injection Ha. }
  rewrite He, is_axios_status_rejection, andb_true_r in H.
  destruct (is_401 out) eqn:E401.
  - exfalso. apply after_eq in H as (t2 & _ & ->).
    destruct out as [st d|msg]; [|discriminate E401].
    cbn in E401. apply Z.eqb_eq in E401. subst st.
    apply (Hno401 d (recognition_attempts t2)).
    unfold recognition_attempts. rewrite !posts_to_app, Hp. cbn [posts_to app].
    now rewrite eqb_refl.
  - injection H as <- <- <-. now rewrite He.
Qed.

(** X6.  With a valid token in the cache (a string, as the class declares
    it), and unless the recognition endpoint answers 401, a [transcribe]
    call sends exactly one request, the recognition request with the
    cached token as bearer, and leaves the object as it was; this holds
    whether the request succeeds or fails. *)
Theorem transcribe_with_valid_token rt h this audio token r this' t :
  cachedToken this = JStr token ->
  still_valid (rt_date_now rt h) this ->
  transcribe audio rt h this = (r, this', t) ->
  (forall d rest, recognition_attempts t <> HttpResponse 401 d :: rest) ->
  this' = this /\
  oauth_requests t = [] /\
  exists out,
    recognition_attempts t = [out] /\
    In (EvPost SPEECH_URL (BinaryBody audio) (speech_config (JStr token)) out) t.
Proof.
  intros Htok Hv H Hno401.
  destruct (@transcribe_valid_run _ _ _ _ _ _ _ Hv H Hno401) as (t0 & out & Hp & _ & -> & ->).
  split; [reflexivity|].
  unfold oauth_requests, recognition_attempts. rewrite !posts_to_app, !Hp.
  cbn [posts_to app]. rewrite eqb_refl, speech_url_not_token_url.
  split; [reflexivity|]. exists out. split; [reflexivity|].
  rewrite <- Htok. apply in_or_app. right. now left.
Qed.


Example warm_runs_value :
  completion More.warm_first = Normal (lit "hello world") /\
  completion More.warm_second = Normal (lit "again") /\
  final_state More.warm_second = Demo.warm_service /\
  oauth_requests (trace More.warm_first ++ trace More.warm_second) = [].
Proof. vm_compute. repeat split; reflexivity. Qed.

Lemma transcribe_with_valid_token_witness :
  final_state More.warm_first = Demo.warm_service /\
  oauth_requests (trace More.warm_first) = [] /\
  exists out,
    recognition_attempts (trace More.warm_first) = [out] /\
    In (EvPost SPEECH_URL (BinaryBody Demo.audio)
          (speech_config (JStr (lit "token-0"))) out) (trace More.warm_first).
Proof.
  apply (@transcribe_with_valid_token More.warm_runtime [] Demo.warm_service Demo.audio
           (lit "token-0")
           (completion More.warm_first) (final_state More.warm_first)
           (trace More.warm_first)).
  - reflexivity.
  - split; [reflexivity|].
    exists (1700000000000 + 1800000). split; [reflexivity|]. vm_compute. reflexivity.
  - apply run_eta.
  - intros d rest. vm_compute. discriminate.
Defined.

(** X7.  Two calls in a row on a cache that holds a string and is valid at
    both, neither answered 401: no OAuth request at all, two recognition
    requests, and the object after the second call is the object before
    the first. *)
Theorem transcribe_twice_with_valid_token
    rt h this audio token r1 this1 t1 r2 this2 t2 :
  cachedToken this = JStr token ->
  still_valid (rt_date_now rt h) this ->
  transcribe audio rt h this = (r1, this1, t1) ->
  (forall d rest, recognition_attempts t1 <> HttpResponse 401 d :: rest) ->
  still_valid (rt_date_now rt (h ++ t1)) this ->
  transcribe audio rt (h ++ t1) this1 = (r2, this2, t2) ->
  (forall d rest, recognition_attempts t2 <> HttpResponse 401 d :: rest) ->
  this2 = this /\
  oauth_requests (t1 ++ t2) = [] /\
  exists out1 out2,
    recognition_attempts (t1 ++ t2) = [out1; out2] /\
    In (EvPost SPEECH_URL (BinaryBody audio) (speech_config (JStr token)) out1) t1 /\
    In (EvPost SPEECH_URL (BinaryBody audio) (speech_config (JStr token)) out2) t2.
Proof.
  intros Htok Hv1 H1 Hn1 Hv2 H2 Hn2.
  destruct (@transcribe_valid_run _ _ _ _ _ _ _ Hv1 H1 Hn1) as (a & out1 & Hp1 & _ & -> & ->).
  destruct (@transcribe_valid_run _ _ _ _ _ _ _ Hv2 H2 Hn2) as (b & out2 & Hp2 & _ & -> & ->).
  split; [reflexivity|].
  unfold oauth_requests, recognition_attempts.
  rewrite !posts_to_app, !Hp1, !Hp2. cbn [posts_to app].
  rewrite eqb_refl, speech_url_not_token_url.
  split; [reflexivity|]. exists out1, out2. rewrite <- Htok.
  split; [reflexivity|]. split; apply in_or_app; right; now left.
Qed.

Lemma transcribe_twice_with_valid_token_witness :
  final_state More.warm_second = Demo.warm_service /\
  oauth_requests (trace More.warm_first ++ trace More.warm_second) = [] /\
  exists out1 out2,
    recognition_attempts (trace More.warm_first ++ trace More.warm_second)
    = [out1; out2] /\
    In (EvPost SPEECH_URL (BinaryBody Demo.audio)
          (speech_config (JStr (lit "token-0"))) out1) (trace More.warm_first) /\
    In (EvPost SPEECH_URL (BinaryBody Demo.audio)
          (speech_config (JStr (lit "token-0"))) out2) (trace More.warm_second).
Proof.
  apply (@transcribe_twice_with_valid_token More.warm_runtime [] Demo.warm_service
           Demo.audio (lit "token-0")
           (completion More.warm_first) (final_state More.warm_first)
           (trace More.warm_first)
           (completion More.warm_second) (final_state More.warm_second)
           (trace More.warm_second)).
  - reflexivity.
  - split; [reflexivity|].
    exists (1700000000000 + 1800000). split; [reflexivity|]. vm_compute. reflexivity.
  - apply run_eta.
  - intros d rest. vm_compute. discriminate.
  - split; [reflexivity|].
    exists (1700000000000 + 1800000). split; [reflexivity|]. vm_compute. reflexivity.
  - apply run_eta.
  - intros d rest. vm_compute. discriminate.
Defined.

Lemma getAuthToken_failure_state rt h this e this' t :
  getAuthToken rt h this = (Abrupt e, this', t) ->
  this' = this \/ Js.truthy (cachedToken this') = false.
Proof.
  intros H.
  assert (Hn : ~ still_valid (rt_date_now rt h) this).
  { intros Hv. destruct (getAuthToken_valid rt h Hv) as (t0 & Heq & _).
    rewrite Heq in H. discriminate H. }
  apply getAuthToken_stale in H as (out & _ & _ & Hout); [|exact Hn].
  unfold token_request_answer in Hout.
  destruct out as [st d|msg]; [|left; apply Hout].
  destruct (is_2xx st); [|left; apply Hout].
  destruct (Js.is_nullish d); [left; apply Hout|].
  destruct Hout as (pre & _ & -> & Hr). right. cbn [cachedToken].
  destruct (Js.truthy (Js.opt_member d (lit "access_token"))); [discriminate Hr|reflexivity].
Qed.

(** When the OAuth endpoint does not answer 2xx (a 401 included) or does
    not answer at all, that request is the last thing the call does:
    [getAuthToken] fails with the [AuthError] of that answer. *)
Lemma getAuthToken_failed_request rt h this r this' t out :
  getAuthToken rt h this = (r, this', t) ->
  In out (oauth_requests t) ->
  succeeded out = false ->
  r = Abrupt (AuthError (error_message (axios_rejection out))) /\
  exists pre rqUID,
    t = pre ++ [EvPost TOKEN_URL oauth_body (oauth_config this rqUID) out].
Proof.
  intros H Hin Hfail.
  destruct (getAuthToken_cases rt h this) as [[_ Heq]|[Hn (pre & Hpre & Heq)]].
  { rewrite Heq in H. injection H as <- <- <-. destruct Hin. }
  pose proof H as H'. apply getAuthToken_stale in H' as (out' & Ho & _ & Hans); [|exact Hn].
  rewrite Ho in Hin. destruct Hin as [->|[]].
  rewrite Heq in H. apply after_eq in H as (t' & H & ->).
  apply requestToken_trace in H as (u & out0 & tail & -> & _ & _ & Hnon & Hfailure).
  assert (out0 = out).
  { unfold oauth_requests in Ho. rewrite !posts_to_app in Ho.
    replace (posts_to TOKEN_URL pre) with (@nil HttpOutcome) in Ho
      by (destruct Hpre as [->| ->]; reflexivity).
    cbn [app posts_to] in Ho. rewrite eqb_refl in Ho. now injection Ho. }
  subst out0. unfold token_request_answer in Hans.
  destruct out as [st d|msg]; cbn [succeeded] in Hfail.
  - rewrite Hfail in Hans. destruct Hans as [-> _]. split; [reflexivity|].
    rewrite (Hnon st d eq_refl Hfail), app_nil_r.
    exists (pre ++ [EvRandomUUID u]), u. now rewrite <- app_assoc.
  - destruct Hans as [-> _]. split; [reflexivity|].
    rewrite (Hfailure msg eq_refl), app_nil_r.
    exists (pre ++ [EvRandomUUID u]), u. now rewrite <- app_assoc.
Qed.

Lemma oauth_config_secret a b rqUID :
  clientSecret a = clientSecret b -> oauth_config a rqUID = oauth_config b rqUID.
Proof. intros H. unfold oauth_config. now rewrite H. Qed.

Lemma recognise_failed_request rt h this audio r this' t out :
  recognise audio rt h this = (r, this', t) ->
  In out (oauth_requests t) ->
  succeeded out = false ->
  r = Abrupt (AuthError (error_message (axios_rejection out))) /\
  exists pre rqUID,
    t = pre ++ [EvPost TOKEN_URL oauth_body (oauth_config this rqUID) out].
Proof.
  intros H Hin Hfail.
  destruct (recognise_spec _ _ _ _ H)
    as [(cause & Hg & -> & _)|(token & t1 & o & Hg & _ & _ & _ & Ho & _)].
  - destruct (@getAuthToken_failed_request _ _ _ _ _ _ _ Hg Hin Hfail) as ([= ->] & Hshape).
    auto.
  - rewrite Ho in Hin.
    destruct (@getAuthToken_failed_request _ _ _ _ _ _ _ Hg Hin Hfail) as ([=] & _).
Qed.

(** X8.  The OAuth endpoint's own refusals are final.  When an OAuth request of
    a [transcribe] call is answered outside 2xx (a 401 included) or not at
    all, nothing follows it: the call fails with a [TranscriptionError]
    that wraps the [AuthError] of that answer, and the 401-retry of the
    recognition path does not apply. *)
Theorem oauth_refusal_ends_transcribe rt h this audio r this' t out :
  transcribe audio rt h this = (r, this', t) ->
  In out (oauth_requests t) ->
  succeeded out = false ->
  r = Abrupt (TranscriptionError
                (lit "Sber authentication failed: "
                   ++ error_message (axios_rejection out))) /\
  exists pre rqUID,
    t = pre ++ [EvPost TOKEN_URL oauth_body (oauth_config this rqUID) out].
Proof.
  unfold transcribe. intros H Hin Hfail. rewrite transcribeWithRetry_run in H.
  destruct (recognise audio rt h this) as [[r1 this1] t1] eqn:Hrec.
  assert (Hfirst : In out (oauth_requests t1) ->
            r1 = Abrupt (AuthError (error_message (axios_rejection out))) /\
            exists pre rqUID,
              t1 = pre ++ [EvPost TOKEN_URL oauth_body (oauth_config this rqUID) out]).
  { intros Hin1. exact (@recognise_failed_request _ _ _ _ _ _ _ _ Hrec Hin1 Hfail). }
  destruct r1 as [text|error].
  { injection H as _ _ <-. now destruct (Hfirst Hin). }
  destruct (is_axios_status error 401 && negb false) eqn:E.
  - apply after_eq in H as (t2 & H & ->).
    unfold oauth_requests in Hin. rewrite posts_to_app in Hin.
    apply in_app_or in Hin as [Hin|Hin].
    { destruct (Hfirst Hin) as ([= ->] & _). discriminate E. }
    rewrite transcribeWithRetry_run in H.
    destruct (recognise audio rt (h ++ t1) (invalidated this1))
      as [[r2 this2] t2'] eqn:Hrec2.
    assert (Hs : clientSecret (invalidated this1) = clientSecret this).
    { now apply recognise_events in Hrec. }
    destruct r2 as [text|error2].
    + injection H as _ _ <-.
      now destruct (@recognise_failed_request _ _ _ _ _ _ _ _ Hrec2 Hin Hfail).
    + rewrite andb_false_r in H. injection H as <- _ <-.
      destruct (@recognise_failed_request _ _ _ _ _ _ _ _ Hrec2 Hin Hfail)
        as ([= ->] & pre & u & ->).
      split; [reflexivity|]. exists (t1 ++ pre), u.
      rewrite <- app_assoc. now rewrite (@oauth_config_secret _ _ u Hs).
  - injection H as <- _ <-.
    destruct (Hfirst Hin) as ([= ->] & Hshape). auto.
Qed.

Example oauth_401_run_value :
  completion More.oauth_401_run
  = Abrupt (JsError (lit "Sber transcription failed: Sber authentication failed: Request failed with status code 401")) /\
  oauth_requests (trace More.oauth_401_run) = [Demo.unauthorized] /\
  recognition_attempts (trace More.oauth_401_run) = [].
Proof. vm_compute. repeat split; reflexivity. Qed.

Lemma oauth_refusal_ends_transcribe_witness :
  completion More.oauth_401_run
  = Abrupt (TranscriptionError
              (lit "Sber authentication failed: "
                 ++ error_message (axios_rejection Demo.unauthorized))) /\
  exists pre rqUID,
    trace More.oauth_401_run
    = pre ++ [EvPost TOKEN_URL oauth_body (oauth_config Demo.fresh_service rqUID)
                Demo.unauthorized].
Proof.
  apply (@oauth_refusal_ends_transcribe More.oauth_401_runtime [] Demo.fresh_service
           Demo.audio (completion More.oauth_401_run) (final_state More.oauth_401_run)
           (trace More.oauth_401_run) Demo.unauthorized).
  - apply run_eta.
  - vm_compute. left. reflexivity.
  - reflexivity.
Defined.

(** X9.  A 401 whose refresh fails leaves no token behind.  When the only
    recognition request of a call was answered 401, the call failed with a
    [TranscriptionError] that wraps an [AuthError], and the cache holds no
    usable token afterwards.  (Stated for an OAuth endpoint that answers
    with primitive values: see [primitive].) *)
Theorem failed_refresh_leaves_no_token rt h this audio r this' t d :
  transcribe audio rt h this = (r, this', t) ->
  forallb plain_answer (oauth_requests t) = true ->
  recognition_attempts t = [HttpResponse 401 d] ->
  (exists cause,
      r = Abrupt (TranscriptionError (lit "Sber authentication failed: " ++ cause))) /\
  Js.truthy (cachedToken this') = false.
Proof.
  unfold transcribe. intros H _ Hatt.
  destruct (transcribeWithRetry_spec _ _ _ _ _ H)
    as [(cause & Hr & _)|[(out & Hr & H401 & _ & _)|(_ & d0 & this1 & t1 & t2 & _ & Hr1 & -> & Hretry)]].
  - rewrite Hr in Hatt. discriminate Hatt.
  - rewrite Hr in Hatt. injection Hatt as ->. discriminate H401.
  - unfold recognition_attempts in *. rewrite posts_to_app, Hr1 in Hatt.
    injection Hatt as _ Hnil.
    destruct (retry_is_recognise _ _ _ _ Hretry) as (r0 & Hrec).
    destruct (recognise_spec _ _ _ _ Hrec)
      as [(cause & Hg & -> & _)|(token & t0 & o & _ & _ & _ & Ho & _)].
    + rewrite transcribeWithRetry_run, Hrec, andb_false_r in Hretry.
      injection Hretry as <-. split; [exists cause; reflexivity|].
      destruct (getAuthToken_failure_state _ _ _ Hg) as [->|Hf]; [reflexivity|exact Hf].
    + unfold recognition_attempts in Ho. rewrite Hnil in Ho. discriminate Ho.
Qed.

Example failed_refresh_run_value :
  completion More.failed_refresh_run
  = Abrupt (JsError (lit "Sber transcription failed: Sber authentication failed: Network Error")) /\
  cachedToken (final_state More.failed_refresh_run) = JNull /\
  tokenExpiry (final_state More.failed_refresh_run) = None.
Proof. vm_compute. repeat split; reflexivity. Qed.

Lemma failed_refresh_leaves_no_token_witness :
  (exists cause,
      completion More.failed_refresh_run
      = Abrupt (TranscriptionError (lit "Sber authentication failed: " ++ cause))) /\
  Js.truthy (cachedToken (final_state More.failed_refresh_run)) = false.
Proof.
  apply (@failed_refresh_leaves_no_token More.failed_refresh_runtime []
           Demo.warm_service Demo.audio
           (completion More.failed_refresh_run) (final_state More.failed_refresh_run)
           (trace More.failed_refresh_run)
           (JObj [ (lit "message", JStr (lit "Unauthorized")) ])).
  - apply run_eta.
  - vm_compute. reflexivity.
  - vm_compute. reflexivity.
Defined.

Lemma response_text_visible d :
  response_text d = [] \/ whitespace_only (response_text d) = false.
Proof.
  rewrite response_text_spec.
  destruct (Js.opt_member d (lit "result")) as [| | | |s|elems|]; auto.
  - destruct (whitespace_only s) eqn:E; auto.
  - cbn zeta. destruct (whitespace_only (Js.array_join (lit " ") elems)) eqn:E; auto.
Qed.

Lemma recognise_success rt h this audio text this' t :
  recognise audio rt h this = (Normal text, this', t) ->
  Js.truthy (cachedToken this') = true /\
  exists pre st d,
    is_2xx st = true /\
    text = response_text d /\
    t = pre ++ [EvPost SPEECH_URL (BinaryBody audio)
                  (speech_config (cachedToken this')) (HttpResponse st d)].
Proof.
  intros H.
  destruct (recognise_spec _ _ _ _ H)
    as [(cause & _ & [=] & _)|(token & t1 & out & Hg & _ & -> & _ & _ & Hans)].
  destruct (getAuthToken_summary _ _ _ Hg) as (_ & _ & _ & -> & Htruthy).
  split; [exact Htruthy|].
  destruct out as [st d|msg]; cbn in Hans; [|discriminate Hans].
  destruct (is_2xx st) eqn:E; [|discriminate Hans].
  injection Hans as ->. exists t1, st, d. auto.
Qed.

(** X10.  What a successful [transcribe] leaves behind.  The returned text is
    empty or contains a character that is not white space (it is returned
    untrimmed); the cache holds a usable token; and the last thing the call
    did was the recognition request that was answered 2xx, sent with that
    very token. *)
Theorem transcribe_success rt h this audio text this' t :
  transcribe audio rt h this = (Normal text, this', t) ->
  (text = [] \/ whitespace_only text = false) /\
  Js.truthy (cachedToken this') = true /\
  exists pre st d,
    is_2xx st = true /\
    text = response_text d /\
    t = pre ++ [EvPost SPEECH_URL (BinaryBody audio)
                  (speech_config (cachedToken this')) (HttpResponse st d)].
Proof.
  unfold transcribe. intros H. rewrite transcribeWithRetry_run in H.
  assert (Hfinish : forall h0 this0 t0,
             recognise audio rt h0 this0 = (Normal text, this', t0) ->
             forall before,
               (text = [] \/ whitespace_only text = false) /\
               Js.truthy (cachedToken this') = true /\
               exists pre st d,
                 is_2xx st = true /\ text = response_text d /\
                 before ++ t0
                 = pre ++ [EvPost SPEECH_URL (BinaryBody audio)
                             (speech_config (cachedToken this')) (HttpResponse st d)]).
  { intros h0 this0 t0 Hrec before.
    apply recognise_success in Hrec as (Htruthy & pre & st & d & H2 & -> & ->).
    split; [apply response_text_visible|]. split; [exact Htruthy|].
    exists (before ++ pre), st, d. now rewrite <- app_assoc. }
  destruct (recognise audio rt h this) as [[[text1|error] this1] t1] eqn:Hrec.
  - injection H as -> <- <-. exact (Hfinish _ _ _ Hrec []).
  - destruct (is_axios_status error 401 && negb false); [|discriminate H].
    apply after_eq in H as (t2 & H & ->).
    destruct (retry_is_recognise _ _ _ _ H) as (r0 & Hrec2).
    rewrite transcribeWithRetry_run, Hrec2 in H.
    destruct r0 as [text2|error2].
    + injection H as ->. exact (Hfinish _ _ _ Hrec2 t1).
    + rewrite andb_false_r in H. discriminate H.
Qed.

Lemma transcribe_success_witness :
  (lit "hello world" = [] \/ whitespace_only (lit "hello world") = false) /\
  Js.truthy (cachedToken (final_state Demo.retry_run)) = true /\
  exists pre st d,
    is_2xx st = true /\
    lit "hello world" = response_text d /\
    trace Demo.retry_run
    = pre ++ [EvPost SPEECH_URL (BinaryBody Demo.audio)
                (speech_config (cachedToken (final_state Demo.retry_run)))
                (HttpResponse st d)].
Proof.
  apply (@transcribe_success Demo.retry_runtime [] Demo.warm_service Demo.audio
           (lit "hello world") (final_state Demo.retry_run) (trace Demo.retry_run)).
  vm_compute. reflexivity.
Defined.

(* ================================================================== *)
(** ** Further properties of the format converter *)
(* ================================================================== *)

(** X11.  A completion signal that only data events precede fulfils the promise
    with exactly the chunks received, in order, whatever the transcoder
    emits afterwards; when the signal comes first the buffer is empty. *)
Theorem completion_after_data_fulfils before later :
  forallb is_data before = true ->
  Converter.settle (before ++ CommandEnd :: later)
  = Fulfilled (concat (data_chunks before)) /\
  Converter.settle (CommandEnd :: later) = Fulfilled [].
Proof.
  intros Hd. unfold Converter.settle, Converter.start. split.
  - rewrite data_prefix by exact Hd. cbn [fold_left Converter.handle].
    now rewrite settled_stable by (cbn; discriminate).
  - cbn [fold_left Converter.handle].
    now rewrite settled_stable by (cbn; discriminate).
Qed.

Lemma completion_after_data_fulfils_witness :
  Converter.settle
    ([StreamData [Byte.x49; Byte.x44]; StreamData [Byte.x33]]
       ++ CommandEnd :: [StreamError (lit "late")])
  = Fulfilled (concat (data_chunks [StreamData [Byte.x49; Byte.x44]; StreamData [Byte.x33]]))
  /\ Converter.settle (CommandEnd :: [StreamError (lit "late")]) = Fulfilled [].
Proof.
  apply (@completion_after_data_fulfils
           [StreamData [Byte.x49; Byte.x44]; StreamData [Byte.x33]]
           [StreamError (lit "late")]).
  reflexivity.
Defined.

(** X12.  The promise stays pending exactly when the transcoder emits nothing
    but data: without a completion signal or an error, [convertOggToMp3]
    never settles, however much output has arrived. *)
Theorem pending_iff_only_data run :
  Converter.settle run = Pending <-> forallb is_data run = true.
Proof.
  unfold Converter.settle, Converter.start.
  generalize (@nil Buffer) as cs.
  induction run as [|ev run IH]; intros cs; [cbn; tauto|].
  destruct ev as [msg| |chunk|msg]; cbn [fold_left Converter.handle forallb is_data andb].
  - rewrite settled_stable by (cbn; discriminate). cbn. split; discriminate.
  - rewrite settled_stable by (cbn; discriminate). cbn. split; discriminate.
  - apply IH.
  - rewrite settled_stable by (cbn; discriminate). cbn. split; discriminate.
Qed.

(* ================================================================== *)
(** ** Further properties of the orchestrator *)
(* ================================================================== *)

Lemma service_events_no_io this audio t :
  Forall (service_event this audio) t ->
  file_reads t = [] /\ transcoder_runs t = [] /\
  forall body config out,
    In (EvPost SPEECH_URL body config out) t -> body = BinaryBody audio.
Proof.
  induction 1 as [|ev t Hev _ (IH1 & IH2 & IH3)]; [repeat split; intros; contradiction|].
  destruct ev; cbn [service_event file_reads transcoder_runs In] in *; try contradiction.
  - repeat split; auto. intros body config out [[=]|Hin]; eauto.
  - repeat split; auto. intros body config out [[=]|Hin]; eauto.
  - repeat split; auto. intros b c o [[= -> -> -> ->]|Hin]; [|eauto].
    destruct Hev as [(Hu & _)|(_ & Hb & _)]; [|exact Hb].
    exfalso. apply eqb_eq in Hu. rewrite speech_url_not_token_url in Hu.
    discriminate Hu.
Qed.

(** X13.  The order of the pipeline.  Every request a [transcribeVoice] call
    sends comes after the file was read and after the conversion of its
    bytes was fulfilled, and a recognition request carries the converted
    buffer, not the file's bytes. *)
Theorem transcribeVoice_requests_follow_conversion
    rt h u filePath r u' t url body config out :
  transcribeVoice filePath rt h u = (r, u', t) ->
  In (EvPost url body config out) t ->
  exists oggBuffer run mp3Buffer rest,
    t = EvReadFile filePath (FileBytes oggBuffer) :: EvFfmpeg oggBuffer run :: rest /\
    In (EvPost url body config out) rest /\
    Converter.settle run = Fulfilled mp3Buffer /\
    (url = SPEECH_URL -> body = BinaryBody mp3Buffer).
Proof.
  unfold transcribeVoice, convertOggToMp3.
  destruct (sberTranscription u) as [service|]; [|intros [= _ _ <-] []].
  destruct (audioConverter u) as [converter|]; [|intros [= _ _ <-] []].
  cbn zeta.
  destruct (rt_read_file rt h filePath) as [ogg|msg].
  2:{ intros [= _ _ <-] [[=]|[]]. }
  set (run := rt_ffmpeg rt (h ++ [EvReadFile filePath (FileBytes ogg)]) ogg).
  destruct (Converter.settle run) as [|mp3|e0] eqn:Hrun.
  - intros [= _ _ <-] [[=]|[[=]|[]]].
  - destruct (transcribe mp3 rt _ service) as [[r3 service'] t3] eqn:Ht.
    assert (Hin3 : In (EvPost url body config out)
                     ([EvReadFile filePath (FileBytes ogg)] ++ [EvFfmpeg ogg run] ++ t3) ->
                   exists oggBuffer run0 mp3Buffer rest,
                     [EvReadFile filePath (FileBytes ogg)] ++ [EvFfmpeg ogg run] ++ t3
                     = EvReadFile filePath (FileBytes oggBuffer)
                         :: EvFfmpeg oggBuffer run0 :: rest /\
                     In (EvPost url body config out) rest /\
                     Converter.settle run0 = Fulfilled mp3Buffer /\
                     (url = SPEECH_URL -> body = BinaryBody mp3Buffer)).
    { intros [[=]|[[=]|Hin]].
      exists ogg, run, mp3, t3. repeat split; auto.
      intros ->. apply transcribeWithRetry_events in Ht as [He _].
      apply service_events_no_io in He as (_ & _ & Hbody). eauto. }
    destruct r3; intros [= _ _ <-]; exact Hin3.
  - intros [= _ _ <-] [[=]|[[=]|[]]].
Qed.

Lemma transcribeVoice_requests_follow_conversion_witness :
  exists oggBuffer run mp3Buffer rest,
    trace Demo.pipeline_run
    = EvReadFile Demo.voice_path (FileBytes oggBuffer) :: EvFfmpeg oggBuffer run :: rest /\
    In (EvPost SPEECH_URL (BinaryBody [Byte.x49; Byte.x44; Byte.x33])
          (speech_config (JStr (lit "token-1")))
          (Demo.result_response Demo.hello_world)) rest /\
    Converter.settle run = Fulfilled mp3Buffer /\
    (SPEECH_URL = SPEECH_URL -> BinaryBody [Byte.x49; Byte.x44; Byte.x33] = BinaryBody mp3Buffer).
Proof.
  apply (@transcribeVoice_requests_follow_conversion Demo.pipeline_runtime []
           (load_utils Demo.configured) Demo.voice_path
           (completion Demo.pipeline_run) (final_state Demo.pipeline_run)
           (trace Demo.pipeline_run)).
  - apply run_eta.
  - vm_compute. do 5 right. left. reflexivity.
Defined.

Lemma transcribeVoice_keeps_configuration rt h u filePath r u' t :
  transcribeVoice filePath rt h u = (r, u', t) ->
  audioConverter u' = audioConverter u /\
  (forall e, r <> Rejected e) /\
  match sberTranscription u with
  | Some service =>
      exists service', sberTranscription u' = Some service' /\
                       clientSecret service' = clientSecret service
  | None => sberTranscription u' = None
  end.
Proof.
  unfold transcribeVoice, convertOggToMp3.
  destruct (sberTranscription u) as [service|] eqn:Hs.
  2:{ intros [= <- <- _]. repeat split; auto; discriminate. }
  destruct (audioConverter u) as [converter|] eqn:Hc.
  2:{ intros [= <- <- _]. repeat split; eauto; discriminate. }
  cbn zeta.
  destruct (rt_read_file rt h filePath) as [ogg|msg].
  2:{ intros [= <- <- _]. repeat split; eauto; discriminate. }
  destruct (Converter.settle _) as [|mp3|e0].
  - intros [= <- <- _]. repeat split; eauto; discriminate.
  - destruct (transcribe mp3 rt _ service) as [[r3 service'] t3] eqn:Ht.
    apply transcribeWithRetry_events in Ht as [_ Hsec].
    destruct r3; intros [= <- <- _]; cbn; repeat split; eauto; discriminate.
  - intros [= <- <- _]. repeat split; eauto; discriminate.
Qed.

(** X14.  Across any sequence of [transcribeVoice] calls the module stays as it
    was configured: the converter is the same, a client that exists keeps
    existing with the same secret, a missing client stays missing; there is
    one result per call and none of them is a rejection. *)
Theorem transcribeVoice_all_keeps_configuration paths :
  forall rt h u rs u' t,
    transcribeVoice_all paths rt h u = (rs, u', t) ->
    length rs = length paths /\
    (forall r e, In r rs -> r <> Rejected e) /\
    audioConverter u' = audioConverter u /\
    match sberTranscription u with
    | Some service =>
        exists service', sberTranscription u' = Some service' /\
                         clientSecret service' = clientSecret service
    | None => sberTranscription u' = None
    end.
Proof.
  induction paths as [|p paths IH]; intros rt h u rs u' t H.
  { injection H as <- <- _.
    split; [reflexivity|]. split; [intros r e []|]. split; [reflexivity|].
    destruct (sberTranscription u); eauto. }
  cbn [transcribeVoice_all] in H.
  destruct (transcribeVoice p rt h u) as [[r1 u1] t1] eqn:H1.
  destruct (transcribeVoice_all paths rt (h ++ t1) u1) as [[rs2 u2] t2] eqn:H2.
  injection H as <- <- _.
  apply transcribeVoice_keeps_configuration in H1 as (Hc1 & Hrej & Hs1).
  apply IH in H2 as (Hlen & Hrs & Hc2 & Hs2).
  split; [cbn; now rewrite Hlen|]. split.
  { intros r e [<-|Hin]; [apply Hrej | now apply Hrs]. }
  split; [congruence|].
  destruct (sberTranscription u) as [service|].
  - destruct Hs1 as (s1 & Hs1 & Hsec1). rewrite Hs1 in Hs2.
    destruct Hs2 as (s2 & Hs2 & Hsec2). exists s2. split; [exact Hs2|congruence].
  - now rewrite Hs1 in Hs2.
Qed.

Example two_voices_run_value :
  completion More.two_voices_run
  = [Fulfilled (Some (lit "hello world")); Fulfilled (Some (lit "again"))] /\
  oauth_requests (trace More.two_voices_run) = [Demo.token_response "token-1"] /\
  length (recognition_attempts (trace More.two_voices_run)) = 2%nat.
Proof. vm_compute. repeat split; reflexivity. Qed.

Lemma transcribeVoice_all_keeps_configuration_witness :
  length (completion More.two_voices_run) = length [Demo.voice_path; Demo.voice_path] /\
  (forall r e, In r (completion More.two_voices_run) -> r <> Rejected e) /\
  audioConverter (final_state More.two_voices_run)
  = audioConverter (load_utils Demo.configured) /\
  match sberTranscription (load_utils Demo.configured) with
  | Some service =>
      exists service',
        sberTranscription (final_state More.two_voices_run) = Some service' /\
        clientSecret service' = clientSecret service
  | None => sberTranscription (final_state More.two_voices_run) = None
  end.
Proof.
  exact (@transcribeVoice_all_keeps_configuration [Demo.voice_path; Demo.voice_path]
           More.two_voices_runtime [] (load_utils Demo.configured)
           (completion More.two_voices_run) (final_state More.two_voices_run)
           (trace More.two_voices_run) (run_eta More.two_voices_run)).
Defined.

(* ================================================================== *)
(** ** Audit logging *)
(* ================================================================== *)

Section AuditFacts.
Import Audit.

Lemma join_cons sep first rest :
  JsString.join sep (first :: rest) = first ++ concat (map (fun p => sep ++ p) rest).
Proof.
  revert first. induction rest as [|p rest IH]; intros first.
  - cbn. now rewrite app_nil_r.
  - change (JsString.join sep (first :: p :: rest))
      with (first ++ sep ++ JsString.join sep (p :: rest)).
    rewrite IH. cbn [map concat]. now rewrite <- app_assoc.
Qed.

Lemma to_string_ok host v :
  stringifiable v = true -> to_string host v = Normal (Js.to_string v).
Proof. unfold to_string. now intros ->. Qed.

Lemma line_ok host key value :
  stringifiable value = true -> line host key value = Normal (rendered key value).
Proof.
  intros Hs. unfold line, displayValue, rendered, clip.
  destruct (JsString.eqb key (lit "content") || JsString.eqb key (lit "response")).
  - rewrite (@to_string_ok host value Hs). cbn [and_then].
    destruct (500 <? Z.of_nat (length (Js.to_string value))); cbn [and_then].
    + reflexivity.
    + now rewrite (@to_string_ok host value Hs).
  - cbn [and_then]. now rewrite (@to_string_ok host value Hs).
Qed.

Lemma line_fails host key value :
  stringifiable value = false ->
  line host key value = Abrupt (JsError (cannot_convert host value)).
Proof.
  intros Hs. unfold line, displayValue, to_string.
  destruct (JsString.eqb key (lit "content") || JsString.eqb key (lit "response"));
    cbn [and_then]; rewrite Hs; reflexivity.
Qed.

Lemma push_lines_ok host props :
  forall lines,
    forallb (fun p => stringifiable (snd p)) props = true ->
    push_lines host props lines
    = Normal (lines ++ map (fun p => rendered (fst p) (snd p)) props).
Proof.
  induction props as [|[key value] props IH]; intros lines Hall.
  - cbn. now rewrite app_nil_r.
  - cbn [forallb snd] in Hall. apply andb_prop in Hall as [Hv Hall].
    cbn [push_lines]. rewrite (@line_ok host key value Hv). cbn [and_then].
    rewrite IH by exact Hall. cbn [map fst snd]. now rewrite <- app_assoc.
Qed.

Lemma push_lines_fails host props :
  forall lines,
    forallb (fun p => stringifiable (snd p)) props = false ->
    exists e, push_lines host props lines = Abrupt e.
Proof.
  induction props as [|[key value] props IH]; intros lines Hall.
  - discriminate Hall.
  - cbn [forallb snd] in Hall. cbn [push_lines].
    destruct (stringifiable value) eqn:Hv.
    + rewrite (@line_ok host key value Hv). cbn [and_then]. apply IH. exact Hall.
    + rewrite (@line_fails host key value Hv). cbn [and_then]. eauto.
Qed.

Lemma plain_text_ok host props :
  forallb (fun p => stringifiable (snd p)) props = true ->
  plain_text host (JObj props)
  = Normal (newline ++ repeat 61%N 60
            ++ concat (map (fun p => newline ++ rendered (fst p) (snd p)) props)
            ++ newline).
Proof.
  intros Hall. unfold plain_text. cbn [entries].
  rewrite push_lines_ok by exact Hall. cbn [and_then app].
  rewrite join_cons, map_map, <- !app_assoc. reflexivity.
Qed.

Lemma plain_text_fails host props :
  forallb (fun p => stringifiable (snd p)) props = false ->
  exists e, plain_text host (JObj props) = Abrupt e.
Proof.
  intros Hall. unfold plain_text. cbn [entries].
  destruct (push_lines_fails host props [newline ++ repeat 61%N 60] Hall) as (e & ->).
  exists e. reflexivity.
Qed.

(** X15.  Truncation in plain-text mode, for a value that is a string.
    Only the values of [content] and [response] are ever cut; a value of
    at most 500 code units is shown in full; a longer one is shown as its
    first 500 code units followed by three dots, 503 code units in all (so
    a value of 501 or 502 code units gets longer). *)
Theorem displayValue_truncation host key text :
  exists shown,
    line host key (JStr text) = Normal (key ++ lit ": " ++ shown) /\
    (key <> lit "content" -> key <> lit "response" -> shown = text) /\
    ((length text <= 500)%nat -> shown = text) /\
    (key = lit "content" \/ key = lit "response" ->
     (500 < length text)%nat ->
     shown = firstn 500 text ++ lit "..." /\ length shown = 503%nat).
Proof.
  rewrite (@line_ok host key (JStr text) eq_refl). unfold rendered, clip.
  cbn [Js.to_string].
  eexists. split; [reflexivity|]. split; [|split].
  - intros Hc Hr.
    destruct (JsString.eqb key (lit "content")) eqn:E1;
      [apply eqb_eq in E1; contradiction|].
    destruct (JsString.eqb key (lit "response")) eqn:E2;
      [apply eqb_eq in E2; contradiction|].
    reflexivity.
  - intros Hlen.
    destruct (500 <? Z.of_nat (length text)) eqn:E;
      [apply Z.ltb_lt in E; lia|].
    now destruct (_ || _).
  - intros Hkey Hlen.
    assert (Hk : (JsString.eqb key (lit "content") || JsString.eqb key (lit "response"))
                 = true).
    { destruct Hkey as [->| ->]; reflexivity. }
    assert (Hl : (500 <? Z.of_nat (length text)) = true)
      by (apply Z.ltb_lt; lia).
    rewrite Hk, Hl. split; [reflexivity|].
    rewrite length_app, firstn_length_le by lia. reflexivity.
Qed.

Lemma displayValue_truncation_witness :
  exists shown,
    line (demo_host false 1000) (lit "content") (JStr (repeat 97%N 501))
    = Normal (lit "content" ++ lit ": " ++ shown) /\
    shown = firstn 500 (repeat 97%N 501) ++ lit "..." /\ length shown = 503%nat.
Proof.
  destruct (@displayValue_truncation (demo_host false 1000) (lit "content")
              (repeat 97%N 501)) as (shown & Hline & _ & _ & Hcut).
  exists shown. split; [exact Hline|].
  apply Hcut.
  - left. reflexivity.
  - vm_compute. lia.
Defined.

Lemma writeAuditLog_contained event host h :
  fst (writeAuditLog event host h) = Normal tt /\
  (snd (writeAuditLog event host h) = [] \/
   exists content failure,
     snd (writeAuditLog event host h)
     = [AppendFile (AUDIT_LOG_PATH host) content failure]).
Proof.
  unfold writeAuditLog, writeAuditLog_try.
  destruct (Js.truthy (AUDIT_LOG_JSON host)).
  - destruct (JSON_stringify host event) as [json|e]; cbn [and_then].
    + cbn zeta.
      destruct (appendFile host h (AUDIT_LOG_PATH host) (json ++ newline));
        cbn; eauto.
    + cbn. auto.
  - destruct (plain_text host event) as [content|e].
    + cbn zeta.
      destruct (appendFile host h (AUDIT_LOG_PATH host) content); cbn; eauto.
    + cbn. auto.
Qed.

Lemma with_timestamp_contained build host h :
  fst (with_timestamp build host h) = Normal tt /\
  exists iso rest,
    snd (with_timestamp build host h) = Timestamp iso :: rest /\
    (rest = [] \/
     exists content failure, rest = [AppendFile (AUDIT_LOG_PATH host) content failure]).
Proof.
  unfold with_timestamp. cbn zeta.
  destruct (writeAuditLog_contained (build (toISOString host h)) host
              (h ++ [Timestamp (toISOString host h)])) as [Hr Ht].
  destruct (writeAuditLog _ host _) as [r t]. cbn in *. eauto.
Qed.

(** X16.  Audit logging cannot fail and writes at most once.  Whatever the
    event holds and whatever [JSON.stringify] and the file system do,
    [writeAuditLog] and the five exported functions complete normally;
    [writeAuditLog] attempts at most one append, to [AUDIT_LOG_PATH]; each
    exported function reads the clock once, before that. *)
Theorem audit_never_fails host h :
  (forall event,
      fst (writeAuditLog event host h) = Normal tt /\
      (snd (writeAuditLog event host h) = [] \/
       exists content failure,
         snd (writeAuditLog event host h)
         = [AppendFile (AUDIT_LOG_PATH host) content failure])) /\
  (forall run,
      (exists userId username messageType content response,
          run = auditLog userId username messageType content response host h) \/
      (exists userId username authorized,
          run = auditLogAuth userId username authorized host h) \/
      (exists userId username toolName toolInput blocked reason,
          run = auditLogTool userId username toolName toolInput blocked reason host h) \/
      (exists userId username error context,
          run = auditLogError userId username error context host h) \/
      (exists userId username retryAfter,
          run = auditLogRateLimit userId username retryAfter host h) ->
      fst run = Normal tt /\
      exists iso rest,
        snd run = Timestamp iso :: rest /\
        (rest = [] \/
         exists content failure,
           rest = [AppendFile (AUDIT_LOG_PATH host) content failure])).
Proof.
  split.
  - intros event. apply writeAuditLog_contained.
  - intros run [H|[H|[H|[H|H]]]].
    + destruct H as (a & b & c & d & e & ->). apply with_timestamp_contained.
    + destruct H as (a & b & c & ->). apply with_timestamp_contained.
    + destruct H as (a & b & c & d & e & f & ->). apply with_timestamp_contained.
    + destruct H as (a & b & c & d & ->). apply with_timestamp_contained.
    + destruct H as (a & b & c & ->). apply with_timestamp_contained.
Qed.

Lemma audit_never_fails_witness :
  fst (auditLogError 42 (lit "ann") (lit "boom") None (demo_host false 10) []) = Normal tt /\
  exists iso rest,
    snd (auditLogError 42 (lit "ann") (lit "boom") None (demo_host false 10) [])
    = Timestamp iso :: rest /\
    (rest = [] \/
     exists content failure,
       rest = [AppendFile (AUDIT_LOG_PATH (demo_host false 10)) content failure]).
Proof.
  apply (proj2 (@audit_never_fails (demo_host false 10) [])).
  do 3 right. left. exists 42, (lit "ann"), (lit "boom"), None. reflexivity.
Defined.

Lemma with_timestamp_plain build host h content :
  Js.truthy (AUDIT_LOG_JSON host) = false ->
  plain_text host (build (toISOString host h)) = Normal content ->
  with_timestamp build host h
  = (Normal tt,
     [ Timestamp (toISOString host h);
       AppendFile (AUDIT_LOG_PATH host) content
         (appendFile host (h ++ [Timestamp (toISOString host h)])
            (AUDIT_LOG_PATH host) content) ]).
Proof.
  intros Hplain Htext.
  unfold with_timestamp, writeAuditLog, writeAuditLog_try. cbn zeta.
  rewrite Hplain, Htext.
  destruct (appendFile host _ (AUDIT_LOG_PATH host) _); reflexivity.
Qed.

Lemma with_timestamp_lost build host h e :
  Js.truthy (AUDIT_LOG_JSON host) = false ->
  plain_text host (build (toISOString host h)) = Abrupt e ->
  with_timestamp build host h = (Normal tt, [Timestamp (toISOString host h)]).
Proof.
  intros Hplain Htext.
  unfold with_timestamp, writeAuditLog, writeAuditLog_try. cbn zeta.
  rewrite Hplain, Htext. reflexivity.
Qed.

(** X17.  What [auditLog] does in plain-text mode: it completes
    normally after one timestamp and one attempt to append a record made
    of the separator, the six fields in their fixed order with [content]
    cut at 500 code units, a [response] line (cut likewise) only when a
    non-empty response was given, and a final line feed.  The record is
    appended exactly when the file system accepts that attempt; when it
    refuses, nothing is appended and the call completes all the same.
    The user id is an integer the engine represents exactly. *)
Theorem auditLog_plain_record host h userId username messageType content response :
  Js.truthy (AUDIT_LOG_JSON host) = false ->
  Z.abs userId <= MAX_SAFE_INTEGER ->
  let iso := toISOString host h in
  let record :=
    newline ++ repeat 61%N 60
    ++ newline ++ lit "timestamp: " ++ iso
    ++ newline ++ lit "event: message"
    ++ newline ++ lit "user_id: " ++ JsString.of_Z userId
    ++ newline ++ lit "username: " ++ username
    ++ newline ++ lit "message_type: " ++ messageType
    ++ newline ++ lit "content: " ++ clip content
    ++ match or_empty response with
       | [] => []
       | text => newline ++ lit "response: " ++ clip text
       end
    ++ newline in
  let answer := appendFile host (h ++ [Timestamp iso]) (AUDIT_LOG_PATH host) record in
  let run := auditLog userId username messageType content response host h in
  run = (Normal tt, [ Timestamp iso; AppendFile (AUDIT_LOG_PATH host) record answer ]) /\
  appended (snd run) = match answer with
                       | None => [ (AUDIT_LOG_PATH host, record) ]
                       | Some _ => []
                       end.
Proof.
  intros Hplain _. cbn zeta.
  assert (Hrun : forall record,
             plain_text host
               (JObj (if Js.truthy (JStr (or_empty response))
                      then [ (lit "timestamp", JStr (toISOString host h));
                             (lit "event", JStr (lit "message"));
                             (lit "user_id", JNum (Num userId));
                             (lit "username", JStr username);
                             (lit "message_type", JStr messageType);
                             (lit "content", JStr content) ]
                             ++ [ (lit "response", JStr (or_empty response)) ]
                      else [ (lit "timestamp", JStr (toISOString host h));
                             (lit "event", JStr (lit "message"));
                             (lit "user_id", JNum (Num userId));
                             (lit "username", JStr username);
                             (lit "message_type", JStr messageType);
                             (lit "content", JStr content) ]))
             = Normal record ->
             auditLog userId username messageType content response host h
             = (Normal tt,
                [ Timestamp (toISOString host h);
                  AppendFile (AUDIT_LOG_PATH host) record
                    (appendFile host (h ++ [Timestamp (toISOString host h)])
                       (AUDIT_LOG_PATH host) record) ])).
  { intros record Htext. unfold auditLog.
    now apply with_timestamp_plain. }
  match goal with
  | |- ?run = (Normal tt, [Timestamp ?iso; AppendFile ?path ?record ?answer]) /\ _ =>
      assert (Heq : run = (Normal tt, [Timestamp iso; AppendFile path record answer]))
  end.
  { apply Hrun.
    destruct (or_empty response) as [|c text]; cbn [Js.truthy JsString.eqb negb].
    - rewrite plain_text_ok by reflexivity.
      cbn [map concat fst snd app]. unfold rendered.
      cbn [Js.to_string Js.num_to_string].
      rewrite <- !app_assoc. reflexivity.
    - rewrite plain_text_ok by reflexivity.
      cbn [map concat fst snd app]. unfold rendered.
      cbn [Js.to_string Js.num_to_string].
      rewrite <- !app_assoc. reflexivity. }
  split; [exact Heq|]. rewrite Heq. cbn [snd appended].
  match goal with |- context [match ?a with None => _ | Some _ => _ end] => destruct a end;
    reflexivity.
Qed.

Example auditLog_demo :
  auditLog 42 (lit "ann") (lit "text") (lit "hi") None (demo_host false 1000) []
  = (Normal tt,
     [ Timestamp (lit "2026-01-05T10:00:00.000Z");
       AppendFile (lit "/tmp/claude-telegram-audit.log")
         (newline ++ lit "============================================================"
          ++ newline ++ lit "timestamp: 2026-01-05T10:00:00.000Z"
          ++ newline ++ lit "event: message"
          ++ newline ++ lit "user_id: 42"
          ++ newline ++ lit "username: ann"
          ++ newline ++ lit "message_type: text"
          ++ newline ++ lit "content: hi"
          ++ newline)
         None ]).
Proof. vm_compute. reflexivity. Qed.

Example audit_failures_demo :
  (* the file system refuses the append *)
  fst (auditLog 42 (lit "ann") (lit "text") (lit "hi") None (demo_host false 10) [])
  = Normal tt /\
  appended (snd (auditLog 42 (lit "ann") (lit "text") (lit "hi") None
                   (demo_host false 10) [])) = [] /\
  (* JSON.stringify throws *)
  auditLogAuth 42 (lit "ann") true (demo_host true 1000) []
  = (Normal tt, [Timestamp (lit "2026-01-05T10:00:00.000Z")]) /\
  (* the tool input has no primitive value *)
  auditLogTool 42 (lit "ann") (lit "Bash") [ (lit "toString", JNull) ] None None
    (demo_host false 1000) []
  = (Normal tt, [Timestamp (lit "2026-01-05T10:00:00.000Z")]).
Proof. vm_compute. repeat split; reflexivity. Qed.

Lemma auditLog_plain_record_witness :
  auditLog 42 (lit "ann") (lit "text") (lit "hi") (Some (lit "hello")) (demo_host false 1000) []
  = (Normal tt,
     [ Timestamp (lit "2026-01-05T10:00:00.000Z");
       AppendFile (lit "/tmp/claude-telegram-audit.log")
         (newline ++ lit "============================================================"
          ++ newline ++ lit "timestamp: 2026-01-05T10:00:00.000Z"
          ++ newline ++ lit "event: message"
          ++ newline ++ lit "user_id: 42"
          ++ newline ++ lit "username: ann"
          ++ newline ++ lit "message_type: text"
          ++ newline ++ lit "content: hi"
          ++ newline ++ lit "response: hello"
          ++ newline)
         None ]) /\
  appended (snd (auditLog 42 (lit "ann") (lit "text") (lit "hi") (Some (lit "hello"))
                   (demo_host false 1000) []))
  = [ (lit "/tmp/claude-telegram-audit.log",
       newline ++ lit "============================================================"
       ++ newline ++ lit "timestamp: 2026-01-05T10:00:00.000Z"
       ++ newline ++ lit "event: message"
       ++ newline ++ lit "user_id: 42"
       ++ newline ++ lit "username: ann"
       ++ newline ++ lit "message_type: text"
       ++ newline ++ lit "content: hi"
       ++ newline ++ lit "response: hello"
       ++ newline) ] /\
  appended (snd (auditLog 42 (lit "ann") (lit "text") (lit "hi") (Some (lit "hello"))
                   (demo_host false 10) [])) = [].
Proof.
  assert (Hsafe : Z.abs 42 <= MAX_SAFE_INTEGER) by (vm_compute; discriminate).
  destruct (@auditLog_plain_record (demo_host false 1000) [] 42 (lit "ann") (lit "text")
              (lit "hi") (Some (lit "hello")) eq_refl Hsafe) as [Hrun Happended].
  split; [exact Hrun|]. split; [exact Happended|].
  exact (proj2 (@auditLog_plain_record (demo_host false 10) [] 42 (lit "ann") (lit "text")
                  (lit "hi") (Some (lit "hello")) eq_refl Hsafe)).
Defined.

Lemma tool_event_converts iso userId username toolName toolInput blocked tail :
  forallb (fun p => stringifiable (snd p)) tail = true ->
  forallb (fun p => stringifiable (snd p))
    ([ (lit "timestamp", JStr iso);
       (lit "event", JStr (lit "tool_use"));
       (lit "user_id", JNum (Num userId));
       (lit "username", JStr username);
       (lit "tool_name", JStr toolName);
       (lit "tool_input", JObj toolInput);
       (lit "blocked", JBool blocked) ] ++ tail)
  = negb (has_key (lit "toString") toolInput).
Proof.
  intros Htail. cbn [app forallb snd stringifiable andb]. rewrite Htail.
  now rewrite andb_true_r.
Qed.

(** X18.  In plain-text mode the tool input is never recorded.  An input
    without a property [toString] is shown as [[object Object]], so the
    call does exactly what it does for an empty input; an input with such
    a property has no primitive value, and then no record is written at
    all. *)
Theorem auditLogTool_plain_hides_input
    host h userId username toolName toolInput blocked reason :
  Js.truthy (AUDIT_LOG_JSON host) = false ->
  (has_key (lit "toString") toolInput = false ->
   line host (lit "tool_input") (JObj toolInput) = Normal (lit "tool_input: [object Object]") /\
   auditLogTool userId username toolName toolInput blocked reason host h
   = auditLogTool userId username toolName [] blocked reason host h) /\
  (has_key (lit "toString") toolInput = true ->
   auditLogTool userId username toolName toolInput blocked reason host h
   = (Normal tt, [Timestamp (toISOString host h)])).
Proof.
  intros Hplain.
  set (b := match blocked with Some b => b | None => false end).
  assert (Hevent :
    forall input,
      exists tail,
        forallb (fun p => stringifiable (snd p)) tail = true /\
        auditLogTool userId username toolName input blocked reason host h
        = with_timestamp (fun iso =>
            JObj ([ (lit "timestamp", JStr iso);
                    (lit "event", JStr (lit "tool_use"));
                    (lit "user_id", JNum (Num userId));
                    (lit "username", JStr username);
                    (lit "tool_name", JStr toolName);
                    (lit "tool_input", JObj input);
                    (lit "blocked", JBool b) ] ++ tail)) host h /\
        forall other,
          auditLogTool userId username toolName other blocked reason host h
          = with_timestamp (fun iso =>
              JObj ([ (lit "timestamp", JStr iso);
                      (lit "event", JStr (lit "tool_use"));
                      (lit "user_id", JNum (Num userId));
                      (lit "username", JStr username);
                      (lit "tool_name", JStr toolName);
                      (lit "tool_input", JObj other);
                      (lit "blocked", JBool b) ] ++ tail)) host h).
  { intros input. unfold auditLogTool. fold b.
    destruct (b && Js.truthy (JStr (or_empty reason))).
    - exists [ (lit "reason", JStr (or_empty reason)) ]. repeat split.
    - exists []. repeat split. }
  destruct (Hevent toolInput) as (tail & Htail & Hrun & Hother).
  split.
  - intros Hkey. split.
    + rewrite line_ok by (cbn [stringifiable]; now rewrite Hkey). reflexivity.
    + rewrite Hrun, (Hother []).
      rewrite (@with_timestamp_plain _ host h _ Hplain
                 (plain_text_ok host _
                    (eq_trans (tool_event_converts _ userId username toolName toolInput b tail Htail)
                       (f_equal negb Hkey)))).
      rewrite (@with_timestamp_plain _ host h _ Hplain
                 (plain_text_ok host _
                    (tool_event_converts _ userId username toolName [] b tail Htail))).
      reflexivity.
  - intros Hkey. rewrite Hrun.
    destruct (plain_text_fails host _
                (eq_trans (tool_event_converts (toISOString host h) userId username toolName
                             toolInput b tail Htail)
                   (f_equal negb Hkey))) as (e & He).
    exact (with_timestamp_lost _ host h Hplain He).
Qed.

Lemma auditLogTool_plain_hides_input_witness :
  line (demo_host false 1000) (lit "tool_input") (JObj [ (lit "command", JStr (lit "rm -rf /")) ])
  = Normal (lit "tool_input: [object Object]") /\
  auditLogTool 42 (lit "ann") (lit "Bash") [ (lit "command", JStr (lit "rm -rf /")) ]
    (Some true) (Some (lit "dangerous")) (demo_host false 1000) []
  = auditLogTool 42 (lit "ann") (lit "Bash") []
      (Some true) (Some (lit "dangerous")) (demo_host false 1000) [].
Proof.
  apply (proj1 (@auditLogTool_plain_hides_input (demo_host false 1000) [] 42 (lit "ann")
                  (lit "Bash") [ (lit "command", JStr (lit "rm -rf /")) ]
                  (Some true) (Some (lit "dangerous")) eq_refl)).
  reflexivity.
Defined.

End AuditFacts.

(* ================================================================== *)
(** ** Message interrupt *)
(* ================================================================== *)

Section InterruptFacts.
Import Interrupt.

Lemma trimStart_split s :
  exists ws, s = ws ++ JsString.trimStart s /\ whitespace_only ws = true.
Proof.
  induction s as [|c s (ws & Hs & Hws)]; [now exists []|].
  cbn [JsString.trimStart]. destruct (JsString.is_whitespace c) eqn:E.
  - exists (c :: ws). split; [cbn; now f_equal|].
    unfold whitespace_only in *. cbn. now rewrite E, Hws.
  - now exists [].
Qed.

Lemma trimStart_shorter s : (length (JsString.trimStart s) <= length s)%nat.
Proof.
  destruct (trimStart_split s) as (ws & Hs & _).
  rewrite Hs at 2. rewrite length_app. lia.
Qed.

Lemma interrupt_cases text session h t1 :
  let stripped := JsString.trimStart (skipn 1 text) in
  (isRunning session (h ++ t1) = false /\
   interrupt text session h t1 = (Normal stripped, true, t1 ++ [IsRunning false]))
  \/
  (isRunning session (h ++ t1) = true /\
   exists rejection,
     interrupt text session h t1
     = (match rejection with
        | None => Normal stripped
        | Some e => Abrupt e
        end, true,
        t1 ++ [IsRunning true; MarkInterrupt; Stop rejection]
           ++ match rejection with
              | None => [Sleep 100; ClearStopRequested]
              | Some _ => []
              end)).
Proof.
  cbn zeta. unfold interrupt.
  destruct (isRunning session (h ++ t1)); [right|left; auto].
  split; [reflexivity|].
  destruct (stop session _) as [e|].
  - exists (Some e). now rewrite <- !app_assoc.
  - exists None. now rewrite <- !app_assoc.
Qed.

Lemma checkInterrupt_bang text session h sessionModule :
  startsWithBang text = true ->
  checkInterrupt text session h sessionModule
  = if sessionModule then interrupt text session h []
    else match import_session session h with
         | Some e => (Abrupt e, false, [ImportSession (Some e)])
         | None => interrupt text session h [ImportSession None]
         end.
Proof.
  intros Hb. unfold checkInterrupt. rewrite Hb.
  destruct text; [discriminate Hb|]. reflexivity.
Qed.

(** X19.  What [checkInterrupt] returns.  A text that is empty or does not start
    with an exclamation mark comes back as it is, and nothing is done to
    the session, not even its import.  For a text [!rest] a normal return
    is [rest] without its leading white space: it is a suffix of the text,
    strictly shorter, and does not start with white space; the session
    module is loaded by then. *)
Theorem checkInterrupt_result text session h sessionModule :
  (startsWithBang text = false ->
   checkInterrupt text session h sessionModule = (Normal text, sessionModule, [])) /\
  (forall rest stripped m t,
      text = 33%N :: rest ->
      checkInterrupt text session h sessionModule = (Normal stripped, m, t) ->
      m = true /\
      (exists ws, rest = ws ++ stripped /\ whitespace_only ws = true) /\
      (length stripped < length text)%nat /\
      (stripped = [] \/
       exists c tail, stripped = c :: tail /\ JsString.is_whitespace c = false)).
Proof.
  split.
  - intros Hb. unfold checkInterrupt. rewrite Hb, orb_true_r. reflexivity.
  - intros rest stripped m t -> H.
    assert (Hs : stripped = JsString.trimStart rest /\ m = true).
    { rewrite checkInterrupt_bang in H by reflexivity.
      assert (Hi : forall t1, interrupt (33%N :: rest) session h t1 = (Normal stripped, m, t) ->
                              stripped = JsString.trimStart rest /\ m = true).
      { intros t1 Hi.
        destruct (interrupt_cases (33%N :: rest) session h t1)
          as [(_ & E)|(_ & [e|] & E)]; cbn zeta in E; rewrite E in Hi.
        - now injection Hi as <- <- _.
        - discriminate Hi.
        - now injection Hi as <- <- _. }
      destruct sessionModule; [exact (Hi _ H)|].
      destruct (import_session session h); [discriminate H|exact (Hi _ H)]. }
    destruct Hs as [-> ->]. split; [reflexivity|]. split; [|split].
    + destruct (trimStart_split rest) as (ws & Hs & Hws). eauto.
    + pose proof (trimStart_shorter rest). cbn [length]. lia.
    + destruct (JsString.trimStart rest) as [|c tail] eqn:E; [now left|].
      right. exists c, tail. split; [reflexivity|]. exact (trimStart_head _ E).
Qed.

Lemma checkInterrupt_result_witness :
  true = true /\
  (exists ws, lit "  stop that" = ws ++ lit "stop that" /\ whitespace_only ws = true) /\
  (length (lit "stop that") < length (33%N :: lit "  stop that"))%nat /\
  (lit "stop that" = [] \/
   exists c tail, lit "stop that" = c :: tail /\ JsString.is_whitespace c = false).
Proof.
  apply (proj2 (@checkInterrupt_result (33%N :: lit "  stop that") (busy_session 0 0) [] false)
           (lit "  stop that") (lit "stop that") true [ImportSession None; IsRunning false]).
  - reflexivity.
  - reflexivity.
Defined.

(** X20.  The interrupt protocol.  The session's methods are called only when
    the module is loaded and the session reports to be running, and then
    in this order: [markInterrupt], [stop]; when [stop] resolves, a pause
    of 100 ms and [clearStopRequested] follow and the stripped text is
    returned; when [stop] rejects, the call rejects with the same error
    and the stop request is not cleared. *)
Theorem checkInterrupt_protocol text session h sessionModule r m t :
  checkInterrupt text session h sessionModule = (r, m, t) ->
  (exists x, In x t /\ (is_mark x || is_stop x || is_clear x) = true) ->
  exists pre rejection,
    (pre = [] \/ pre = [ImportSession None]) /\
    t = pre ++ [IsRunning true; MarkInterrupt; Stop rejection]
            ++ match rejection with
               | None => [Sleep 100; ClearStopRequested]
               | Some _ => []
               end /\
    r = match rejection with
        | None => Normal (JsString.trimStart (skipn 1 text))
        | Some e => Abrupt e
        end.
Proof.
  assert (Hi : forall pre,
             pre = [] \/ pre = [ImportSession None] ->
             interrupt text session h pre = (r, m, t) ->
             (exists x, In x t /\ (is_mark x || is_stop x || is_clear x) = true) ->
             exists pre rejection,
               (pre = [] \/ pre = [ImportSession None]) /\
               t = pre ++ [IsRunning true; MarkInterrupt; Stop rejection]
                       ++ match rejection with
                          | None => [Sleep 100; ClearStopRequested]
                          | Some _ => []
                          end /\
               r = match rejection with
                   | None => Normal (JsString.trimStart (skipn 1 text))
                   | Some e => Abrupt e
                   end).
  { intros pre Hpre H (x & Hin & Hx).
    destruct (interrupt_cases text session h pre) as [(_ & E)|(_ & rejection & E)];
      cbn zeta in E; rewrite E in H; injection H as <- _ <-.
    - exfalso. apply in_app_or in Hin as [Hin|[<-|[]]]; [|discriminate Hx].
      destruct Hpre as [->| ->]; [destruct Hin|].
      destruct Hin as [<-|[]]. discriminate Hx.
    - exists pre, rejection. auto. }
  unfold checkInterrupt.
  destruct (negb (Js.truthy (JStr text)) || negb (startsWithBang text)).
  { intros [= _ _ <-] (x & [] & _). }
  destruct sessionModule; [apply Hi; auto|].
  destruct (import_session session h) as [e|]; [|apply Hi; auto].
  intros [= _ _ <-] (x & [<-|[]] & Hx). discriminate Hx.
Qed.

Lemma checkInterrupt_protocol_witness :
  exists pre rejection,
    (pre = [] \/ pre = [ImportSession None]) /\
    snd (checkInterrupt (lit "! new task") (busy_session 0 5) [] false)
    = pre ++ [IsRunning true; MarkInterrupt; Stop rejection]
          ++ match rejection with
             | None => [Sleep 100; ClearStopRequested]
             | Some _ => []
             end /\
    fst (fst (checkInterrupt (lit "! new task") (busy_session 0 5) [] false))
    = match rejection with
      | None => Normal (JsString.trimStart (skipn 1 (lit "! new task")))
      | Some e => Abrupt e
      end.
Proof.
  apply (@checkInterrupt_protocol (lit "! new task") (busy_session 0 5) [] false
           (fst (fst (checkInterrupt (lit "! new task") (busy_session 0 5) [] false)))
           (snd (fst (checkInterrupt (lit "! new task") (busy_session 0 5) [] false)))
           (snd (checkInterrupt (lit "! new task") (busy_session 0 5) [] false))).
  - reflexivity.
  - exists MarkInterrupt. split; [vm_compute; auto|reflexivity].
Defined.

Lemma count_app p a b : count p (a ++ b) = (count p a + count p b)%nat.
Proof. unfold count. now rewrite filter_app, length_app. Qed.

Lemma interrupt_counts text session h pre r m t :
  interrupt text session h pre = (r, m, t) ->
  m = true /\
  count is_import t = count is_import pre /\
  count is_loaded t = count is_loaded pre /\
  count is_mark t = (count is_mark pre + (count is_running_true t - count is_running_true pre))%nat /\
  count is_stop t = (count is_stop pre + (count is_mark t - count is_mark pre))%nat /\
  count is_clear t
  = (count is_clear pre + (count is_stop_resolved t - count is_stop_resolved pre))%nat /\
  (count is_running_true pre <= count is_running_true t)%nat /\
  (count is_mark pre <= count is_mark t)%nat /\
  (count is_stop_resolved pre <= count is_stop_resolved t)%nat.
Proof.
  intros H.
  destruct (interrupt_cases text session h pre) as [(_ & E)|(_ & [e|] & E)];
    cbn zeta in E; rewrite E in H; injection H as _ <- <-;
    rewrite !count_app; unfold count; cbn [filter length app
      is_import is_loaded is_mark is_stop is_clear is_stop_resolved is_running_true];
    repeat split; lia.
Qed.

Lemma checkInterrupt_counts text session h sessionModule r m t :
  checkInterrupt text session h sessionModule = (r, m, t) ->
  (sessionModule = true -> count is_import t = 0%nat) /\
  (count is_loaded t <= 1)%nat /\
  m = sessionModule || (0 <? count is_loaded t)%nat /\
  count is_mark t = count is_running_true t /\
  count is_stop t = count is_mark t /\
  count is_clear t = count is_stop_resolved t.
Proof.
  unfold checkInterrupt.
  destruct (negb (Js.truthy (JStr text)) || negb (startsWithBang text)).
  { intros [= _ <- <-]. rewrite orb_false_r. repeat split; auto. }
  destruct sessionModule.
  - intros H. apply interrupt_counts in H.
    unfold count in *. cbn [filter length] in H.
    destruct H as (-> & Hi & Hl & Hk & Hs & Hc & _).
    cbn [orb]. repeat split; try reflexivity; lia.
  - destruct (import_session session h) as [e|].
    + intros [= _ <- <-]. unfold count. cbn. repeat split; auto; discriminate.
    + intros H. apply interrupt_counts in H.
      unfold count in *.
      cbn [filter length is_import is_loaded is_mark is_stop is_clear
             is_stop_resolved is_running_true] in H.
      destruct H as (-> & Hi & Hl & Hk & Hs & Hc & _).
      rewrite Hl. cbn [orb Nat.ltb Nat.leb]. repeat split; try lia; discriminate.
Qed.

Lemma loaded_le_import t : (count is_loaded t <= count is_import t)%nat.
Proof.
  unfold count. induction t as [|[[e|]| | | | |] t IH]; cbn; lia.
Qed.

(** X21.  Invariants over any sequence of [checkInterrupt] calls.  The session
    module is loaded at most once, and not imported at all when it is
    loaded already; it is loaded afterwards exactly if it was before or an
    import succeeded.  Every [markInterrupt] answers a reading of
    [isRunning] as true and is followed by one [stop]; every [stop] that
    resolved is followed by one [clearStopRequested], and there is no
    other. *)
Theorem checkInterrupt_all_invariants texts :
  forall session h sessionModule rs m t,
    checkInterrupt_all texts session h sessionModule = (rs, m, t) ->
    length rs = length texts /\
    (sessionModule = true -> count is_import t = 0%nat) /\
    (count is_loaded t <= 1)%nat /\
    m = sessionModule || (0 <? count is_loaded t)%nat /\
    count is_mark t = count is_running_true t /\
    count is_stop t = count is_mark t /\
    count is_clear t = count is_stop_resolved t.
Proof.
  induction texts as [|text texts IH]; intros session h sessionModule rs m t H.
  { injection H as <- <- <-. rewrite orb_false_r. repeat split; auto. }
  cbn [checkInterrupt_all] in H.
  destruct (checkInterrupt text session h sessionModule) as [[r1 m1] t1] eqn:H1.
  destruct (checkInterrupt_all texts session (h ++ t1) m1) as [[rs2 m2] t2] eqn:H2.
  injection H as <- <- <-.
  apply checkInterrupt_counts in H1 as (Hi1 & Hl1 & Hm1 & Hk1 & Hs1 & Hc1).
  apply IH in H2 as (Hlen & Hi2 & Hl2 & Hm2 & Hk2 & Hs2 & Hc2).
  pose proof (loaded_le_import t1) as Hle1.
  pose proof (loaded_le_import t2) as Hle2.
  rewrite !count_app. cbn [length]. rewrite Hlen.
  split; [reflexivity|].
  assert (Hm1' : (0 < count is_loaded t1)%nat -> count is_import t2 = 0%nat).
  { intros Hpos. apply Hi2. rewrite Hm1.
    destruct (Nat.ltb_spec 0 (count is_loaded t1)); [apply orb_true_r|lia]. }
  split; [|split; [|split; [|repeat split; lia]]].
  - intros ->. rewrite (Hi1 eq_refl). cbn [orb] in Hm1. rewrite Hi2 by exact Hm1.
    reflexivity.
  - destruct (count is_loaded t1) as [|n] eqn:E; [lia|].
    assert (count is_import t2 = 0%nat) by (apply Hm1'; lia). lia.
  - rewrite Hm2, Hm1.
    destruct sessionModule; [reflexivity|]. cbn [orb].
    destruct (Nat.ltb_spec 0 (count is_loaded t1)), (Nat.ltb_spec 0 (count is_loaded t2)),
      (Nat.ltb_spec 0 (count is_loaded t1 + count is_loaded t2)); try reflexivity; lia.
Qed.

Example interrupt_sequence :
  demo_run
  = ([ Normal (lit "hello");
       Abrupt (JsError (lit "Cannot find module './session'"));
       Normal (lit "stop");
       Normal (lit "again") ],
     true,
     [ ImportSession (Some (JsError (lit "Cannot find module './session'")));
       ImportSession None; IsRunning true; MarkInterrupt; Stop None; Sleep 100;
       ClearStopRequested; IsRunning false ]).
Proof. vm_compute. reflexivity. Qed.

Lemma checkInterrupt_all_invariants_witness :
  length (fst (fst demo_run)) = 4%nat /\
  (false = true -> count is_import (snd demo_run) = 0%nat) /\
  (count is_loaded (snd demo_run) <= 1)%nat /\
  snd (fst demo_run) = false || (0 <? count is_loaded (snd demo_run))%nat /\
  count is_mark (snd demo_run) = count is_running_true (snd demo_run) /\
  count is_stop (snd demo_run) = count is_mark (snd demo_run) /\
  count is_clear (snd demo_run) = count is_stop_resolved (snd demo_run).
Proof.
  exact (@checkInterrupt_all_invariants
           [lit "hello"; lit "!first"; lit "! stop"; lit "!again"]
           (busy_session 1 5) [] false _ _ _ eq_refl).
Defined.

End InterruptFacts.

(* ================================================================== *)
(** ** Typing indicator *)
(* ================================================================== *)

Section TypingFacts.
Import Typing.

Lemma steps_app st a b :
  steps st (a ++ b)
  = match steps st a with
    | (st1, t1) =>
        match steps st1 b with
        | (st2, t2) => (st2, t1 ++ t2)
        end
    end.
Proof.
  revert st. induction a as [|input a IH]; intros st; cbn [app steps].
  - now destruct (steps st b).
  - destruct (step st input) as [st1 t1]. rewrite IH.
    destruct (steps st1 a) as [st2 t2]. destruct (steps st2 b) as [st3 t3].
    now rewrite app_assoc.
Qed.

Lemma run_snoc inputs input :
  run (inputs ++ [input])
  = match run inputs with
    | (st, t) =>
        match step st input with
        | (st1, t1) => (st1, t ++ t1)
        end
    end.
Proof.
  unfold run. cbn [startTypingIndicator]. rewrite steps_app.
  destruct (steps {| running := true; loop := AwaitReply |} inputs) as [st t].
  cbn [steps]. destruct (step st input) as [st1 t1].
  now rewrite app_nil_r, app_assoc.
Qed.

(** The state after any sequence of inputs tells what has been emitted. *)
Lemma run_shape inputs :
  match loop (fst (run inputs)) with
  | AwaitReply =>
      exists n, snd (run inputs) = rounds n ++ [ReplyWithChatAction (lit "typing")]
  | AwaitSleep => exists n, snd (run inputs) = rounds (S n)
  | Finished =>
      running (fst (run inputs)) = false /\ exists n, snd (run inputs) = rounds (S n)
  end.
Proof.
  assert (Hr : forall n, rounds n ++ [ReplyWithChatAction (lit "typing"); Sleep 4000]
                         = rounds (S n)).
  { induction n as [|n IH]; [reflexivity|]. cbn [rounds app]. now rewrite IH. }
  induction inputs as [|input inputs IH] using rev_ind.
  { exists 0%nat. reflexivity. }
  rewrite run_snoc. destruct (run inputs) as [[r l] t]. cbn [fst snd loop running] in IH.
  destruct input as [ok|]; cbn [step loop running].
  - destruct l; cbn [fst snd loop running].
    + destruct IH as (n & ->). exists n. rewrite <- app_assoc. apply Hr.
    + destruct IH as (n & ->). destruct r; cbn [fst snd loop running].
      * exists (S n). reflexivity.
      * split; [reflexivity|]. exists n. now rewrite app_nil_r.
    + destruct IH as (Hrun & n & ->). split; [exact Hrun|].
      exists n. now rewrite app_nil_r.
  - destruct l; cbn [fst snd loop running]; rewrite app_nil_r; try exact IH.
    destruct IH as (_ & IH). split; [reflexivity|exact IH].
Qed.

(** X22.  Pacing.  Whatever happens, the chat actions and the sleeps alternate,
    starting with a chat action that is sent before [startTypingIndicator]
    returns: two chat actions are never sent without four seconds of sleep
    between them, and at least one is always sent, even when [stop()] is
    called at once. *)
Theorem typing_pacing inputs :
  (exists n,
      snd (run inputs) = rounds n ++ [ReplyWithChatAction (lit "typing")] \/
      snd (run inputs) = rounds (S n)) /\
  (1 <= typing_actions (snd (run inputs)))%nat.
Proof.
  assert (Hcount : forall n, typing_actions (rounds n) = n).
  { induction n as [|n IH]; [reflexivity|].
    unfold typing_actions in *. cbn. now rewrite IH. }
  pose proof (run_shape inputs) as H.
  destruct (loop (fst (run inputs))).
  - destruct H as (n & ->). split; [eauto|].
    unfold typing_actions. rewrite filter_app, length_app.
    cbn. lia.
  - destruct H as (n & ->). split; [eauto|]. rewrite Hcount. lia.
  - destruct H as (_ & n & ->). split; [eauto|]. rewrite Hcount. lia.
Qed.

Lemma typing_actions_app a b :
  typing_actions (a ++ b) = (typing_actions a + typing_actions b)%nat.
Proof. unfold typing_actions. now rewrite filter_app, length_app. Qed.

Lemma stopped_steps st inputs :
  running st = false ->
  running (fst (steps st inputs)) = false /\
  typing_actions (snd (steps st inputs)) = 0%nat.
Proof.
  revert st. induction inputs as [|input inputs IH]; intros st Hr; [auto|].
  cbn [steps].
  assert (Hstep : running (fst (step st input)) = false /\
                  typing_actions (snd (step st input)) = 0%nat).
  { destruct input as [ok|]; cbn [step]; [|auto].
    destruct (loop st); cbn; rewrite ?Hr; auto. }
  destruct (step st input) as [st1 t1]. cbn [fst snd] in Hstep.
  destruct Hstep as [Hr1 Ht1].
  specialize (IH st1 Hr1). destruct (steps st1 inputs) as [st2 t2].
  cbn [fst snd] in *. split; [apply IH|].
  unfold typing_actions in *. rewrite filter_app, length_app. lia.
Qed.

(** X23.  [stop()] is effective at once: no chat action is sent after it has
    been called, however long the loop still takes to come to rest. *)
Theorem no_typing_after_stop before later :
  typing_actions (snd (run (before ++ StopCalled :: later)))
  = typing_actions (snd (run before)).
Proof.
  unfold run. cbn [startTypingIndicator]. rewrite steps_app.
  destruct (steps {| running := true; loop := AwaitReply |} before) as [st t].
  cbn [steps step].
  pose proof (@stopped_steps {| running := false; loop := loop st |} later eq_refl)
    as [_ Hz].
  destruct (steps {| running := false; loop := loop st |} later) as [st2 t2].
  cbn [fst snd] in *.
  rewrite !typing_actions_app, Hz. cbn. lia.
Qed.

Lemma steps_running st inputs :
  ~ In StopCalled inputs ->
  running st = true ->
  loop st <> Finished ->
  running (fst (steps st inputs)) = true /\ loop (fst (steps st inputs)) <> Finished.
Proof.
  revert st. induction inputs as [|input inputs IH]; intros st Hno Hr Hl; [auto|].
  cbn [steps].
  assert (Hstep : running (fst (step st input)) = true /\
                  loop (fst (step st input)) <> Finished).
  { destruct input as [ok|]; [|destruct Hno; now left].
    cbn [step]. destruct (loop st); [| |contradiction]; cbn; rewrite ?Hr; cbn;
      split; auto; discriminate. }
  destruct (step st input) as [st1 t1]. cbn [fst] in Hstep. destruct Hstep as [Hr1 Hl1].
  assert (Hno' : ~ In StopCalled inputs) by (intros Hin; apply Hno; now right).
  specialize (IH st1 Hno' Hr1 Hl1). destruct (steps st1 inputs) as [st2 t2]. exact IH.
Qed.

(** X24.  The loop ends because of [stop()] and only because of it: without a
    call of [stop()] it never leaves the [while], whether chat actions
    fail or not; after a call it has left the [while] as soon as two
    pending awaits have settled. *)
Theorem typing_loop_ends_only_by_stop inputs :
  (loop (fst (run inputs)) = Finished -> In StopCalled inputs) /\
  (forall before a b later,
      inputs = before ++ StopCalled :: Settled a :: Settled b :: later ->
      loop (fst (run inputs)) = Finished).
Proof.
  split.
  - intros Hfin.
    destruct (in_dec (fun x y : Input =>
                        ltac:(decide equality; apply Bool.bool_dec) : {x = y} + {x <> y})
                StopCalled inputs) as [Hin|Hno]; [exact Hin|].
    exfalso. unfold run in Hfin. cbn [startTypingIndicator] in Hfin.
    pose proof (@steps_running {| running := true; loop := AwaitReply |} inputs Hno
                  eq_refl ltac:(discriminate)) as [_ Hl].
    destruct (steps {| running := true; loop := AwaitReply |} inputs) as [st t].
    cbn [fst] in *. contradiction.
  - intros before a b later ->.
    unfold run. cbn [startTypingIndicator]. rewrite steps_app.
    destruct (steps {| running := true; loop := AwaitReply |} before) as [st t].
    assert (Hend : forall st0, running st0 = false -> loop st0 = Finished ->
              loop (fst (steps st0 later)) = Finished).
    { clear. induction later as [|input later IH]; intros st0 Hr Hl; [exact Hl|].
      cbn [steps]. destruct input as [ok|]; cbn [step].
      - rewrite Hl. specialize (IH st0 Hr Hl).
        destruct (steps st0 later) as [st2 t2]. exact IH.
      - specialize (IH {| running := false; loop := loop st0 |} eq_refl Hl).
        destruct (steps _ later) as [st2 t2]. exact IH. }
    cbn [steps step running loop].
    destruct (loop st); cbn [running loop].
    + specialize (Hend {| running := false; loop := Finished |} eq_refl eq_refl).
      destruct (steps _ later) as [st2 t2]. exact Hend.
    + specialize (Hend {| running := false; loop := Finished |} eq_refl eq_refl).
      destruct (steps _ later) as [st2 t2]. exact Hend.
    + specialize (Hend {| running := false; loop := Finished |} eq_refl eq_refl).
      destruct (steps _ later) as [st2 t2]. exact Hend.
Qed.

Lemma typing_loop_ends_only_by_stop_witness :
  loop (fst (run ([Settled false] ++ StopCalled :: Settled true :: Settled true :: [])))
  = Finished.
Proof.
  apply (proj2 (@typing_loop_ends_only_by_stop
                  ([Settled false] ++ StopCalled :: Settled true :: Settled true :: []))
           [Settled false] true true []).
  reflexivity.
Defined.

Example typing_run :
  run [Settled true; Settled true; Settled false; StopCalled; Settled true; Settled true]
  = ({| running := false; loop := Finished |},
     [ ReplyWithChatAction (lit "typing"); Sleep 4000;
       ReplyWithChatAction (lit "typing"); Sleep 4000 ]).
Proof. reflexivity. Qed.

Example typing_stopped_at_once :
  run [StopCalled; Settled true; Settled true]
  = ({| running := false; loop := Finished |},
     [ ReplyWithChatAction (lit "typing"); Sleep 4000 ]).
Proof. reflexivity. Qed.

End TypingFacts.
